(** * ROS-TCP-Endpoint: the inbound connection handler and the outbound channel

    A shallow embedding of [ros_tcp_endpoint/client.py] (class [ClientThread])
    and [ros_tcp_endpoint/subscriber.py] (class [RosSubscriber]).

    Python values are modelled as follows.
    - [bytes] objects are lists of integers, each meant to lie in [0, 255];
    - [str] objects are lists of code points;
    - Python [int]s are [Z];
    - a call that may raise is a computation in the monad [M], which threads
      the state of the handler and yields either a value or an exception;
    - the socket, the registry, the endpoints and the control collaborators
      are records whose behaviour is data of the model. *)

From Stdlib Require Import DecimalString String Ascii ZArith List Bool Lia Arith.
Import ListNotations.
Local Open Scope Z_scope.

(** ** Bytes and strings *)

Definition byte := Z.
Definition bytes := list byte.
Definition codepoint := Z.
Definition pystr := list codepoint.

(** A Python string literal, written as a Rocq string of ASCII characters. *)
Definition lit (s : string) : pystr :=
  map (fun a => Z.of_N (N_of_ascii a)) (list_ascii_of_string s).
Arguments lit s%_string.

Fixpoint list_eqb (a b : list Z) : bool :=
  match a, b with
  | [], [] => true
  | x :: a', y :: b' => (x =? y) && list_eqb a' b'
  | _, _ => false
  end.

Definition pystr_eqb : pystr -> pystr -> bool := list_eqb.
Definition bytes_eqb : bytes -> bytes -> bool := list_eqb.

(** [len(x)] as a Python integer. *)
Definition len {A} (l : list A) : Z := Z.of_nat (length l).

(** [needle in haystack] for strings: some suffix starts with the needle. *)
Definition contains (haystack needle : pystr) : Prop :=
  exists before after, haystack = before ++ needle ++ after.

(** ** Exceptions *)

(** An exception object, an instance of a subclass of [Exception]: its class
    and [str(e)]. *)
Record exn := Exn { exn_class : string; exn_text : pystr }.
Arguments Exn exn_class%_string exn_text.

(** What a call yields: a value or an exception. *)
Inductive outcome (A : Type) : Type :=
| Returns (a : A)
| Raises (e : exn).
Arguments Returns {A} a.
Arguments Raises {A} e.

Definition obind {A B} (r : outcome A) (k : A -> outcome B) : outcome B :=
  match r with
  | Returns a => k a
  | Raises e => Raises e
  end.

(** ** [struct.pack('<I', n)] and [struct.unpack('<I', b)] *)

Definition struct_error (text : string) : exn := Exn "struct.error" (lit text).
Arguments struct_error text%_string.

Definition le32 (n : Z) : bytes :=
  [n mod 256; (n / 256) mod 256; (n / 65536) mod 256; (n / 16777216) mod 256].

Definition pack_u32 (n : Z) : outcome bytes :=
  if (0 <=? n) && (n <? 4294967296) then Returns (le32 n)
  else Raises (struct_error "argument out of range").

Definition unpack_u32 (b : bytes) : outcome Z :=
  match b with
  | [b0; b1; b2; b3] => Returns (b0 + 256 * b1 + 65536 * b2 + 16777216 * b3)
  | _ => Raises (struct_error "unpack requires a buffer of 4 bytes")
  end.

(** ** [str.encode('utf-8')] and [bytes.decode('utf-8')] (strict) *)

Definition unicode_encode_error : exn :=
  Exn "UnicodeEncodeError" (lit "'utf-8' codec can't encode character: surrogates not allowed").

Definition unicode_decode_error : exn :=
  Exn "UnicodeDecodeError" (lit "'utf-8' codec can't decode bytes").

Definition is_surrogate (c : codepoint) : bool := (55296 <=? c) && (c <=? 57343).

Definition utf8_encode_cp (c : codepoint) : option bytes :=
  if c <? 0 then None
  else if c <? 128 then Some [c]
  else if c <? 2048 then Some [192 + c / 64; 128 + c mod 64]
  else if c <? 65536 then
    if is_surrogate c then None
    else Some [224 + c / 4096; 128 + (c / 64) mod 64; 128 + c mod 64]
  else if c <? 1114112 then
    Some [240 + c / 262144; 128 + (c / 4096) mod 64; 128 + (c / 64) mod 64; 128 + c mod 64]
  else None.

Fixpoint utf8_encode_opt (s : pystr) : option bytes :=
  match s with
  | [] => Some []
  | c :: s' =>
    match utf8_encode_cp c, utf8_encode_opt s' with
    | Some b, Some bs => Some (b ++ bs)
    | _, _ => None
    end
  end.

Definition utf8_encode (s : pystr) : outcome bytes :=
  match utf8_encode_opt s with
  | Some b => Returns b
  | None => Raises unicode_encode_error
  end.

Definition is_cont (b : byte) : bool := (128 <=? b) && (b <=? 191).

Definition cons_cp (c : codepoint) (r : option pystr) : option pystr :=
  match r with Some s => Some (c :: s) | None => None end.

Fixpoint utf8_decode_opt (b : bytes) : option pystr :=
  match b with
  | [] => Some []
  | b0 :: t0 =>
    if (0 <=? b0) && (b0 <? 128) then cons_cp b0 (utf8_decode_opt t0)
    else if (194 <=? b0) && (b0 <=? 223) then
      match t0 with
      | b1 :: t1 =>
        if is_cont b1
        then cons_cp ((b0 - 192) * 64 + (b1 - 128)) (utf8_decode_opt t1)
        else None
      | _ => None
      end
    else if (224 <=? b0) && (b0 <=? 239) then
      match t0 with
      | b1 :: b2 :: t2 =>
        let c := (b0 - 224) * 4096 + (b1 - 128) * 64 + (b2 - 128) in
        if is_cont b1 && is_cont b2 && (2048 <=? c) && negb (is_surrogate c)
        then cons_cp c (utf8_decode_opt t2)
        else None
      | _ => None
      end
    else if (240 <=? b0) && (b0 <=? 244) then
      match t0 with
      | b1 :: b2 :: b3 :: t3 =>
        let c := (b0 - 240) * 262144 + (b1 - 128) * 4096 + (b2 - 128) * 64 + (b3 - 128) in
        if is_cont b1 && is_cont b2 && is_cont b3 && (65536 <=? c) && (c <? 1114112)
        then cons_cp c (utf8_decode_opt t3)
        else None
      | _ => None
      end
    else None
  end.

Definition utf8_decode (b : bytes) : outcome pystr :=
  match utf8_decode_opt b with
  | Some s => Returns s
  | None => Raises unicode_decode_error
  end.

(** [str(n)] for an integer, and ['{}'.format(x)] for an optional value. *)
Definition str_of_int (n : Z) : pystr :=
  map (fun a => Z.of_N (N_of_ascii a))
      (list_ascii_of_string (DecimalString.NilZero.string_of_int (Z.to_int n))).

Definition fmt_opt_str (d : option pystr) : pystr :=
  match d with Some s => s | None => lit "None" end.

(** ** Computations that read and change a state and may raise *)

(** The result of running a computation: [OutOfFuel] is the answer of a loop
    that was given too few turns. *)
Inductive result (A : Type) : Type :=
| Ok (a : A)
| Exc (e : exn)
| OutOfFuel.
Arguments Ok {A} a.
Arguments Exc {A} e.
Arguments OutOfFuel {A}.

Definition M (S A : Type) : Type := S -> result A * S.

Definition ret {S A} (a : A) : M S A := fun st => (Ok a, st).
Definition raise {S A} (e : exn) : M S A := fun st => (Exc e, st).
Definition starve {S A} : M S A := fun st => (OutOfFuel, st).

Definition bind {S A B} (m : M S A) (k : A -> M S B) : M S B :=
  fun st =>
    match m st with
    | (Ok a, st') => k a st'
    | (Exc e, st') => (Exc e, st')
    | (OutOfFuel, st') => (OutOfFuel, st')
    end.

(** [try: m  except Exception as e: h e] *)
Definition try_except {S A} (m : M S A) (h : exn -> M S A) : M S A :=
  fun st =>
    match m st with
    | (Exc e, st') => h e st'
    | r => r
    end.

(** A call that leaves the state alone. *)
Definition lift {S A} (r : outcome A) : M S A :=
  fun st => match r with
            | Returns a => (Ok a, st)
            | Raises e => (Exc e, st)
            end.

Declare Scope monad_scope.
Delimit Scope monad_scope with monad.
Notation "x <- m ;; k" := (bind m (fun x => k))
  (at level 61, m at next level, right associativity) : monad_scope.
Notation "m ;;; k" := (bind m (fun _ => k))
  (at level 61, right associativity) : monad_scope.
Local Open Scope monad_scope.

(** ** [ClientThread]: the state of one inbound connection *)

(** What the handler does to its surroundings, in order. *)
Inductive event : Type :=
| EvRecv (bufsize : Z) (got : bytes)
| EvRecvError (bufsize : Z)
| EvConnSend (data : bytes)
| EvConnSendError (data : bytes)
| EvClose
| EvPrint (text : pystr)
| EvSyscommand (data : bytes)
| EvHandshake (ip : pystr) (data : bytes)
| EvEndpointSend (destination : pystr) (data : bytes)
| EvUnityError (text : pystr).

(** [conn_pending] is what the peer has sent and the handler has not read yet,
    in the pieces in which the transport delivers it: one [recv] returns bytes
    of the first piece only.  After the last piece the peer has closed its
    side, and [recv] returns [b''].  [conn_send_failure] is the exception a
    write on the connection meets, if any.  [trace] records what the handler
    has done. *)
Record ClientThread : Type := mkClient {
  conn_pending : list bytes;
  conn_closed : bool;
  conn_send_failure : option exn;
  client_running : bool;
  incoming_ip : pystr;
  trace : list event
}.

Definition set_pending (p : list bytes) (c : ClientThread) : ClientThread :=
  mkClient p (conn_closed c) (conn_send_failure c) (client_running c)
           (incoming_ip c) (trace c).

Definition emit_ev (e : event) (c : ClientThread) : ClientThread :=
  mkClient (conn_pending c) (conn_closed c) (conn_send_failure c)
           (client_running c) (incoming_ip c) (trace c ++ [e]).

Definition closed_client (c : ClientThread) : ClientThread :=
  mkClient (conn_pending c) true (conn_send_failure c) false
           (incoming_ip c) (trace c ++ [EvClose]).

Definition emit (e : event) : M ClientThread unit :=
  fun st => (Ok tt, emit_ev e st).

Definition print (text : pystr) : M ClientThread unit := emit (EvPrint text).

(** ** The socket *)

Definition os_error : exn := Exn "OSError" (lit "[Errno 9] Bad file descriptor").
Definition value_error : exn := Exn "ValueError" (lit "negative buffersize in recv").

(** What is left of a piece stays in front of the pieces that follow. *)
Definition push_chunk (r : bytes) (cs : list bytes) : list bytes :=
  match r with
  | [] => cs
  | _ => r :: cs
  end.

(** The bytes one [recv(n)] returns and the pieces left.  An empty piece
    stands for a read that returns nothing. *)
Definition take_chunk (n : nat) (p : list bytes) : bytes * list bytes :=
  match n, p with
  | O, _ => ([], p)
  | _, [] => ([], [])
  | _, c :: cs => (firstn n c, push_chunk (skipn n c) cs)
  end.

Definition recv (bufsize : Z) : M ClientThread bytes :=
  fun st =>
    if conn_closed st then (Exc os_error, emit_ev (EvRecvError bufsize) st)
    else if bufsize <? 0 then (Exc value_error, emit_ev (EvRecvError bufsize) st)
    else
      let (got, rest) := take_chunk (Z.to_nat bufsize) (conn_pending st) in
      (Ok got, emit_ev (EvRecv bufsize got) (set_pending rest st)).

(** [conn.send(data)]; the number of bytes written, which the handler ignores,
    is not modelled: a write is taken whole or fails. *)
Definition conn_send (data : bytes) : M ClientThread unit :=
  fun st =>
    if conn_closed st then (Exc os_error, emit_ev (EvConnSendError data) st)
    else match conn_send_failure st with
         | Some e => (Exc e, emit_ev (EvConnSendError data) st)
         | None => (Ok tt, emit_ev (EvConnSend data) st)
         end.

Definition pending_bytes (st : ClientThread) : nat :=
  length (concat (conn_pending st)).

(** ** [ClientThread.shutdown_client] *)

Definition shutdown_client : M ClientThread unit :=
  fun st =>
    if negb (client_running st) then (Ok tt, st)
    else (Ok tt, closed_client st).

(** ** [ClientThread.validate_preamble] *)

Definition _Preamble : bytes := [254; 237; 240; 13].

Definition connection_closed_exn : exn := Exn "Exception" (lit "TCP connection closed!").

Fixpoint preamble_loop (fuel : nat) (preamble_read_remaining : Z) (data : bytes)
  : M ClientThread bytes :=
  if preamble_read_remaining >? 0 then
    match fuel with
    | O => starve
    | S fuel' =>
      raw_bytes <- recv preamble_read_remaining ;;
      match raw_bytes with
      | [] => raise connection_closed_exn
      | _ => preamble_loop fuel' (preamble_read_remaining - len raw_bytes)
                           (data ++ raw_bytes)
      end
    end
  else ret data.

Definition validate_preamble : M ClientThread bool :=
  try_except
    (data <- preamble_loop (length _Preamble) (len _Preamble) [] ;;
     if negb (bytes_eqb data _Preamble) then ret false else ret true)
    (fun e =>
       print (lit "Unable to read preamble from connection. " ++ exn_text e) ;;;
       ret false).

(** ** [ClientThread.read_int32] and [ClientThread.read_string] *)

Definition read_int32 : M ClientThread (option Z) :=
  try_except
    (raw_bytes <- recv 4 ;;
     num <- lift (unpack_u32 raw_bytes) ;;
     ret (Some num))
    (fun e =>
       print (lit "Unable to read integer from connection. " ++ exn_text e) ;;;
       ret None).

Definition recv_none_error : exn :=
  Exn "TypeError" (lit "'NoneType' object cannot be interpreted as an integer").

Definition read_string : M ClientThread (option pystr) :=
  try_except
    (str_len <- read_int32 ;;
     str_bytes <- match str_len with
                  | Some n => recv n
                  | None => raise recv_none_error
                  end ;;
     decoded_str <- lift (utf8_decode str_bytes) ;;
     ret (Some decoded_str))
    (fun e =>
       print (lit "Unable to read string from connection. " ++ exn_text e) ;;;
       ret None).

(** ** [ClientThread.serialize_message] *)

(** A message object: [message.serialize(buff)] writes these bytes to the
    buffer or raises. *)
Record message : Type := mkMessage { msg_serialize : outcome bytes }.

Definition serialize_message (destination : pystr) (msg : message) : outcome bytes :=
  obind (utf8_encode destination) (fun dest_bytes =>
  let length := len dest_bytes in
  obind (pack_u32 length) (fun prefix =>
  let dest_info := prefix ++ dest_bytes in
  obind (msg_serialize msg) (fun serial_response =>
  let response_len := len serial_response in
  obind (pack_u32 response_len) (fun msg_length =>
  Returns (dest_info ++ msg_length ++ serial_response))))).

(** ** The server the handler belongs to *)

(** [Endpoint.send(data)]: returns [None] or a response object, or raises.
    A response object is true in [if response:]. *)
Definition endpoint : Type := bytes -> outcome (option message).

(** [tcp_server]: the registry ([source_destination_dict], in insertion
    order), the control collaborators and the error sink.  [py_repr] is
    [repr] on strings, by which [str(dict.keys())] renders each name. *)
Record TcpServer : Type := mkServer {
  source_destination_dict : list (pystr * endpoint);
  handshake : pystr -> bytes -> outcome message;
  handle_syscommand : bytes -> outcome unit;
  send_unity_error : pystr -> outcome unit;
  py_repr : pystr -> pystr
}.

Definition dict_keys (d : list (pystr * endpoint)) : list pystr := map fst d.

Fixpoint dict_get (d : list (pystr * endpoint)) (k : pystr) : option endpoint :=
  match d with
  | [] => None
  | (k', v) :: d' => if pystr_eqb k k' then Some v else dict_get d' k
  end.

Fixpoint join (sep : pystr) (l : list pystr) : pystr :=
  match l with
  | [] => []
  | [x] => x
  | x :: l' => x ++ sep ++ join sep l'
  end.

(** [str(d.keys())] *)
Definition str_dict_keys (repr : pystr -> pystr) (keys : list pystr) : pystr :=
  lit "dict_keys([" ++ join (lit ", ") (map repr keys) ++ lit "])".

Definition unknown_destination_msg (srv : TcpServer) (destination : option pystr)
  : pystr :=
  lit "Topic/service destination '" ++ fmt_opt_str destination
  ++ lit "' is not defined! Known topics are: "
  ++ str_dict_keys (py_repr srv) (dict_keys (source_destination_dict srv))
  ++ lit " ".

Definition TopicOrServiceNameDoesNotExistError (text : pystr) : exn :=
  Exn "TopicOrServiceNameDoesNotExistError" text.

Definition compare_none_error : exn :=
  Exn "TypeError" (lit "'<' not supported between instances of 'int' and 'NoneType'").

(** ** [ClientThread.run] *)

(** The loop that accumulates the payload, [while len(data) < full_message_size]. *)
Fixpoint payload_loop (fuel : nat) (full_message_size : Z) (data : bytes)
  : M ClientThread bytes :=
  if len data <? full_message_size then
    match fuel with
    | O => starve
    | S fuel' =>
      let grab := if full_message_size - len data >? 1024 then 1024
                  else full_message_size - len data in
      packet <- recv grab ;;
      match packet with
      | [] => print (lit "No packets...") ;;; ret data
      | _ => payload_loop fuel' full_message_size (data ++ packet)
      end
    end
  else ret data.

(** Every turn of the loop but the last takes a byte from [conn_pending]. *)
Definition read_payload (full_message_size : option Z) : M ClientThread bytes :=
  match full_message_size with
  | None => raise compare_none_error
  | Some n => fun st => payload_loop (S (pending_bytes st)) n [] st
  end.

Inductive flow : Type := Continue | Return.

Definition is_destination (destination : option pystr) (name : pystr) : bool :=
  match destination with
  | Some d => pystr_eqb d name
  | None => false
  end.

Definition lookup_destination (srv : TcpServer) (destination : option pystr)
  : option (pystr * endpoint) :=
  match destination with
  | Some d =>
    match dict_get (source_destination_dict srv) d with
    | Some ep => Some (d, ep)
    | None => None
    end
  | None => None
  end.

(** Lines 186 to 188: the branch of [__syscommand]. *)
Definition dispatch_syscommand (srv : TcpServer) (data : bytes)
  : M ClientThread flow :=
  emit (EvSyscommand data) ;;;
  lift (handle_syscommand srv data) ;;;
  shutdown_client ;;;
  ret Return.

(** Lines 190 to 194: the branch of [__handshake]. *)
Definition dispatch_handshake (srv : TcpServer) (data : bytes)
  : M ClientThread flow :=
  ip <- (fun st => (Ok (incoming_ip st), st)) ;;
  emit (EvHandshake ip data) ;;;
  response <- lift (handshake srv ip data) ;;
  response_message <- lift (serialize_message (lit "__handshake") response) ;;
  conn_send response_message ;;;
  shutdown_client ;;;
  ret Return.

(** Lines 196 to 200: the destination is not a key of the registry. *)
Definition dispatch_unknown (srv : TcpServer) (destination : option pystr)
  : M ClientThread flow :=
  let error_msg := unknown_destination_msg srv destination in
  shutdown_client ;;;
  emit (EvUnityError error_msg) ;;;
  lift (send_unity_error srv error_msg) ;;;
  raise (TopicOrServiceNameDoesNotExistError error_msg).

(** Lines 204 to 214: the registered endpoint takes the payload. *)
Definition dispatch_endpoint (destination : pystr) (ros_communicator : endpoint)
           (data : bytes) : M ClientThread flow :=
  try_except
    (emit (EvEndpointSend destination data) ;;;
     response <- lift (ros_communicator data) ;;
     match response with
     | Some r =>
       response_message <- lift (serialize_message destination r) ;;
       conn_send response_message
     | None => ret tt
     end ;;;
     ret Continue)
    (fun e =>
       print (lit "Exception Raised: " ++ exn_text e) ;;;
       shutdown_client ;;;
       ret Return).

(** Lines 185 to 214: route the frame that has been read. *)
Definition dispatch (srv : TcpServer) (destination : option pystr) (data : bytes)
  : M ClientThread flow :=
  if is_destination destination (lit "__syscommand") then
    dispatch_syscommand srv data
  else if is_destination destination (lit "__handshake") then
    dispatch_handshake srv data
  else
    match lookup_destination srv destination with
    | None => dispatch_unknown srv destination
    | Some (d, ros_communicator) => dispatch_endpoint d ros_communicator data
    end.

(** Lines 180 to 183: nothing was read for the payload. *)
Definition no_data (full_message_size : option Z) : M ClientThread flow :=
  print (lit "No data for a message size of "
         ++ fmt_opt_str (option_map str_of_int full_message_size)
         ++ lit ", breaking!") ;;;
  shutdown_client ;;;
  ret Return.

(** Lines 161 to 164: the preamble was not accepted. *)
Definition invalid_preamble : M ClientThread flow :=
  print (lit "Invalid preamble from connection, closing connection!") ;;;
  shutdown_client ;;;
  ret Return.

(** One turn of [while self.client_running]. *)
Definition run_iteration (srv : TcpServer) : M ClientThread flow :=
  ok <- validate_preamble ;;
  if negb ok then invalid_preamble
  else
    destination <- read_string ;;
    full_message_size <- read_int32 ;;
    data <- read_payload full_message_size ;;
    match data with
    | [] => no_data full_message_size
    | _ => dispatch srv destination data
    end.

(** Lines 166 to 178: the fields of a frame that follow the preamble. *)
Definition read_fields : M ClientThread (option pystr * option Z * bytes) :=
  destination <- read_string ;;
  full_message_size <- read_int32 ;;
  data <- read_payload full_message_size ;;
  ret (destination, full_message_size, data).

Fixpoint run_loop (srv : TcpServer) (fuel : nat) : M ClientThread unit :=
  fun st =>
    if client_running st then
      match fuel with
      | O => (OutOfFuel, st)
      | S fuel' =>
        (fl <- run_iteration srv ;;
         match fl with
         | Return => ret tt
         | Continue => run_loop srv fuel'
         end) st
      end
    else (Ok tt, st).

(** Every turn that does not return consumes a preamble from [conn_pending]. *)
Definition run (srv : TcpServer) : M ClientThread unit :=
  fun st => run_loop srv (S (pending_bytes st)) st.

(** ** What a run of the handler did *)

Definition is_read_event (e : event) : bool :=
  match e with
  | EvRecv _ _ | EvRecvError _ | EvPrint _ => true
  | _ => false
  end.

(** Only reads and prints: nothing written, closed or dispatched. *)
Definition quiet (evs : list event) : bool := forallb is_read_event evs.

Definition is_recv (e : event) : bool :=
  match e with
  | EvRecv _ _ | EvRecvError _ => true
  | _ => false
  end.

Definition is_dispatch (e : event) : bool :=
  match e with
  | EvSyscommand _ | EvHandshake _ _ | EvEndpointSend _ _ => true
  | _ => false
  end.

Definition is_close (e : event) : bool :=
  match e with
  | EvClose => true
  | _ => false
  end.

Definition is_conn_send (e : event) : bool :=
  match e with
  | EvConnSend _ => true
  | _ => false
  end.

Definition is_unity_error (e : event) : bool :=
  match e with
  | EvUnityError _ => true
  | _ => false
  end.

(** The bytes the reads of a trace returned, in order. *)
Definition received (evs : list event) : bytes :=
  flat_map (fun e => match e with EvRecv _ got => got | _ => [] end) evs.

Definition close_count (evs : list event) : nat := length (filter is_close evs).

(** The bytes the handler has not read yet. *)
Definition stream (st : ClientThread) : bytes := concat (conn_pending st).

Definition nonempty_chunks (st : ClientThread) : Prop :=
  Forall (fun c => c <> []) (conn_pending st).

(** From [st] to [st'] the handler has read [got] from the front of the stream
    and has done nothing else to the connection. *)
Definition reads (st st' : ClientThread) (got : bytes) : Prop :=
  conn_closed st' = conn_closed st /\
  conn_send_failure st' = conn_send_failure st /\
  client_running st' = client_running st /\
  incoming_ip st' = incoming_ip st /\
  stream st = got ++ stream st' /\
  exists evs, trace st' = trace st ++ evs /\ quiet evs = true /\ received evs = got.

Definition reading {A} (m : M ClientThread A) : Prop :=
  forall st r st', m st = (r, st') -> exists got, reads st st' got.

(** The closes that have been made, and the one that is still to come while
    the handler is running. *)
Definition close_budget (st : ClientThread) : nat :=
  close_count (trace st) + (if client_running st then 1 else 0).

(** A computation that does not run out of turns, does not add to what is
    waiting to be read, closes the connection only when the handler was
    running, stopping it, and adds to the trace without changing what is in
    it. *)
Definition steady {A} (m : M ClientThread A) : Prop :=
  forall st r st', m st = (r, st') ->
    r <> OutOfFuel /\
    (pending_bytes st' <= pending_bytes st)%nat /\
    (close_budget st' <= close_budget st)%nat /\
    exists evs, trace st' = trace st ++ evs.

(** From [st] the handler accepts a preamble and then reads these fields. *)
Definition frame_read (st : ClientThread) (destination : option pystr)
           (size : option Z) (data : bytes) (st' : ClientThread) : Prop :=
  exists st1,
    validate_preamble st = (Ok true, st1) /\
    read_fields st1 = (Ok (destination, size, data), st').

(** The state in which the fields of the first frame have been read. *)
Definition after_frame (st : ClientThread) : ClientThread :=
  snd (read_fields (snd (validate_preamble st))).

(** [n] calls of [shutdown_client] in a row. *)
Fixpoint shutdown_times (n : nat) (st : ClientThread) : ClientThread :=
  match n with
  | O => st
  | S n' => shutdown_times n' (snd (shutdown_client st))
  end.

(** ** [RosSubscriber]: the outbound channel of one topic *)

Module Subscriber.

(** The sockets a channel creates are numbered in the order of creation. *)
Definition socket_id := nat.

Inductive event : Type :=
| SockCreate (s : socket_id)
| SockConnect (s : socket_id) (ip : pystr) (port : Z) (ok : bool)
| SockSend (s : socket_id) (data : bytes) (ok : bool)
| SockClose (s : socket_id)
| LogInfo (text : pystr)
| PrintLine (text : pystr).

(** The fields of [self] that [send] reads or writes, the fields of
    [self.tcp_server.unity_tcp_sender] it uses, and what it has done.
    [msg] is the message class, which the model knows by its name. *)
Record RosSubscriber : Type := mkSubscriber {
  topic : pystr;
  msg : pystr;
  socket : option socket_id;
  connected : bool;
  most_recent_exception_message : pystr;
  unity_ip : pystr;
  unity_port : Z;
  unity_ip_error_message_printed : bool;
  next_socket : socket_id;
  trace : list event
}.

(** What the surroundings answer during one call of [send].  [net_connect]
    stands for the first failure among [settimeout], [setsockopt] and
    [connect]. *)
Record Net : Type := mkNet {
  is_shutdown : bool;
  net_socket : option exn;
  net_connect : option exn;
  net_send : option exn;
  net_close : option exn
}.

Definition emit_ev (e : event) (c : RosSubscriber) : RosSubscriber :=
  mkSubscriber (topic c) (msg c) (socket c) (connected c)
    (most_recent_exception_message c) (unity_ip c) (unity_port c)
    (unity_ip_error_message_printed c) (next_socket c) (trace c ++ [e]).

Definition set_connected (b : bool) (c : RosSubscriber) : RosSubscriber :=
  mkSubscriber (topic c) (msg c) (socket c) b
    (most_recent_exception_message c) (unity_ip c) (unity_port c)
    (unity_ip_error_message_printed c) (next_socket c) (trace c).

Definition set_most_recent (m : pystr) (c : RosSubscriber) : RosSubscriber :=
  mkSubscriber (topic c) (msg c) (socket c) (connected c) m
    (unity_ip c) (unity_port c)
    (unity_ip_error_message_printed c) (next_socket c) (trace c).

Definition set_printed (c : RosSubscriber) : RosSubscriber :=
  mkSubscriber (topic c) (msg c) (socket c) (connected c)
    (most_recent_exception_message c) (unity_ip c) (unity_port c)
    true (next_socket c) (trace c).

(** [self.socket = socket.socket(...)] *)
Definition new_socket (c : RosSubscriber) : RosSubscriber :=
  mkSubscriber (topic c) (msg c) (Some (next_socket c)) (connected c)
    (most_recent_exception_message c) (unity_ip c) (unity_port c)
    (unity_ip_error_message_printed c) (S (next_socket c))
    (trace c ++ [SockCreate (next_socket c)]).

Definition emit (e : event) : M RosSubscriber unit :=
  fun st => (Ok tt, emit_ev e st).

Definition get {A} (f : RosSubscriber -> A) : M RosSubscriber A :=
  fun st => (Ok (f st), st).

Definition modify (f : RosSubscriber -> RosSubscriber) : M RosSubscriber unit :=
  fun st => (Ok tt, f st).

Definition no_socket_error (attr : string) : exn :=
  Exn "AttributeError" (lit "'NoneType' object has no attribute '" ++ lit attr ++ lit "'").

(** ["Exception {}".format(e)] *)
Definition exception_message (e : exn) : pystr := lit "Exception " ++ exn_text e.

(** Lines 72 to 75 and 95 to 98: log the text unless it is the one logged last. *)
Definition log_exception (e : exn) : M RosSubscriber unit :=
  recent <- get most_recent_exception_message ;;
  if negb (pystr_eqb (exception_message e) recent) then
    modify (set_most_recent (exception_message e)) ;;;
    emit (LogInfo (exception_message e))
  else ret tt.

Definition socket_connect (net : Net) : M RosSubscriber unit :=
  s <- get socket ;;
  ip <- get unity_ip ;;
  port <- get unity_port ;;
  match s with
  | None => raise (no_socket_error "settimeout")
  | Some i =>
    match net_connect net with
    | Some e => emit (SockConnect i ip port false) ;;; raise e
    | None => emit (SockConnect i ip port true)
    end
  end.

Definition socket_send (net : Net) (data : bytes) : M RosSubscriber unit :=
  s <- get socket ;;
  match s with
  | None => raise (no_socket_error "send")
  | Some i =>
    match net_send net with
    | Some e => emit (SockSend i data false) ;;; raise e
    | None => emit (SockSend i data true)
    end
  end.

Definition socket_close (net : Net) : M RosSubscriber unit :=
  s <- get socket ;;
  match s with
  | None => raise (no_socket_error "close")
  | Some i =>
    emit (SockClose i) ;;;
    match net_close net with
    | Some e => raise e
    | None => ret tt
    end
  end.

(** [RosSubscriber.create_new_connection] *)
Definition create_new_connection (net : Net) : M RosSubscriber bool :=
  ip <- get unity_ip ;;
  if pystr_eqb ip [] then
    printed <- get unity_ip_error_message_printed ;;
    (if negb printed then
       modify set_printed ;;;
       t <- get topic ;;
       emit (PrintLine (lit "Can't send a message on topic " ++ t
                    ++ lit ", no defined unity IP!"))
     else ret tt) ;;;
    ret false
  else
    try_except
      (match net_socket net with
       | Some e => raise e
       | None => modify new_socket
       end ;;;
       socket_connect net ;;;
       ret true)
      (fun e => log_exception e ;;; ret false).

(** [RosSubscriber.close_connection_if_applicable] *)
Definition close_connection_if_applicable (net : Net) : M RosSubscriber unit :=
  modify (set_connected false) ;;;
  s <- get socket ;;
  match s with
  | Some _ => try_except (socket_close net) (fun _ => ret tt)
  | None => ret tt
  end.

(** Lines 68 and 69: serialize and write. *)
Definition write_body (net : Net) (data : message) : M RosSubscriber unit :=
  t <- get topic ;;
  serialized_message <- lift (serialize_message t data) ;;
  socket_send net serialized_message.

(** Lines 71 to 75: what is done when the write raises. *)
Definition on_write_error (net : Net) (e : exn) : M RosSubscriber unit :=
  close_connection_if_applicable net ;;;
  log_exception e.

(** Lines 67 to 75. *)
Definition write_message (net : Net) (data : message) : M RosSubscriber unit :=
  try_except (write_body net data) (on_write_error net).

(** Lines 61 to 65: [True] when the channel is connected or becomes so. *)
Definition ensure_connected (net : Net) : M RosSubscriber bool :=
  c <- get connected ;;
  if negb c then
    ok <- create_new_connection net ;;
    if ok then modify (set_connected true) ;;; ret true
    else ret false
  else ret true.

(** [RosSubscriber.send]; the result is [None] or [self.msg]. *)
Definition send (net : Net) (data : message) : M RosSubscriber (option pystr) :=
  if is_shutdown net then ret None
  else
    proceed <- ensure_connected net ;;
    if negb proceed then ret None
    else
      write_message net data ;;;
      m <- get msg ;;
      ret (Some m).

(** The channel after [log_exception]. *)
Definition logged (e : exn) (st : RosSubscriber) : RosSubscriber :=
  if pystr_eqb (exception_message e) (most_recent_exception_message st) then st
  else emit_ev (LogInfo (exception_message e)) (set_most_recent (exception_message e) st).

(** The channel after a socket has been made and [connect] has been tried. *)
Definition attempt_connect (ok : bool) (st : RosSubscriber) : RosSubscriber :=
  emit_ev (SockConnect (next_socket st) (unity_ip st) (unity_port st) ok)
          (new_socket st).

(** The channel after a write on socket [s] has failed and the socket has
    been closed. *)
Definition failed_write (s : socket_id) (b : bytes) (st : RosSubscriber)
  : RosSubscriber :=
  emit_ev (SockClose s) (set_connected false (emit_ev (SockSend s b false) st)).

(** What [log_exception] adds to the log. *)
Definition log_lines (e : exn) (st : RosSubscriber) : list event :=
  if pystr_eqb (exception_message e) (most_recent_exception_message st) then []
  else [LogInfo (exception_message e)].

Definition is_sock_close (e : event) : bool :=
  match e with
  | SockClose _ => true
  | _ => false
  end.

(** A channel that counts as connected has a socket. *)
Definition connected_has_socket (st : RosSubscriber) : Prop :=
  connected st = true -> socket st <> None.

(** A channel as [__init__] leaves it, once the peer's address is known. *)
Definition fresh (ip : pystr) (port : Z) : RosSubscriber :=
  mkSubscriber (lit "/chat") (lit "std_msgs/String") None false [] ip port false O [].

(** A network on which connecting is refused. *)
Definition refusing : Net :=
  mkNet false None (Some (Exn "ConnectionRefusedError" (lit "[Errno 111] Connection refused")))
        None None.

(** A network on which connecting succeeds and writing fails. *)
Definition breaking : Net :=
  mkNet false None None (Some (Exn "BrokenPipeError" (lit "[Errno 32] Broken pipe"))) None.

(** A network on which everything succeeds. *)
Definition working : Net := mkNet false None None None None.

End Subscriber.

(** ** A small server and its peers, for the examples *)

Module Examples.

(** [repr] of a name made of plain letters. *)
Definition quote (s : pystr) : pystr := lit "'" ++ s ++ lit "'".

(** A publisher takes the payload and answers nothing. *)
Definition publisher : endpoint := fun _ => Returns None.

(** A service answers with a message that serializes to the payload. *)
Definition service : endpoint := fun data => Returns (Some (mkMessage (Returns data))).

(** An endpoint whose [send] raises. *)
Definition failing : endpoint :=
  fun _ => Raises (Exn "ROSException" (lit "publish failed")).

(** A handshake that answers with the address of the peer, and raises on a
    payload of fewer than two bytes. *)
Definition handshake (ip : pystr) (data : bytes) : outcome message :=
  match data with
  | _ :: _ :: _ => Returns (mkMessage (Returns (map (fun c => c mod 256) ip)))
  | _ => Raises (struct_error "unpack requires a buffer of 2 bytes")
  end.

Definition server : TcpServer :=
  mkServer [(lit "a", publisher); (lit "b", service); (lit "f", failing)]
           handshake (fun _ => Returns tt) (fun _ => Returns tt) quote.

(** A handler that has just been started on a connection with these pieces
    on their way. *)
Definition client (pieces : list bytes) : ClientThread :=
  mkClient pieces false None true (lit "10.0.0.1") [].

(** The bytes of an inbound frame. *)
Definition frame (destination : pystr) (payload : bytes) : bytes :=
  match serialize_message destination (mkMessage (Returns payload)) with
  | Returns b => _Preamble ++ b
  | Raises _ => []
  end.

(** The frame for [a] with one byte of payload, in one piece and with its
    first length prefix cut in two. *)
Definition whole_frame : list bytes := [frame (lit "a") [120]].

Definition split_prefix : list bytes :=
  [[254; 237; 240; 13]; [1; 0]; [0; 0]; [97]; [1; 0; 0; 0]; [120]].

(** A frame for [a] that announces three bytes of payload and carries one;
    then the peer closes. *)
Definition truncated_frame : bytes :=
  _Preamble ++ le32 1 ++ lit "a" ++ le32 3 ++ [120].

End Examples.

(** ** Further observations on the handler *)

(** A read of the payload loop: it asks for between 1 and 1024 bytes and
    gets no more than it asks for. *)
Definition small_read (e : event) : bool :=
  match e with
  | EvRecv n got => (0 <? n) && (n <=? 1024) && (len got <=? n)
  | EvRecvError n => (0 <? n) && (n <=? 1024)
  | EvPrint _ => true
  | _ => false
  end.

(** A handler whose first piece is [c]. *)
Definition with_piece (c : bytes) (cs : list bytes) : ClientThread :=
  mkClient (c :: cs) false None true (lit "10.0.0.1") [].

(** From [st] to [st'] the handler has either gone on running with the
    connection as it was, or stopped with the connection closed by one more
    close, or was not running and has left the connection alone. *)
Definition orderly (st st' : ClientThread) : Prop :=
  close_budget st' = close_budget st /\
  (client_running st' = true ->
   client_running st = true /\ conn_closed st' = conn_closed st) /\
  (client_running st' = false ->
   conn_closed st' = true \/
   (client_running st = false /\ conn_closed st' = conn_closed st)).

Definition keeps_order {A} (m : M ClientThread A) : Prop :=
  forall st r st', m st = (r, st') -> orderly st st'.

(** A turn that returns has stopped the handler. *)
Definition stops (m : M ClientThread flow) : Prop :=
  forall st st', m st = (Ok Return, st') -> client_running st' = false.

(** ** Messages sent one after the other *)

(** The piece a peer writes for the message [m], a destination and a
    payload: the preamble and the frame, in one write. *)
Definition frame_piece (m : pystr * bytes) : option bytes :=
  match serialize_message (fst m) (mkMessage (Returns (snd m))) with
  | Returns enc => Some (_Preamble ++ enc)
  | Raises _ => None
  end.

(** What the registered endpoint answers to [m] and the handler writes back. *)
Definition reply (srv : TcpServer) (m : pystr * bytes) : option (outcome bytes) :=
  match dict_get (source_destination_dict srv) (fst m) with
  | Some ep =>
    match ep (snd m) with
    | Returns (Some r) => Some (serialize_message (fst m) r)
    | Returns None => None
    | Raises e => Some (Raises e)
    end
  | None => None
  end.

(** [m] has a payload and a registered destination whose endpoint takes it
    and answers nothing or a response that can be serialized. *)
Definition deliverable (srv : TcpServer) (m : pystr * bytes) : bool :=
  negb (pystr_eqb (fst m) (lit "__syscommand"))
  && negb (pystr_eqb (fst m) (lit "__handshake"))
  && match snd m with
     | [] => false
     | _ => true
     end
  && match dict_get (source_destination_dict srv) (fst m) with
     | Some _ =>
       match reply srv m with
       | Some (Raises _) => false
       | _ => true
       end
     | None => false
     end.

Definition endpoint_sends (ms : list (pystr * bytes)) : list event :=
  map (fun m => EvEndpointSend (fst m) (snd m)) ms.

Definition replies (srv : TcpServer) (ms : list (pystr * bytes)) : list event :=
  flat_map (fun m => match reply srv m with
                     | Some (Returns b) => [EvConnSend b]
                     | _ => []
                     end) ms.

(** ** The callback of a topic, message after message *)

(** [send] called once for each message, each call in its own
    surroundings. *)
Fixpoint send_all (calls : list (Subscriber.Net * message))
  : M Subscriber.RosSubscriber (list (option pystr)) :=
  match calls with
  | [] => ret []
  | (net, data) :: calls' =>
    r <- Subscriber.send net data ;;
    rs <- send_all calls' ;;
    ret (r :: rs)
  end.

(** Surroundings in which rospy is up and no socket call fails. *)
Definition clear (net : Subscriber.Net) : bool :=
  negb (Subscriber.is_shutdown net)
  && match Subscriber.net_socket net, Subscriber.net_connect net,
           Subscriber.net_send net with
     | None, None, None => true
     | _, _, _ => false
     end.

(** The line printed when the address of the peer is not known. *)
Definition no_address_line (st : Subscriber.RosSubscriber) : Subscriber.event :=
  Subscriber.PrintLine (lit "Can't send a message on topic " ++ Subscriber.topic st
                        ++ lit ", no defined unity IP!").

(** The channel after [create_new_connection] has found no address. *)
Definition without_address (st : Subscriber.RosSubscriber) : Subscriber.RosSubscriber :=
  if Subscriber.unity_ip_error_message_printed st then st
  else Subscriber.emit_ev (no_address_line st) (Subscriber.set_printed st).

(** The writes of the frames [bs] on the socket [s]. *)
Definition writes (s : Subscriber.socket_id) (bs : list bytes) : list Subscriber.event :=
  map (fun b => Subscriber.SockSend s b true) bs.
(** * Properties *)

(** ** The codecs *)

Lemma list_eqb_eq a b : list_eqb a b = true <-> a = b.
Proof.
  revert b; induction a as [|x a IH]; intros [|y b]; simpl; split; intro H;
    try reflexivity; try discriminate.
  - apply andb_true_iff in H as [H1 H2]. apply Z.eqb_eq in H1.
    apply IH in H2. congruence.
  - injection H as -> ->. rewrite Z.eqb_refl. simpl. now apply IH.
Qed.

Lemma unpack_pack n b : pack_u32 n = Returns b -> unpack_u32 b = Returns n.
Proof.
  unfold pack_u32. destruct (_ && _) eqn:E; [|discriminate].
  intros [= <-]. unfold le32, unpack_u32. f_equal.
  apply andb_true_iff in E as [E1 E2].
  apply Z.leb_le in E1. apply Z.ltb_lt in E2.
  Z.div_mod_to_equations. lia.
Qed.

Lemma pack_length n b : pack_u32 n = Returns b -> length b = 4%nat.
Proof.
  unfold pack_u32. destruct (_ && _); [|discriminate]. now intros [= <-].
Qed.

Ltac solve_bool :=
  unfold is_cont, is_surrogate;
  repeat rewrite ?andb_true_iff, ?andb_false_iff, ?negb_true_iff,
                 ?Z.leb_le, ?Z.ltb_lt, ?Z.leb_gt, ?Z.ltb_ge;
  lia.

(** Decide the condition of the conditional at the head of the goal. *)
Ltac step_if :=
  match goal with
  | |- (if ?c then _ else _) = _ =>
      first [ replace c with true by (symmetry; solve_bool)
            | replace c with false by (symmetry; solve_bool) ]
  end; cbv beta iota zeta.

Lemma utf8_decode_opt_cons b0 t0 :
  utf8_decode_opt (b0 :: t0) =
    if (0 <=? b0) && (b0 <? 128) then cons_cp b0 (utf8_decode_opt t0)
    else if (194 <=? b0) && (b0 <=? 223) then
      match t0 with
      | b1 :: t1 =>
        if is_cont b1
        then cons_cp ((b0 - 192) * 64 + (b1 - 128)) (utf8_decode_opt t1)
        else None
      | _ => None
      end
    else if (224 <=? b0) && (b0 <=? 239) then
      match t0 with
      | b1 :: b2 :: t2 =>
        let c := (b0 - 224) * 4096 + (b1 - 128) * 64 + (b2 - 128) in
        if is_cont b1 && is_cont b2 && (2048 <=? c) && negb (is_surrogate c)
        then cons_cp c (utf8_decode_opt t2)
        else None
      | _ => None
      end
    else if (240 <=? b0) && (b0 <=? 244) then
      match t0 with
      | b1 :: b2 :: b3 :: t3 =>
        let c := (b0 - 240) * 262144 + (b1 - 128) * 4096 + (b2 - 128) * 64 + (b3 - 128) in
        if is_cont b1 && is_cont b2 && is_cont b3 && (65536 <=? c) && (c <? 1114112)
        then cons_cp c (utf8_decode_opt t3)
        else None
      | _ => None
      end
    else None.
Proof. reflexivity. Qed.

Lemma utf8_decode_encode_cp_match c rest :
  match utf8_encode_cp c with
  | Some e => utf8_decode_opt (e ++ rest) = cons_cp c (utf8_decode_opt rest)
  | None => True
  end.
Proof.
  unfold utf8_encode_cp.
  destruct (Z.ltb_spec c 0); [exact I|].
  destruct (Z.ltb_spec c 128).
  { cbn [app]. rewrite utf8_decode_opt_cons. step_if. reflexivity. }
  destruct (Z.ltb_spec c 2048).
  { cbn [app]. rewrite utf8_decode_opt_cons.
    assert (2 <= c / 64 < 32) by (Z.div_mod_to_equations; lia).
    assert (0 <= c mod 64 < 64) by (Z.div_mod_to_equations; lia).
    assert (Hc : (192 + c / 64 - 192) * 64 + (128 + c mod 64 - 128) = c)
      by (Z.div_mod_to_equations; lia).
    do 3 step_if. now rewrite Hc. }
  destruct (Z.ltb_spec c 65536).
  { destruct (is_surrogate c) eqn:Es; [exact I|].
    cbn [app]. rewrite utf8_decode_opt_cons.
    assert (0 <= c / 4096 < 16) by (Z.div_mod_to_equations; lia).
    assert (0 <= (c / 64) mod 64 < 64) by (Z.div_mod_to_equations; lia).
    assert (0 <= c mod 64 < 64) by (Z.div_mod_to_equations; lia).
    assert (Hc : (224 + c / 4096 - 224) * 4096 + (128 + (c / 64) mod 64 - 128) * 64
                 + (128 + c mod 64 - 128) = c)
      by (Z.div_mod_to_equations; lia).
    do 3 step_if. rewrite Hc, Es.
    step_if. reflexivity. }
  destruct (Z.ltb_spec c 1114112); [|exact I].
  cbn [app]. rewrite utf8_decode_opt_cons.
  assert (0 <= c / 262144 < 5) by (Z.div_mod_to_equations; lia).
  assert (0 <= (c / 4096) mod 64 < 64) by (Z.div_mod_to_equations; lia).
  assert (0 <= (c / 64) mod 64 < 64) by (Z.div_mod_to_equations; lia).
  assert (0 <= c mod 64 < 64) by (Z.div_mod_to_equations; lia).
  assert (Hc : (240 + c / 262144 - 240) * 262144 + (128 + (c / 4096) mod 64 - 128) * 4096
               + (128 + (c / 64) mod 64 - 128) * 64 + (128 + c mod 64 - 128) = c)
    by (Z.div_mod_to_equations; lia).
  do 4 step_if. rewrite Hc.
  step_if. reflexivity.
Qed.

Lemma utf8_decode_encode_cp c e rest :
  utf8_encode_cp c = Some e ->
  utf8_decode_opt (e ++ rest) = cons_cp c (utf8_decode_opt rest).
Proof.
  intro E. pose proof (utf8_decode_encode_cp_match c rest) as H.
  now rewrite E in H.
Qed.

Lemma utf8_decode_encode_opt s e :
  utf8_encode_opt s = Some e -> utf8_decode_opt e = Some s.
Proof.
  revert e; induction s as [|c s IH]; simpl; intros e.
  - now intros [= <-].
  - destruct (utf8_encode_cp c) as [b|] eqn:Ec; [|discriminate].
    destruct (utf8_encode_opt s) as [bs|] eqn:Es; [|discriminate].
    intros [= <-]. rewrite (utf8_decode_encode_cp _ _ _ Ec), (IH _ eq_refl).
    reflexivity.
Qed.

Lemma utf8_decode_encode s e : utf8_encode s = Returns e -> utf8_decode e = Returns s.
Proof.
  unfold utf8_encode, utf8_decode.
  destruct (utf8_encode_opt s) eqn:E; [|discriminate].
  intros [= <-]. now rewrite (utf8_decode_encode_opt _ _ E).
Qed.

(** ** The monad *)

Lemma bind_ok {S A B} (m : M S A) (k : A -> M S B) st a st1 :
  m st = (Ok a, st1) -> bind m k st = k a st1.
Proof. unfold bind. now intros ->. Qed.

Lemma bind_exc {S A B} (m : M S A) (k : A -> M S B) st e st1 :
  m st = (Exc e, st1) -> bind m k st = (Exc e, st1).
Proof. unfold bind. now intros ->. Qed.

Lemma bind_ok_inv {S A B} (m : M S A) (k : A -> M S B) st b st' :
  bind m k st = (Ok b, st') ->
  exists a st1, m st = (Ok a, st1) /\ k a st1 = (Ok b, st').
Proof.
  unfold bind. destruct (m st) as [[a|e|] st1]; intro H; try discriminate.
  eauto.
Qed.

Lemma list_eqb_neq a b : a <> b -> list_eqb a b = false.
Proof.
  intro H. destruct (list_eqb a b) eqn:E; [|reflexivity].
  apply list_eqb_eq in E. contradiction.
Qed.

Lemma list_eqb_refl a : list_eqb a a = true.
Proof. now apply list_eqb_eq. Qed.

(** ** Reading from the socket *)

Lemma push_chunk_concat r cs : concat (push_chunk r cs) = r ++ concat cs.
Proof. destruct r; reflexivity. Qed.

Lemma push_chunk_nonempty r cs :
  Forall (fun c : bytes => c <> []) cs ->
  Forall (fun c : bytes => c <> []) (push_chunk r cs).
Proof.
  intro H. destruct r; simpl; [assumption|].
  constructor; [discriminate|assumption].
Qed.

Lemma take_chunk_concat n p :
  concat p = fst (take_chunk n p) ++ concat (snd (take_chunk n p)).
Proof.
  unfold take_chunk. destruct n as [|n]; [reflexivity|].
  destruct p as [|c cs]; [reflexivity|].
  cbn [fst snd]. rewrite push_chunk_concat, app_assoc, firstn_skipn.
  reflexivity.
Qed.

Lemma reads_refl st : reads st st [].
Proof.
  repeat split. exists []. now rewrite app_nil_r.
Qed.

Lemma quiet_app a b : quiet (a ++ b) = quiet a && quiet b.
Proof. apply forallb_app. Qed.

Lemma received_app a b : received (a ++ b) = received a ++ received b.
Proof. apply flat_map_app. Qed.

Lemma reads_trans a b c g1 g2 :
  reads a b g1 -> reads b c g2 -> reads a c (g1 ++ g2).
Proof.
  intros (H1 & H2 & H3 & H4 & H5 & e1 & T1 & Q1 & R1)
         (K1 & K2 & K3 & K4 & K5 & e2 & T2 & Q2 & R2).
  repeat split; try congruence.
  - rewrite H5, K5. now rewrite app_assoc.
  - exists (e1 ++ e2). rewrite T2, T1, app_assoc, quiet_app, received_app.
    rewrite Q1, Q2, R1, R2. auto.
Qed.

Lemma reads_emit st e :
  is_read_event e = true -> received [e] = [] ->
  reads st (emit_ev e st) [].
Proof.
  intros H R. repeat split.
  exists [e]. simpl. rewrite H. auto.
Qed.

Lemma recv_eq n st :
  recv n st =
    if conn_closed st then (Exc os_error, emit_ev (EvRecvError n) st)
    else if n <? 0 then (Exc value_error, emit_ev (EvRecvError n) st)
    else
      let tc := take_chunk (Z.to_nat n) (conn_pending st) in
      (Ok (fst tc), emit_ev (EvRecv n (fst tc)) (set_pending (snd tc) st)).
Proof.
  unfold recv. destruct (take_chunk (Z.to_nat n) (conn_pending st)).
  reflexivity.
Qed.

Lemma reading_recv n : reading (recv n).
Proof.
  intros st r st'. rewrite recv_eq.
  destruct (conn_closed st) eqn:Ec.
  { intros [= <- <-]. exists []. now apply reads_emit. }
  destruct (n <? 0).
  { intros [= <- <-]. exists []. now apply reads_emit. }
  cbv zeta. intros [= <- <-].
  exists (fst (take_chunk (Z.to_nat n) (conn_pending st))).
  repeat split.
  - unfold stream. cbn. apply take_chunk_concat.
  - eexists [_]. cbn. rewrite app_nil_r. auto.
Qed.

Lemma reading_ret {A} (a : A) : reading (ret a).
Proof. intros st r st' [= <- <-]. exists []. apply reads_refl. Qed.

Lemma reading_raise {A} e : reading (@raise _ A e).
Proof. intros st r st' [= <- <-]. exists []. apply reads_refl. Qed.

Lemma reading_starve {A} : reading (@starve _ A).
Proof. intros st r st' [= <- <-]. exists []. apply reads_refl. Qed.

Lemma reading_lift {A} (o : outcome A) : reading (lift o).
Proof.
  intros st r st'. unfold lift. destruct o; intros [= <- <-];
    exists []; apply reads_refl.
Qed.

Lemma reading_print t : reading (print t).
Proof.
  intros st r st' [= <- <-]. exists []. now apply reads_emit.
Qed.

Lemma reading_bind {A B} (m : M ClientThread A) (k : A -> M ClientThread B) :
  reading m -> (forall a, reading (k a)) -> reading (bind m k).
Proof.
  intros Hm Hk st r st'. unfold bind.
  destruct (m st) as [[a|e|] st1] eqn:E.
  - intro H. destruct (Hm _ _ _ E) as [g1 R1].
    destruct (Hk a _ _ _ H) as [g2 R2].
    exists (g1 ++ g2). eapply reads_trans; eassumption.
  - intros [= <- <-]. eauto.
  - intros [= <- <-]. eauto.
Qed.

Lemma reading_try_except {A} (m : M ClientThread A) h :
  reading m -> (forall e, reading (h e)) -> reading (try_except m h).
Proof.
  intros Hm Hh st r st'. unfold try_except.
  destruct (m st) as [[a|e|] st1] eqn:E.
  - intros [= <- <-]. eauto.
  - intro H. destruct (Hm _ _ _ E) as [g1 R1].
    destruct (Hh e _ _ _ H) as [g2 R2].
    exists (g1 ++ g2). eapply reads_trans; eassumption.
  - intros [= <- <-]. eauto.
Qed.

Create HintDb reading.

#[local] Hint Resolve reading_recv reading_ret reading_raise reading_starve
  reading_lift reading_print : reading.

Ltac reading_auto :=
  repeat first
    [ apply reading_bind; [|intro]
    | apply reading_try_except; [|intro]
    | solve [auto with reading]
    | match goal with
      | |- reading (match ?x with _ => _ end) => destruct x
      | |- reading (if ?x then _ else _) => destruct x
      end ].

Lemma reading_preamble_loop fuel : forall remaining data,
  reading (preamble_loop fuel remaining data).
Proof.
  induction fuel as [|fuel IH]; intros remaining data; simpl.
  - reading_auto.
  - destruct (remaining >? 0); [|reading_auto].
    apply reading_bind; [reading_auto|]. intros [|b raw]; [reading_auto|].
    apply IH.
Qed.

Lemma reading_validate_preamble : reading validate_preamble.
Proof.
  unfold validate_preamble. apply reading_try_except.
  - apply reading_bind; [apply reading_preamble_loop|]. intro. reading_auto.
  - intro. reading_auto.
Qed.

Lemma reading_read_int32 : reading read_int32.
Proof. unfold read_int32. reading_auto. Qed.

Lemma reading_read_string : reading read_string.
Proof.
  unfold read_string. apply reading_try_except; [|intro; reading_auto].
  apply reading_bind; [apply reading_read_int32|]. intro. reading_auto.
Qed.

Lemma reading_payload_loop fuel : forall size data,
  reading (payload_loop fuel size data).
Proof.
  induction fuel as [|fuel IH]; intros size data; simpl.
  - reading_auto.
  - destruct (len data <? size); [|reading_auto].
    apply reading_bind; [reading_auto|]. intros [|b raw]; [reading_auto|].
    apply IH.
Qed.

Lemma reading_read_payload size : reading (read_payload size).
Proof.
  destruct size as [n|]; unfold read_payload; [|reading_auto].
  intros st r st' H. exact (reading_payload_loop _ _ _ _ _ _ H).
Qed.

Lemma reading_read_fields : reading read_fields.
Proof.
  unfold read_fields.
  apply reading_bind; [apply reading_read_string|]. intro.
  apply reading_bind; [apply reading_read_int32|]. intro.
  apply reading_bind; [apply reading_read_payload|]. intro. reading_auto.
Qed.

Lemma frame_read_reads st destination size data st' :
  frame_read st destination size data st' -> exists got, reads st st' got.
Proof.
  intros (st1 & Hv & Hf).
  destruct (reading_validate_preamble _ _ _ Hv) as [g1 R1].
  destruct (reading_read_fields _ _ _ Hf) as [g2 R2].
  exists (g1 ++ g2). eapply reads_trans; eassumption.
Qed.

(** ** Reads that deliver the stream in pieces *)

Lemma len_app {A} (a b : list A) : len (a ++ b) = len a + len b.
Proof. unfold len. rewrite length_app. lia. Qed.

(** On an open connection with bytes left, [recv(n)] for a positive [n]
    returns between one and [n] bytes from the front of the stream. *)
Lemma recv_stream n st :
  conn_closed st = false -> nonempty_chunks st -> 0 < n -> stream st <> [] ->
  exists got st',
    recv n st = (Ok got, st') /\ got <> [] /\ len got <= n /\
    nonempty_chunks st' /\ reads st st' got.
Proof.
  intros Hc Hne Hn Hs.
  rewrite recv_eq, Hc. destruct (Z.ltb_spec n 0); [lia|]. cbv zeta.
  pose proof (take_chunk_concat (Z.to_nat n) (conn_pending st)) as Hcat.
  set (tc := take_chunk (Z.to_nat n) (conn_pending st)) in *.
  assert (Htc : fst tc <> [] /\ (length (fst tc) <= Z.to_nat n)%nat /\
                Forall (fun c : bytes => c <> []) (snd tc)).
  { subst tc. unfold take_chunk.
    destruct (Z.to_nat n) as [|k] eqn:Ek; [lia|].
    unfold stream, nonempty_chunks in *.
    destruct (conn_pending st) as [|c cs]; [now destruct Hs|].
    inversion Hne as [|? ? Hc0 Hcs]; subst. cbn [fst snd].
    split; [destruct c; [contradiction|simpl; discriminate]|].
    split; [rewrite length_firstn; lia|].
    now apply push_chunk_nonempty. }
  destruct Htc as (Hg & Hl & Hn').
  eexists; eexists; split; [reflexivity|].
  split; [exact Hg|]. split; [unfold len; lia|]. split; [exact Hn'|].
  repeat split.
  - exact Hcat.
  - eexists [_]. cbn. rewrite app_nil_r. auto.
Qed.

Lemma reads_closed st st' got : reads st st' got -> conn_closed st' = conn_closed st.
Proof. now intros (H & _). Qed.

Lemma reads_running st st' got :
  reads st st' got -> client_running st' = client_running st.
Proof. now intros (_ & _ & H & _). Qed.

Lemma reads_failure st st' got :
  reads st st' got -> conn_send_failure st' = conn_send_failure st.
Proof. now intros (_ & H & _). Qed.

Lemma reads_ip st st' got : reads st st' got -> incoming_ip st' = incoming_ip st.
Proof. now intros (_ & _ & _ & H & _). Qed.

Lemma reads_stream st st' got : reads st st' got -> stream st = got ++ stream st'.
Proof. now intros (_ & _ & _ & _ & H & _). Qed.

Lemma firstn_app_front {A} n (a b : list A) :
  (length a <= n)%nat -> firstn n (a ++ b) = a ++ firstn (n - length a) b.
Proof.
  intro H. rewrite firstn_app. f_equal. now apply firstn_all2.
Qed.

(** The preamble loop gathers exactly the next [remaining] bytes of the
    stream, in however many pieces they arrive. *)
Lemma preamble_loop_stream fuel : forall remaining data st,
  conn_closed st = false -> nonempty_chunks st ->
  0 <= remaining -> (Z.to_nat remaining <= fuel)%nat ->
  (Z.to_nat remaining <= length (stream st))%nat ->
  exists st',
    preamble_loop fuel remaining data st
      = (Ok (data ++ firstn (Z.to_nat remaining) (stream st)), st') /\
    nonempty_chunks st' /\
    reads st st' (firstn (Z.to_nat remaining) (stream st)).
Proof.
  induction fuel as [|fuel IH]; intros remaining data st Hc Hne H0 Hf Hl.
  - assert (remaining = 0) as -> by lia. simpl.
    exists st. rewrite app_nil_r. repeat split; auto. apply reads_refl.
  - cbn [preamble_loop]. destruct (Z.gtb_spec remaining 0) as [Hpos|Hz].
    2:{ assert (remaining = 0) as -> by lia. simpl.
        exists st. rewrite app_nil_r. repeat split; auto. apply reads_refl. }
    assert (Hs : stream st <> []).
    { intro E. rewrite E in Hl. simpl in Hl. lia. }
    destruct (recv_stream remaining st Hc Hne ltac:(lia) Hs)
      as (got & st1 & Hr & Hg & Hlen & Hne1 & R).
    rewrite (bind_ok _ _ _ _ _ Hr).
    destruct got as [|g0 got']; [contradiction|].
    set (got := g0 :: got') in *.
    pose proof (reads_stream _ _ _ R) as Hst.
    assert (Hc1 : conn_closed st1 = false) by (rewrite (reads_closed _ _ _ R); exact Hc).
    assert (Hgl : (length got <= Z.to_nat remaining)%nat) by (unfold len in Hlen; lia).
    assert (Hg1 : (0 < length got)%nat) by (subst got; simpl; lia).
    destruct (IH (remaining - len got) (data ++ got) st1 Hc1 Hne1)
      as (st' & Hloop & Hne' & R').
    + lia.
    + unfold len. lia.
    + rewrite Hst, length_app in Hl. unfold len. lia.
    + exists st'. rewrite Hloop.
      assert (E : firstn (Z.to_nat remaining) (stream st)
                  = got ++ firstn (Z.to_nat (remaining - len got)) (stream st1)).
      { rewrite Hst, firstn_app_front by exact Hgl.
        do 2 f_equal. unfold len. lia. }
      rewrite E. split; [now rewrite app_assoc|]. split; [assumption|].
      eapply reads_trans; eassumption.
Qed.

(** The payload loop gathers exactly the bytes still missing, in however
    many pieces they arrive and whatever [grab] cuts them into. *)
Lemma payload_loop_stream fuel : forall size data st,
  conn_closed st = false -> nonempty_chunks st ->
  (length (stream st) < fuel)%nat ->
  size - len data <= len (stream st) ->
  exists st',
    payload_loop fuel size data st
      = (Ok (data ++ firstn (Z.to_nat (size - len data)) (stream st)), st') /\
    nonempty_chunks st' /\
    reads st st' (firstn (Z.to_nat (size - len data)) (stream st)).
Proof.
  induction fuel as [|fuel IH]; intros size data st Hc Hne Hf Hl; [lia|].
  cbn [payload_loop]. destruct (Z.ltb_spec (len data) size) as [Hlt|Hge].
  2:{ replace (Z.to_nat (size - len data)) with 0%nat by lia. simpl.
      exists st. rewrite app_nil_r. repeat split; auto. apply reads_refl. }
  set (grab := if size - len data >? 1024 then 1024 else size - len data).
  assert (Hgrab : 0 < grab <= size - len data).
  { subst grab. destruct (Z.gtb_spec (size - len data) 1024); lia. }
  assert (Hs : stream st <> []).
  { intro E. rewrite E in Hl. unfold len in Hl, Hlt. simpl in Hl. lia. }
  destruct (recv_stream grab st Hc Hne ltac:(lia) Hs)
    as (got & st1 & Hr & Hg & Hlen & Hne1 & R).
  rewrite (bind_ok _ _ _ _ _ Hr).
  destruct got as [|g0 got']; [contradiction|].
  set (got := g0 :: got') in *.
  pose proof (reads_stream _ _ _ R) as Hst.
  assert (Hc1 : conn_closed st1 = false) by (rewrite (reads_closed _ _ _ R); exact Hc).
  assert (Hgl : (0 < length got <= Z.to_nat (size - len data))%nat).
  { unfold len in Hlen. subst got. simpl length in *. lia. }
  assert (Hlen1 : length (stream st) = (length got + length (stream st1))%nat)
    by (rewrite Hst; apply length_app).
  destruct (IH size (data ++ got) st1 Hc1 Hne1) as (st' & Hloop & Hne' & R').
  - lia.
  - rewrite len_app. unfold len in *. lia.
  - exists st'. rewrite Hloop.
    assert (E : firstn (Z.to_nat (size - len data)) (stream st)
                = got ++ firstn (Z.to_nat (size - len (data ++ got))) (stream st1)).
    { rewrite Hst, firstn_app_front by lia.
      do 2 f_equal. rewrite len_app. unfold len. lia. }
    rewrite E. split; [now rewrite app_assoc|]. split; [assumption|].
    eapply reads_trans; eassumption.
Qed.

(** ** One turn of the loop of [run] *)

Lemma run_returns srv st st' :
  client_running st = true ->
  run_iteration srv st = (Ok Return, st') -> run srv st = (Ok tt, st').
Proof.
  intros Hr H. unfold run. cbn [run_loop]. rewrite Hr.
  now rewrite (bind_ok _ _ _ _ _ H).
Qed.

Lemma run_raises srv st e st' :
  client_running st = true ->
  run_iteration srv st = (Exc e, st') -> run srv st = (Exc e, st').
Proof.
  intros Hr H. unfold run. cbn [run_loop]. rewrite Hr.
  now rewrite (bind_exc _ _ _ _ _ H).
Qed.

Lemma run_iteration_invalid srv st st1 :
  validate_preamble st = (Ok false, st1) ->
  run_iteration srv st = invalid_preamble st1.
Proof.
  intro H. unfold run_iteration. now rewrite (bind_ok _ _ _ _ _ H).
Qed.

Lemma run_iteration_frame srv st destination size data st' :
  frame_read st destination size data st' ->
  run_iteration srv st =
    match data with
    | [] => no_data size st'
    | _ => dispatch srv destination data st'
    end.
Proof.
  intros (st1 & Hv & Hf). unfold run_iteration.
  rewrite (bind_ok _ _ _ _ _ Hv). cbn [negb].
  unfold read_fields in Hf.
  apply bind_ok_inv in Hf as (d & s2 & Hd & Hf).
  apply bind_ok_inv in Hf as (sz & s3 & Hs & Hf).
  apply bind_ok_inv in Hf as (dat & s4 & Hp & Hf).
  injection Hf as -> -> -> ->.
  rewrite (bind_ok _ _ _ _ _ Hd), (bind_ok _ _ _ _ _ Hs), (bind_ok _ _ _ _ _ Hp).
  now destruct data.
Qed.

Lemma shutdown_running st :
  client_running st = true -> shutdown_client st = (Ok tt, closed_client st).
Proof. intro H. unfold shutdown_client. now rewrite H. Qed.

Lemma shutdown_stopped st :
  client_running st = false -> shutdown_client st = (Ok tt, st).
Proof. intro H. unfold shutdown_client. now rewrite H. Qed.

Lemma validate_preamble_stream st :
  conn_closed st = false -> nonempty_chunks st ->
  (4 <= length (stream st))%nat ->
  exists st1,
    validate_preamble st
      = (Ok (bytes_eqb (firstn 4 (stream st)) _Preamble), st1) /\
    nonempty_chunks st1 /\ reads st st1 (firstn 4 (stream st)).
Proof.
  intros Hc Hne Hl.
  destruct (preamble_loop_stream (length _Preamble) (len _Preamble) [] st Hc Hne)
    as (st1 & Hloop & Hne1 & R); try (cbn; lia).
  change (Z.to_nat (len _Preamble)) with 4%nat in *. cbn [app] in Hloop.
  exists st1. split; [|split; assumption].
  unfold validate_preamble, try_except.
  rewrite (bind_ok _ _ _ _ _ Hloop).
  now destruct (bytes_eqb (firstn 4 (stream st)) _Preamble).
Qed.

(** ** Calls of [shutdown_client] in a row *)

Lemma shutdown_times_stopped n : forall st,
  client_running st = false -> shutdown_times n st = st.
Proof.
  induction n as [|n IH]; intros st H; [reflexivity|].
  cbn [shutdown_times]. rewrite (shutdown_stopped _ H). now apply IH.
Qed.

Lemma close_count_app a b : close_count (a ++ b) = (close_count a + close_count b)%nat.
Proof. unfold close_count. now rewrite filter_app, length_app. Qed.

(** ** Rejection of a connection that does not open with the preamble *)

(** C5. When the first four bytes of the stream are not [FE ED F0 0D], in
    however many pieces they arrive, [run] returns with the connection
    closed; the handler has read those four bytes and nothing else, has
    dispatched nothing, and its last two acts are the message and the
    close. *)
Theorem preamble_rejection srv st :
  client_running st = true -> conn_closed st = false -> nonempty_chunks st ->
  (4 <= length (stream st))%nat -> firstn 4 (stream st) <> _Preamble ->
  exists st' evs,
    run srv st = (Ok tt, st') /\
    conn_closed st' = true /\ client_running st' = false /\
    stream st = firstn 4 (stream st) ++ stream st' /\
    trace st' = trace st ++ evs
                ++ [EvPrint (lit "Invalid preamble from connection, closing connection!");
                    EvClose] /\
    quiet evs = true /\ received evs = firstn 4 (stream st).
Proof.
  intros Hr Hc Hne Hl Hbad.
  destruct (validate_preamble_stream st Hc Hne Hl) as (st1 & Hv & _ & R).
  unfold bytes_eqb in Hv. rewrite (list_eqb_neq _ _ Hbad) in Hv.
  pose proof (run_iteration_invalid srv _ _ Hv) as Hi.
  assert (Hr1 : client_running st1 = true) by (rewrite (reads_running _ _ _ R); exact Hr).
  unfold invalid_preamble in Hi.
  set (text := lit "Invalid preamble from connection, closing connection!") in *.
  assert (Hi' : run_iteration srv st = (Ok Return, closed_client (emit_ev (EvPrint text) st1))).
  { rewrite Hi. unfold bind, print, emit, ret.
    rewrite shutdown_running by exact Hr1. reflexivity. }
  destruct R as (_ & _ & _ & _ & Hst & evs & T & Q & Rv).
  exists (closed_client (emit_ev (EvPrint text) st1)), evs.
  split; [exact (run_returns _ _ _ Hr Hi')|].
  repeat split; try assumption.
  cbn [closed_client emit_ev trace]. rewrite T, <- !app_assoc. reflexivity.
Qed.

Lemma preamble_rejection_witness :
  exists st' evs,
    run Examples.server (Examples.client [[254; 237]; [240; 14; 7]]) = (Ok tt, st') /\
    conn_closed st' = true /\ client_running st' = false /\
    [254; 237; 240; 14; 7] = [254; 237; 240; 14] ++ stream st' /\
    trace st' = [] ++ evs
                ++ [EvPrint (lit "Invalid preamble from connection, closing connection!");
                    EvClose] /\
    quiet evs = true /\ received evs = [254; 237; 240; 14].
Proof.
  apply (preamble_rejection Examples.server
           (Examples.client [[254; 237]; [240; 14; 7]])).
  - reflexivity.
  - reflexivity.
  - repeat constructor; discriminate.
  - cbn. lia.
  - cbn. discriminate.
Defined.

(** ** Dispatch *)

Lemma validate_preamble_true_open st st1 :
  validate_preamble st = (Ok true, st1) -> conn_closed st = false.
Proof.
  destruct (conn_closed st) eqn:E; [|reflexivity].
  unfold validate_preamble, try_except. cbn [preamble_loop length _Preamble].
  change (len _Preamble >? 0) with true. cbv iota.
  unfold bind at 1 2. rewrite recv_eq, E. discriminate.
Qed.

(** What a frame that has been read leaves of the handler's state. *)
Lemma frame_read_state st destination size data st' :
  frame_read st destination size data st' ->
  conn_closed st' = false /\
  client_running st' = client_running st /\
  conn_send_failure st' = conn_send_failure st /\
  incoming_ip st' = incoming_ip st.
Proof.
  intro H. destruct (frame_read_reads _ _ _ _ _ H) as [got R].
  destruct H as (st1 & Hv & _).
  rewrite (reads_closed _ _ _ R), (validate_preamble_true_open _ _ Hv).
  rewrite (reads_running _ _ _ R), (reads_failure _ _ _ R), (reads_ip _ _ _ R).
  auto.
Qed.

Lemma dispatch_registered srv d ep data st :
  d <> lit "__syscommand" -> d <> lit "__handshake" ->
  dict_get (source_destination_dict srv) d = Some ep ->
  dispatch srv (Some d) data st = dispatch_endpoint d ep data st.
Proof.
  intros H1 H2 H3. unfold dispatch, is_destination, pystr_eqb, lookup_destination.
  now rewrite (list_eqb_neq _ _ H1), (list_eqb_neq _ _ H2), H3.
Qed.

(** C6. A frame has been read for a registered endpoint.  When
    [Endpoint.send] raises, or the serialization of its reply raises, or the
    write of the reply raises, the exception is printed, the connection is
    closed and [run] returns normally: the endpoint has been called once, no
    reply has been written, and nothing follows the close. *)
Theorem endpoint_exception_terminates srv st d size data st' ep e :
  client_running st = true ->
  frame_read st (Some d) size data st' -> data <> [] ->
  d <> lit "__syscommand" -> d <> lit "__handshake" ->
  dict_get (source_destination_dict srv) d = Some ep ->
  let logged := EvPrint (lit "Exception Raised: " ++ exn_text e) in
  (ep data = Raises e ->
   run srv st
     = (Ok tt, closed_client (emit_ev logged (emit_ev (EvEndpointSend d data) st')))) /\
  (forall r, ep data = Returns (Some r) -> serialize_message d r = Raises e ->
   run srv st
     = (Ok tt, closed_client (emit_ev logged (emit_ev (EvEndpointSend d data) st')))) /\
  (forall r b, ep data = Returns (Some r) -> serialize_message d r = Returns b ->
   conn_send_failure st = Some e ->
   run srv st
     = (Ok tt, closed_client (emit_ev logged (emit_ev (EvConnSendError b)
                                (emit_ev (EvEndpointSend d data) st'))))).
Proof.
  intros Hr Hf Hd H1 H2 Hep logged.
  destruct (frame_read_state _ _ _ _ _ Hf) as (Hc' & Hr' & Hs' & _).
  rewrite Hr in Hr'.
  pose proof (run_iteration_frame srv _ _ _ _ _ Hf) as Hi.
  destruct data as [|b0 data0]; [contradiction|].
  rewrite (dispatch_registered _ _ _ _ _ H1 H2 Hep) in Hi.
  set (data := b0 :: data0) in *.
  repeat split.
  - intro He. apply (run_returns _ _ _ Hr). rewrite Hi.
    cbv beta iota delta [dispatch_endpoint try_except bind emit lift print ret].
    rewrite He. cbv beta iota. rewrite shutdown_running by exact Hr'. reflexivity.
  - intros r He Hse. apply (run_returns _ _ _ Hr). rewrite Hi.
    cbv beta iota delta [dispatch_endpoint try_except bind emit lift print ret].
    rewrite He. cbv beta iota. rewrite Hse. cbv beta iota.
    rewrite shutdown_running by exact Hr'. reflexivity.
  - intros r b He Hse Hfail. apply (run_returns _ _ _ Hr). rewrite Hi.
    cbv beta iota delta [dispatch_endpoint try_except bind emit lift print ret conn_send].
    rewrite He. cbv beta iota. rewrite Hse. cbv beta iota.
    cbn [conn_closed emit_ev conn_send_failure].
    rewrite Hc', Hs', Hfail. cbv beta iota.
    rewrite shutdown_running by exact Hr'. reflexivity.
Qed.

Lemma frame_read_eval st destination size data :
  fst (validate_preamble st) = Ok true ->
  fst (read_fields (snd (validate_preamble st))) = Ok (destination, size, data) ->
  frame_read st destination size data (after_frame st).
Proof.
  intros H1 H2. exists (snd (validate_preamble st)). unfold after_frame.
  split.
  - rewrite <- H1. apply surjective_pairing.
  - rewrite <- H2. apply surjective_pairing.
Qed.

Ltac differ := let H := fresh in intro H; vm_compute in H; discriminate H.

Lemma endpoint_exception_terminates_witness :
  let st := Examples.client [Examples.frame (lit "f") [7]] in
  let e := Exn "ROSException" (lit "publish failed") in
  run Examples.server st
  = (Ok tt, closed_client
              (emit_ev (EvPrint (lit "Exception Raised: " ++ exn_text e))
                 (emit_ev (EvEndpointSend (lit "f") [7]) (after_frame st)))).
Proof.
  intros st e.
  refine (proj1 (endpoint_exception_terminates Examples.server st (lit "f")
                   (Some 1) [7] (after_frame st) Examples.failing e
                   eq_refl _ _ _ _ eq_refl) eq_refl).
  - apply frame_read_eval; vm_compute; reflexivity.
  - differ.
  - differ.
  - differ.
Defined.

(** ** A destination that is not registered *)

Lemma contains_here a x b : contains (a ++ x ++ b) x.
Proof. now exists a, b. Qed.

Lemma contains_app_r a b x : contains b x -> contains (a ++ b) x.
Proof.
  intros (p & q & ->). exists (a ++ p), q. now rewrite <- app_assoc.
Qed.

Lemma contains_app_l a b x : contains a x -> contains (a ++ b) x.
Proof.
  intros (p & q & ->). exists p, (q ++ b). now rewrite <- !app_assoc.
Qed.

Lemma join_contains sep l x : In x l -> contains (join sep l) x.
Proof.
  induction l as [|y l IH]; intros H; [contradiction|].
  destruct H as [-> | H].
  - destruct l; cbn [join].
    + exists [], []. now rewrite app_nil_r.
    + exists [], (sep ++ join sep (p :: l)). reflexivity.
  - destruct l as [|z l]; [contradiction|]. cbn [join].
    apply contains_app_r, contains_app_r. now apply IH.
Qed.

Lemma unknown_destination_msg_contains srv destination :
  let text := unknown_destination_msg srv destination in
  contains text (fmt_opt_str destination) /\
  forall k, In k (dict_keys (source_destination_dict srv)) ->
            contains text (py_repr srv k).
Proof.
  unfold unknown_destination_msg, str_dict_keys. split.
  - apply contains_here.
  - intros k Hk. do 3 apply contains_app_r. apply contains_app_l.
    apply contains_app_r, contains_app_l.
    apply join_contains. now apply in_map.
Qed.

(** C3, as amended.  A frame with a payload that is not empty has been read,
    and its destination is neither reserved nor a key of the registry.  Then
    the handler closes the connection, hands the error sink a text that
    contains the requested name and the [repr] of every registered name, and
    [run] ends by raising [TopicOrServiceNameDoesNotExistError] with that
    text. *)
Theorem unknown_destination_raises srv st destination size data st' :
  client_running st = true ->
  frame_read st destination size data st' -> data <> [] ->
  is_destination destination (lit "__syscommand") = false ->
  is_destination destination (lit "__handshake") = false ->
  lookup_destination srv destination = None ->
  send_unity_error srv (unknown_destination_msg srv destination) = Returns tt ->
  let text := unknown_destination_msg srv destination in
  run srv st
    = (Exc (TopicOrServiceNameDoesNotExistError text),
       emit_ev (EvUnityError text) (closed_client st')) /\
  contains text (fmt_opt_str destination) /\
  (forall k, In k (dict_keys (source_destination_dict srv)) ->
             contains text (py_repr srv k)).
Proof.
  intros Hr Hf Hd H1 H2 Hl Hs text.
  split; [|apply unknown_destination_msg_contains]. subst text.
  destruct (frame_read_state _ _ _ _ _ Hf) as (_ & Hr' & _).
  rewrite Hr in Hr'.
  pose proof (run_iteration_frame srv _ _ _ _ _ Hf) as Hi.
  destruct data as [|b0 data0]; [contradiction|].
  apply (run_raises _ _ _ _ Hr). rewrite Hi.
  unfold dispatch. rewrite H1, H2, Hl.
  cbv beta iota zeta delta [dispatch_unknown bind emit lift raise].
  rewrite shutdown_running by exact Hr'. cbv beta iota. rewrite Hs. reflexivity.
Qed.

Lemma unknown_destination_raises_witness :
  let st := Examples.client [Examples.frame (lit "c") [7]] in
  let text := unknown_destination_msg Examples.server (Some (lit "c")) in
  run Examples.server st
    = (Exc (TopicOrServiceNameDoesNotExistError text),
       emit_ev (EvUnityError text) (closed_client (after_frame st))) /\
  contains text (lit "c") /\
  (forall k, In k [lit "a"; lit "b"; lit "f"] ->
             contains text (Examples.quote k)).
Proof.
  intros st text.
  apply (unknown_destination_raises Examples.server st (Some (lit "c"))
           (Some 1) [7] (after_frame st)).
  - reflexivity.
  - apply frame_read_eval; vm_compute; reflexivity.
  - differ.
  - reflexivity.
  - reflexivity.
  - reflexivity.
  - reflexivity.
Defined.

(** C3, the claim as stated fails: on a frame for the unregistered
    destination [c], [run] does not return, it raises; and on such a frame
    with an empty payload nothing reaches the error sink. *)
Lemma unknown_destination_propagates :
  fst (run Examples.server (Examples.client [Examples.frame (lit "c") [7]]))
  = Exc (TopicOrServiceNameDoesNotExistError
           (lit "Topic/service destination 'c' is not defined! Known topics are: dict_keys(['a', 'b', 'f']) "))
  /\
  existsb is_unity_error
    (trace (snd (run Examples.server (Examples.client [Examples.frame (lit "c") []]))))
  = false.
Proof. split; vm_compute; reflexivity. Qed.

(** ** The handshake *)

Lemma dispatch_handshake_eq srv data st :
  dispatch srv (Some (lit "__handshake")) data st = dispatch_handshake srv data st.
Proof. reflexivity. Qed.

(** C8, as amended.  A frame for [__handshake] with a payload that is not
    empty has been read.  When the handshake returns a response, whatever it
    is, and the response is serialized and written without an exception, the
    bytes written are the outbound encoding of the response under the name
    [__handshake], the connection is closed next and [run] returns.  Whatever
    the handshake does, [run] ends without another read on the connection. *)
Theorem handshake_single_shot srv st size data st' :
  client_running st = true ->
  frame_read st (Some (lit "__handshake")) size data st' -> data <> [] ->
  let ip := incoming_ip st in
  (forall r b,
     handshake srv ip data = Returns r ->
     serialize_message (lit "__handshake") r = Returns b ->
     conn_send_failure st = None ->
     run srv st
       = (Ok tt, closed_client (emit_ev (EvConnSend b)
                                  (emit_ev (EvHandshake ip data) st')))) /\
  (exists r st'' evs,
     run srv st = (r, st'') /\ r <> OutOfFuel /\
     trace st'' = trace st' ++ EvHandshake ip data :: evs /\
     existsb is_recv evs = false /\
     conn_pending st'' = conn_pending st').
Proof.
  intros Hr Hf Hd ip.
  destruct (frame_read_state _ _ _ _ _ Hf) as (Hc' & Hr' & Hs' & Hip).
  rewrite Hr in Hr'.
  pose proof (run_iteration_frame srv _ _ _ _ _ Hf) as Hi.
  destruct data as [|b0 data0]; [contradiction|].
  rewrite dispatch_handshake_eq in Hi.
  set (data := b0 :: data0) in *.
  unfold dispatch_handshake in Hi.
  cbv beta iota delta [bind emit lift ret] in Hi.
  rewrite Hip in Hi. fold ip in Hi.
  assert (Hsend : forall b,
            conn_send b (emit_ev (EvHandshake ip data) st')
            = match conn_send_failure st with
              | Some e => (Exc e, emit_ev (EvConnSendError b)
                                    (emit_ev (EvHandshake ip data) st'))
              | None => (Ok tt, emit_ev (EvConnSend b)
                                  (emit_ev (EvHandshake ip data) st'))
              end).
  { intro b. unfold conn_send. cbn [conn_closed conn_send_failure emit_ev].
    now rewrite Hc', Hs'. }
  split.
  - intros r b Hh Hse Hok. apply (run_returns _ _ _ Hr).
    rewrite Hi, Hh. cbv beta iota. rewrite Hse. cbv beta iota.
    rewrite Hsend, Hok. rewrite shutdown_running by exact Hr'. reflexivity.
  - destruct (handshake srv ip data) as [r|e] eqn:Hh; cbv beta iota in Hi.
    2:{ exists (Exc e), (emit_ev (EvHandshake ip data) st'), [].
        split; [exact (run_raises _ _ _ _ Hr Hi)|]. repeat split. discriminate. }
    destruct (serialize_message (lit "__handshake") r) as [b|e] eqn:Hse;
      cbv beta iota in Hi.
    2:{ exists (Exc e), (emit_ev (EvHandshake ip data) st'), [].
        split; [exact (run_raises _ _ _ _ Hr Hi)|]. repeat split. discriminate. }
    rewrite Hsend in Hi.
    destruct (conn_send_failure st) as [e|] eqn:Hfail.
    { exists (Exc e),
        (emit_ev (EvConnSendError b) (emit_ev (EvHandshake ip data) st')),
        [EvConnSendError b].
      split; [exact (run_raises _ _ _ _ Hr Hi)|]. repeat split; [discriminate|].
      cbn [trace emit_ev]. now rewrite <- app_assoc. }
    rewrite shutdown_running in Hi by exact Hr'.
    exists (Ok tt),
      (closed_client (emit_ev (EvConnSend b) (emit_ev (EvHandshake ip data) st'))),
      [EvConnSend b; EvClose].
    split; [exact (run_returns _ _ _ Hr Hi)|]. repeat split; [discriminate|].
    cbn [trace emit_ev closed_client]. now rewrite <- !app_assoc.
Qed.

Lemma handshake_single_shot_witness :
  let st := Examples.client [Examples.frame (lit "__handshake") [1; 2]] in
  run Examples.server st
  = (Ok tt, closed_client
              (emit_ev (EvConnSend
                          (le32 11 ++ lit "__handshake" ++ le32 8 ++ lit "10.0.0.1"))
                 (emit_ev (EvHandshake (lit "10.0.0.1") [1; 2]) (after_frame st)))).
Proof.
  intro st.
  refine (proj1 (handshake_single_shot Examples.server st (Some 2) [1; 2]
                   (after_frame st) eq_refl _ _)
                (mkMessage (Returns (lit "10.0.0.1"))) _ eq_refl _ eq_refl).
  - apply frame_read_eval; vm_compute; reflexivity.
  - differ.
  - vm_compute. reflexivity.
Defined.

(** C8, the claim as stated fails.  On a handshake frame with an empty
    payload the handshake is not called and nothing is written before the
    close.  On a handshake frame whose payload the handshake rejects by
    raising, [run] ends by that exception with nothing written and the
    connection not closed. *)
Lemma handshake_failure_leaves_open :
  let r0 := run Examples.server
                (Examples.client [Examples.frame (lit "__handshake") []]) in
  let r := run Examples.server
               (Examples.client [Examples.frame (lit "__handshake") [1]]) in
  (fst r0 = Ok tt /\
   filter is_dispatch (trace (snd r0)) = [] /\
   existsb is_conn_send (trace (snd r0)) = false) /\
  (fst r = Exc (struct_error "unpack requires a buffer of 2 bytes") /\
   conn_closed (snd r) = false /\
   close_count (trace (snd r)) = 0%nat /\
   filter is_dispatch (trace (snd r)) = [EvHandshake (lit "10.0.0.1") [1]] /\
   existsb is_conn_send (trace (snd r)) = false).
Proof. vm_compute. repeat split. Qed.

(** ** Reads that return less than was asked for *)

(** C2, the code at the failing input.  The frame announces three bytes of
    payload, one byte arrives and the next read returns nothing: the frame
    read has the declared size 3 and the data [x], and [run] hands this one
    byte to the endpoint of [a] before it closes the connection. *)
Theorem truncated_payload_dispatched :
  let st := Examples.client [Examples.truncated_frame] in
  frame_read st (Some (lit "a")) (Some 3) [120] (after_frame st) /\
  fst (run Examples.server st) = Ok tt /\
  filter is_dispatch (trace (snd (run Examples.server st)))
  = [EvEndpointSend (lit "a") [120]].
Proof.
  intro st. split; [|split].
  - apply frame_read_eval; vm_compute; reflexivity.
  - vm_compute. reflexivity.
  - vm_compute. reflexivity.
Qed.

(** C1, the code at the failing input.  The same bytes arrive once in one
    piece and once with the first length prefix in two pieces.  In one piece
    the fields read are the destination [a] and the payload [x]; cut in two,
    the two bytes of the first read are not four, [read_int32] and
    [read_string] return [None], the second half is taken for the second
    prefix, and [run] ends by a [TypeError] without a dispatch. *)
Theorem split_prefix_not_accumulated :
  concat Examples.split_prefix = concat Examples.whole_frame /\
  fst (read_fields (snd (validate_preamble (Examples.client Examples.whole_frame))))
  = Ok (Some (lit "a"), Some 1, [120]) /\
  filter is_dispatch (trace (snd (run Examples.server (Examples.client Examples.whole_frame))))
  = [EvEndpointSend (lit "a") [120]] /\
  fst (validate_preamble (Examples.client Examples.split_prefix)) = Ok true /\
  fst (read_string (snd (validate_preamble (Examples.client Examples.split_prefix))))
  = Ok None /\
  fst (read_fields (snd (validate_preamble (Examples.client Examples.split_prefix))))
  = Exc compare_none_error /\
  fst (run Examples.server (Examples.client Examples.split_prefix))
  = Exc compare_none_error /\
  filter is_dispatch (trace (snd (run Examples.server (Examples.client Examples.split_prefix))))
  = [].
Proof. repeat split; vm_compute; reflexivity. Qed.

(** ** Reading what [serialize_message] wrote *)

(** A read of [n] bytes from a first piece that holds at least [n]. *)
Lemma recv_head n st a b cs :
  conn_closed st = false -> conn_pending st = (a ++ b) :: cs ->
  len a = n -> 0 < n ->
  recv n st = (Ok a, emit_ev (EvRecv n a) (set_pending (push_chunk b cs) st)).
Proof.
  intros Hc Hp Hl Hn. rewrite recv_eq, Hc, Hp.
  destruct (Z.ltb_spec n 0); [lia|]. cbv zeta.
  assert (E : Z.to_nat n = length a) by (unfold len in Hl; lia).
  rewrite E. unfold take_chunk.
  destruct (length a) as [|k] eqn:Ek; [lia|]. rewrite <- Ek. cbn [fst snd].
  rewrite firstn_app, Nat.sub_diag, firstn_all, skipn_app, Nat.sub_diag, skipn_all.
  cbn [firstn skipn]. now rewrite app_nil_r.
Qed.

Lemma recv_zero st :
  conn_closed st = false ->
  recv 0 st = (Ok [], emit_ev (EvRecv 0 []) (set_pending (conn_pending st) st)).
Proof. intro Hc. rewrite recv_eq, Hc. reflexivity. Qed.

Lemma read_int32_head st n p b cs :
  conn_closed st = false -> conn_pending st = (p ++ b) :: cs ->
  pack_u32 n = Returns p ->
  exists st',
    read_int32 st = (Ok (Some n), st') /\
    conn_closed st' = false /\ conn_pending st' = push_chunk b cs.
Proof.
  intros Hc Hp Hpack.
  assert (Hl : len p = 4) by (unfold len; now rewrite (pack_length _ _ Hpack)).
  eexists. split.
  - unfold read_int32, try_except.
    rewrite (bind_ok _ _ _ _ _ (recv_head 4 st p b cs Hc Hp Hl eq_refl)).
    cbv beta iota delta [bind lift ret]. rewrite (unpack_pack _ _ Hpack).
    reflexivity.
  - now cbn.
Qed.

Lemma read_string_head st s e p b cs :
  conn_closed st = false ->
  utf8_encode s = Returns e -> pack_u32 (len e) = Returns p -> b <> [] ->
  conn_pending st = (p ++ e ++ b) :: cs ->
  exists st',
    read_string st = (Ok (Some s), st') /\
    conn_closed st' = false /\ conn_pending st' = b :: cs.
Proof.
  intros Hc He Hpack Hb Hp.
  destruct (read_int32_head st (len e) p (e ++ b) cs Hc Hp Hpack)
    as (st1 & Hr & Hc1 & Hp1).
  assert (Hp1' : conn_pending st1 = (e ++ b) :: cs).
  { rewrite Hp1. destruct e; [destruct b; [contradiction|]|]; reflexivity. }
  unfold read_string, try_except. rewrite (bind_ok _ _ _ _ _ Hr).
  destruct e as [|e0 e'].
  - eexists. split.
    + rewrite (bind_ok _ _ _ _ _ (recv_zero st1 Hc1)).
      cbv beta iota delta [bind lift ret].
      rewrite (utf8_decode_encode _ _ He). reflexivity.
    + cbn. split; [assumption|]. now rewrite Hp1'.
  - eexists. split.
    + assert (Hl : 0 < len (e0 :: e')) by (unfold len; simpl length; lia).
      rewrite (bind_ok _ _ _ _ _
                 (recv_head _ st1 (e0 :: e') b cs Hc1 Hp1' eq_refl Hl)).
      cbv beta iota delta [bind lift ret].
      rewrite (utf8_decode_encode _ _ He). reflexivity.
    + cbn. split; [assumption|]. destruct b; [contradiction|reflexivity].
Qed.

(** The payload loop returns the announced bytes when the stream holds them,
    however the transport cuts them and however many turns of at most 1024
    bytes that takes. *)
Lemma read_payload_stream st payload rest :
  conn_closed st = false -> nonempty_chunks st ->
  stream st = payload ++ rest ->
  exists st',
    read_payload (Some (len payload)) st = (Ok payload, st') /\
    stream st' = rest /\ nonempty_chunks st' /\ reads st st' payload.
Proof.
  intros Hc Hne Hs. unfold read_payload.
  destruct (payload_loop_stream (S (pending_bytes st)) (len payload) [] st Hc Hne)
    as (st' & Hloop & Hne' & R).
  - unfold pending_bytes, stream. lia.
  - rewrite Hs, len_app. unfold len. simpl. lia.
  - assert (E : firstn (Z.to_nat (len payload - len (@nil byte))) (stream st) = payload).
    { rewrite Hs. unfold len. simpl length.
      replace (Z.to_nat (Z.of_nat (length payload) - Z.of_nat 0)) with (length payload) by lia.
      rewrite firstn_app, Nat.sub_diag, firstn_all. cbn [firstn]. apply app_nil_r. }
    rewrite E in *. cbn [app] in Hloop.
    exists st'. split; [exact Hloop|]. split; [|split; assumption].
    pose proof (reads_stream _ _ _ R) as Hst. rewrite Hs in Hst.
    now apply app_inv_head in Hst.
Qed.

Lemma serialize_message_inv destination m enc :
  serialize_message destination m = Returns enc ->
  exists e p payload q,
    utf8_encode destination = Returns e /\ pack_u32 (len e) = Returns p /\
    msg_serialize m = Returns payload /\ pack_u32 (len payload) = Returns q /\
    enc = (p ++ e) ++ q ++ payload.
Proof.
  unfold serialize_message, obind.
  destruct (utf8_encode destination) as [e|] eqn:He; [|discriminate].
  destruct (pack_u32 (len e)) as [p|] eqn:Hp; [|discriminate].
  destruct (msg_serialize m) as [payload|] eqn:Hm; [|discriminate].
  destruct (pack_u32 (len payload)) as [q|] eqn:Hq; [|discriminate].
  intros [= <-]. now exists e, p, payload, q.
Qed.

(** The readers take apart the four parts of an outbound frame. *)
Lemma read_fields_parts destination e p payload q rest st :
  utf8_encode destination = Returns e -> pack_u32 (len e) = Returns p ->
  pack_u32 (len payload) = Returns q ->
  conn_closed st = false ->
  conn_pending st = ((p ++ e) ++ q ++ payload) :: rest ->
  Forall (fun c : bytes => c <> []) rest ->
  exists st',
    read_fields st = (Ok (Some destination, Some (len payload), payload), st') /\
    stream st' = concat rest.
Proof.
  intros He Hpe Hq Hc Hp Hrest.
  assert (Hq4 : length q = 4%nat) by exact (pack_length _ _ Hq).
  assert (Hqne : q ++ payload <> []) by (destruct q; [discriminate|discriminate]).
  rewrite <- app_assoc in Hp.
  destruct (read_string_head st destination e p (q ++ payload) rest Hc He Hpe Hqne Hp)
    as (st1 & Hr1 & Hc1 & Hp1).
  destruct (read_int32_head st1 (len payload) q payload rest Hc1 Hp1 Hq)
    as (st2 & Hr2 & Hc2 & Hp2).
  assert (Hne2 : nonempty_chunks st2).
  { unfold nonempty_chunks. rewrite Hp2. now apply push_chunk_nonempty. }
  assert (Hs2 : stream st2 = payload ++ concat rest).
  { unfold stream. rewrite Hp2. apply push_chunk_concat. }
  destruct (read_payload_stream st2 payload (concat rest) Hc2 Hne2 Hs2)
    as (st3 & Hr3 & Hs3 & _).
  exists st3. split; [|exact Hs3].
  unfold read_fields.
  rewrite (bind_ok _ _ _ _ _ Hr1), (bind_ok _ _ _ _ _ Hr2), (bind_ok _ _ _ _ _ Hr3).
  reflexivity.
Qed.



(** ** [RosSubscriber.send] *)

Ltac sub_red :=
  cbv beta iota zeta delta
    [bind ret raise lift try_except
     Subscriber.get Subscriber.modify Subscriber.emit].

Lemma log_exception_eq e st :
  Subscriber.log_exception e st = (Ok tt, Subscriber.logged e st).
Proof.
  unfold Subscriber.log_exception, Subscriber.logged. sub_red.
  now destruct (pystr_eqb _ _).
Qed.

Lemma logged_fields e st :
  Subscriber.msg (Subscriber.logged e st) = Subscriber.msg st /\
  Subscriber.topic (Subscriber.logged e st) = Subscriber.topic st /\
  Subscriber.socket (Subscriber.logged e st) = Subscriber.socket st /\
  Subscriber.connected (Subscriber.logged e st) = Subscriber.connected st /\
  Subscriber.most_recent_exception_message (Subscriber.logged e st)
  = Subscriber.exception_message e.
Proof.
  unfold Subscriber.logged.
  destruct (pystr_eqb _ _) eqn:E; cbn; repeat split.
  symmetry. now apply list_eqb_eq.
Qed.

(** The text is logged when it differs from the one logged last, and only
    then. *)
Lemma logged_trace e st :
  (Subscriber.most_recent_exception_message st = Subscriber.exception_message e ->
   Subscriber.logged e st = st) /\
  (Subscriber.most_recent_exception_message st <> Subscriber.exception_message e ->
   Subscriber.trace (Subscriber.logged e st)
   = Subscriber.trace st ++ [Subscriber.LogInfo (Subscriber.exception_message e)]).
Proof.
  unfold Subscriber.logged. split; intro H.
  - rewrite H. unfold pystr_eqb. now rewrite list_eqb_refl.
  - unfold pystr_eqb. rewrite list_eqb_neq by congruence. reflexivity.
Qed.

Lemma close_connection_eq net st s :
  Subscriber.socket st = Some s ->
  Subscriber.close_connection_if_applicable net st
  = (Ok tt, Subscriber.emit_ev (Subscriber.SockClose s)
              (Subscriber.set_connected false st)).
Proof.
  intro H. unfold Subscriber.close_connection_if_applicable, Subscriber.socket_close.
  sub_red. cbn [Subscriber.socket Subscriber.set_connected]. rewrite H.
  sub_red. cbn [Subscriber.socket Subscriber.set_connected]. rewrite H.
  sub_red. now destruct (Subscriber.net_close net).
Qed.

Lemma close_connection_none net st :
  Subscriber.socket st = None ->
  Subscriber.close_connection_if_applicable net st
  = (Ok tt, Subscriber.set_connected false st).
Proof.
  intro H. unfold Subscriber.close_connection_if_applicable.
  sub_red. cbn [Subscriber.socket Subscriber.set_connected]. now rewrite H.
Qed.

Lemma socket_send_eq net b st s :
  Subscriber.socket st = Some s ->
  Subscriber.socket_send net b st
  = match Subscriber.net_send net with
    | Some e => (Exc e, Subscriber.emit_ev (Subscriber.SockSend s b false) st)
    | None => (Ok tt, Subscriber.emit_ev (Subscriber.SockSend s b true) st)
    end.
Proof.
  intro H. unfold Subscriber.socket_send. sub_red. rewrite H.
  now destruct (Subscriber.net_send net).
Qed.

(** [create_new_connection] when the address of the peer is known and a
    socket can be made. *)
Lemma create_new_connection_eq net st :
  Subscriber.unity_ip st <> [] -> Subscriber.net_socket net = None ->
  let s := Subscriber.next_socket st in
  let attempt ok :=
    Subscriber.emit_ev
      (Subscriber.SockConnect s (Subscriber.unity_ip st) (Subscriber.unity_port st) ok)
      (Subscriber.new_socket st) in
  Subscriber.create_new_connection net st
  = match Subscriber.net_connect net with
    | Some e => (Ok false, Subscriber.logged e (attempt false))
    | None => (Ok true, attempt true)
    end.
Proof.
  intros Hip Hs s attempt. unfold Subscriber.create_new_connection.
  sub_red. unfold pystr_eqb. rewrite (list_eqb_neq _ _ Hip), Hs.
  unfold Subscriber.socket_connect. sub_red.
  cbn [Subscriber.socket Subscriber.new_socket Subscriber.unity_ip Subscriber.unity_port].
  destruct (Subscriber.net_connect net) as [e|]; sub_red; [|reflexivity].
  now rewrite log_exception_eq.
Qed.

(** [create_new_connection] returns [True] or [False]; it does not raise,
    it leaves [self.msg] and [self.connected] as they are, and when it
    returns [True] the channel has a socket. *)
Lemma create_new_connection_total net st :
  exists b st',
    Subscriber.create_new_connection net st = (Ok b, st') /\
    Subscriber.msg st' = Subscriber.msg st /\
    Subscriber.connected st' = Subscriber.connected st /\
    (b = true -> Subscriber.socket st' <> None).
Proof.
  unfold Subscriber.create_new_connection. sub_red.
  destruct (pystr_eqb (Subscriber.unity_ip st) []).
  { destruct (Subscriber.unity_ip_error_message_printed st); cbn [negb];
      eexists; eexists; (split; [reflexivity|]); cbn; repeat split; discriminate. }
  destruct (Subscriber.net_socket net) as [e|].
  { rewrite log_exception_eq. eexists; eexists. split; [reflexivity|].
    destruct (logged_fields e st) as (-> & _ & _ & -> & _).
    repeat split. discriminate. }
  unfold Subscriber.socket_connect. sub_red.
  cbn [Subscriber.socket Subscriber.new_socket].
  destruct (Subscriber.net_connect net) as [e|]; sub_red.
  - rewrite log_exception_eq. eexists; eexists. split; [reflexivity|].
    match goal with |- context [Subscriber.logged e ?s] =>
      destruct (logged_fields e s) as (-> & _ & _ & -> & _) end.
    cbn. repeat split. discriminate.
  - eexists; eexists. split; [reflexivity|]. cbn. repeat split. discriminate.
Qed.

Lemma logged_log_lines e st :
  Subscriber.trace (Subscriber.logged e st)
  = Subscriber.trace st ++ Subscriber.log_lines e st.
Proof.
  unfold Subscriber.logged, Subscriber.log_lines.
  destruct (pystr_eqb _ _); [now rewrite app_nil_r|reflexivity].
Qed.

Lemma on_write_error_total net e st :
  exists st',
    Subscriber.on_write_error net e st = (Ok tt, st') /\
    Subscriber.msg st' = Subscriber.msg st /\
    Subscriber.socket st' = Subscriber.socket st /\
    Subscriber.connected st' = false /\
    exists evs, Subscriber.trace st' = Subscriber.trace st ++ evs.
Proof.
  unfold Subscriber.on_write_error.
  destruct (Subscriber.socket st) as [s|] eqn:Hs.
  - rewrite (bind_ok _ _ _ _ _ (close_connection_eq net st s Hs)), log_exception_eq.
    eexists. split; [reflexivity|].
    rewrite logged_log_lines.
    match goal with |- context [Subscriber.logged e ?x] =>
      destruct (logged_fields e x) as (-> & _ & -> & -> & _) end.
    cbn. rewrite <- app_assoc. eauto 6.
  - rewrite (bind_ok _ _ _ _ _ (close_connection_none net st Hs)), log_exception_eq.
    eexists. split; [reflexivity|].
    rewrite logged_log_lines.
    match goal with |- context [Subscriber.logged e ?x] =>
      destruct (logged_fields e x) as (-> & _ & -> & -> & _) end.
    cbn. eauto 6.
Qed.

Lemma write_body_cases net data st r st' :
  Subscriber.write_body net data st = (r, st') ->
  r <> OutOfFuel /\
  Subscriber.msg st' = Subscriber.msg st /\
  Subscriber.socket st' = Subscriber.socket st /\
  Subscriber.connected st' = Subscriber.connected st /\
  exists evs, Subscriber.trace st' = Subscriber.trace st ++ evs.
Proof.
  unfold Subscriber.write_body, Subscriber.socket_send. sub_red.
  destruct (serialize_message (Subscriber.topic st) data) as [b|e].
  2:{ intros [= <- <-]. split; [discriminate|]. repeat split.
      exists []. now rewrite app_nil_r. }
  destruct (Subscriber.socket st) as [s|] eqn:Hs.
  2:{ intros [= <- <-]. split; [discriminate|]. repeat split; [exact Hs|].
      exists []. now rewrite app_nil_r. }
  destruct (Subscriber.net_send net) as [e|]; intros [= <- <-];
    (split; [discriminate|]); cbn; repeat split; eauto.
Qed.

Lemma write_message_raises net data st s e :
  Subscriber.socket st = Some s ->
  (serialize_message (Subscriber.topic st) data = Raises e ->
   Subscriber.write_message net data st
   = (Ok tt, Subscriber.logged e
               (Subscriber.emit_ev (Subscriber.SockClose s)
                  (Subscriber.set_connected false st)))) /\
  (forall b, serialize_message (Subscriber.topic st) data = Returns b ->
   Subscriber.net_send net = Some e ->
   Subscriber.write_message net data st
   = (Ok tt, Subscriber.logged e
               (Subscriber.emit_ev (Subscriber.SockClose s)
                  (Subscriber.set_connected false
                     (Subscriber.emit_ev (Subscriber.SockSend s b false) st))))).
Proof.
  intro Hs. unfold Subscriber.write_message, Subscriber.write_body,
    Subscriber.on_write_error. split.
  - intro H. sub_red. rewrite H. sub_red.
    rewrite (close_connection_eq net st s Hs). now rewrite log_exception_eq.
  - intros b H Hn. sub_red. rewrite H. sub_red.
    rewrite (socket_send_eq net b st s Hs), Hn.
    rewrite (close_connection_eq net _ s) by exact Hs.
    now rewrite log_exception_eq.
Qed.

Lemma write_message_sends net data st s b :
  Subscriber.socket st = Some s ->
  serialize_message (Subscriber.topic st) data = Returns b ->
  Subscriber.net_send net = None ->
  Subscriber.write_message net data st
  = (Ok tt, Subscriber.emit_ev (Subscriber.SockSend s b true) st).
Proof.
  intros Hs H Hn. unfold Subscriber.write_message, Subscriber.write_body.
  sub_red. rewrite H. sub_red.
  now rewrite (socket_send_eq net b st s Hs), Hn.
Qed.

(** The write does not raise, whatever happens to it, leaves [self.msg] and
    [self.socket] as they are, does not connect the channel and only adds to
    the trace. *)
Lemma write_message_total net data st :
  exists st',
    Subscriber.write_message net data st = (Ok tt, st') /\
    Subscriber.msg st' = Subscriber.msg st /\
    Subscriber.socket st' = Subscriber.socket st /\
    (Subscriber.connected st' = true -> Subscriber.connected st = true) /\
    exists evs, Subscriber.trace st' = Subscriber.trace st ++ evs.
Proof.
  unfold Subscriber.write_message, try_except.
  destruct (Subscriber.write_body net data st) as [[[]|e|] st1] eqn:Eb;
    destruct (write_body_cases _ _ _ _ _ Eb) as (N & Hm & Hs & Hc & evs & T).
  - exists st1. split; [reflexivity|]. split; [exact Hm|]. split; [exact Hs|].
    split; [congruence|eauto].
  - destruct (on_write_error_total net e st1)
      as (st2 & H2 & Hm2 & Hs2 & Hc2 & evs2 & T2).
    exists st2. split; [exact H2|]. split; [congruence|]. split; [congruence|].
    split; [congruence|].
    exists (evs ++ evs2). now rewrite T2, T, app_assoc.
  - contradiction.
Qed.

Lemma ensure_connected_cases net st :
  (Subscriber.connected st = true ->
   Subscriber.ensure_connected net st = (Ok true, st)) /\
  (Subscriber.connected st = false -> forall st1,
   Subscriber.create_new_connection net st = (Ok true, st1) ->
   Subscriber.ensure_connected net st = (Ok true, Subscriber.set_connected true st1)) /\
  (Subscriber.connected st = false -> forall st1,
   Subscriber.create_new_connection net st = (Ok false, st1) ->
   Subscriber.ensure_connected net st = (Ok false, st1)).
Proof.
  unfold Subscriber.ensure_connected. sub_red.
  repeat split.
  - now intros ->.
  - intros -> st1 H. cbn [negb]. now rewrite H.
  - intros -> st1 H. cbn [negb]. now rewrite H.
Qed.

(** [send] keeps a socket under every channel that counts as connected. *)
Lemma send_connected_has_socket net data st :
  Subscriber.connected_has_socket st ->
  Subscriber.connected_has_socket (snd (Subscriber.send net data st)).
Proof.
  unfold Subscriber.connected_has_socket. intro Inv.
  unfold Subscriber.send. destruct (Subscriber.is_shutdown net); [exact Inv|].
  destruct (ensure_connected_cases net st) as (E1 & E2 & E3).
  assert (Hen : exists b st1,
             Subscriber.ensure_connected net st = (Ok b, st1) /\
             (Subscriber.connected st1 = true -> Subscriber.socket st1 <> None)).
  { destruct (Subscriber.connected st) eqn:Hc.
    - exists true, st. split; [now apply E1|]. intros _. now apply Inv.
    - destruct (create_new_connection_total net st)
        as ([|] & st1 & Hcr & _ & Hc1 & Hs1).
      + exists true, (Subscriber.set_connected true st1).
        split; [now apply E2|]. intros _. now apply Hs1.
      + exists false, st1. split; [now apply E3|]. congruence. }
  destruct Hen as (b & st1 & Hen & Inv1). rewrite (bind_ok _ _ _ _ _ Hen).
  destruct b; cbn [negb]; [|exact Inv1].
  destruct (write_message_total net data st1) as (st2 & Hw & _ & Hs2 & Hc2 & _).
  rewrite (bind_ok _ _ _ _ _ Hw). cbn. rewrite Hs2. intro H. apply Inv1, Hc2, H.
Qed.

(** C9. While rospy is not shut down, [send] never raises.  It returns
    [None] when the channel is not connected and [create_new_connection]
    returns [False]; in every other case it returns [self.msg], also when the
    write raises: the result is the same whether the socket write fails or
    succeeds. *)
Theorem send_result net data st :
  Subscriber.is_shutdown net = false ->
  (Subscriber.connected st = false ->
   fst (Subscriber.create_new_connection net st) = Ok false ->
   Subscriber.send net data st
   = (Ok None, snd (Subscriber.create_new_connection net st))) /\
  (Subscriber.connected st = true \/
   fst (Subscriber.create_new_connection net st) = Ok true ->
   fst (Subscriber.send net data st) = Ok (Some (Subscriber.msg st))) /\
  (fst (Subscriber.create_new_connection net st) = Ok false \/
   fst (Subscriber.create_new_connection net st) = Ok true) /\
  (forall so co cl e,
     fst (Subscriber.send (Subscriber.mkNet false so co (Some e) cl) data st)
     = fst (Subscriber.send (Subscriber.mkNet false so co None cl) data st)).
Proof.
  intro Hsh.
  assert (Hgen : forall net0, Subscriber.is_shutdown net0 = false ->
            (Subscriber.connected st = false ->
             fst (Subscriber.create_new_connection net0 st) = Ok false ->
             Subscriber.send net0 data st
             = (Ok None, snd (Subscriber.create_new_connection net0 st))) /\
            (Subscriber.connected st = true \/
             fst (Subscriber.create_new_connection net0 st) = Ok true ->
             fst (Subscriber.send net0 data st) = Ok (Some (Subscriber.msg st)))).
  { intros net0 H0. unfold Subscriber.send. rewrite H0.
    destruct (ensure_connected_cases net0 st) as (E1 & E2 & E3).
    destruct (create_new_connection_total net0 st) as (b & st1 & Hc & Hm & _ & _).
    rewrite Hc. cbn [fst snd].
    split.
    - intros Hconn [= ->]. now rewrite (bind_ok _ _ _ _ _ (E3 Hconn _ Hc)).
    - intros H.
      assert (Hen : exists st2, Subscriber.ensure_connected net0 st = (Ok true, st2)
                                /\ Subscriber.msg st2 = Subscriber.msg st).
      { destruct (Subscriber.connected st) eqn:Hconn.
        - exists st. split; [now apply E1|reflexivity].
        - destruct H as [H | [= ->]]; [discriminate|].
          exists (Subscriber.set_connected true st1).
          split; [now apply E2|exact Hm]. }
      destruct Hen as (st2 & Hen & Hm2).
      rewrite (bind_ok _ _ _ _ _ Hen). cbn [negb].
      destruct (write_message_total net0 data st2) as (st3 & Hw & Hm3 & _ & _ & _).
      rewrite (bind_ok _ _ _ _ _ Hw). cbn. congruence. }
  destruct (Hgen net Hsh) as (G1 & G2).
  split; [exact G1|]. split; [exact G2|]. split.
  - destruct (create_new_connection_total net st) as ([|] & st1 & Hc & _);
      rewrite Hc; auto.
  - intros so co cl e.
    set (n1 := Subscriber.mkNet false so co (Some e) cl).
    set (n2 := Subscriber.mkNet false so co None cl).
    destruct (Hgen n1 eq_refl) as (A1 & A2).
    destruct (Hgen n2 eq_refl) as (B1 & B2).
    assert (Hsame : fst (Subscriber.create_new_connection n1 st)
                    = fst (Subscriber.create_new_connection n2 st)).
    { unfold Subscriber.create_new_connection, Subscriber.socket_connect. sub_red.
      destruct (pystr_eqb (Subscriber.unity_ip st) []).
      - now destruct (Subscriber.unity_ip_error_message_printed st).
      - cbn [Subscriber.net_socket Subscriber.net_connect n1 n2].
        destruct so as [x|]; [now rewrite !log_exception_eq|]. sub_red.
        cbn [Subscriber.socket Subscriber.new_socket].
        destruct co as [x|]; sub_red; [now rewrite !log_exception_eq|reflexivity]. }
    destruct (Subscriber.connected st) eqn:Hconn.
    + rewrite A2, B2; auto.
    + destruct (create_new_connection_total n2 st) as ([|] & st1 & Hc & _).
      * rewrite A2, B2; auto; right; [now rewrite Hc | now rewrite Hsame, Hc].
      * rewrite A1, B1; auto; [now rewrite Hc | now rewrite Hsame, Hc].
Qed.

Lemma send_result_witness :
  Subscriber.send Subscriber.refusing (mkMessage (Returns [1; 2]))
                  (Subscriber.fresh (lit "10.0.0.2") 5005)
  = (Ok None,
     snd (Subscriber.create_new_connection Subscriber.refusing
            (Subscriber.fresh (lit "10.0.0.2") 5005))) /\
  fst (Subscriber.send Subscriber.breaking (mkMessage (Returns [1; 2]))
                       (Subscriber.fresh (lit "10.0.0.2") 5005))
  = Ok (Some (lit "std_msgs/String")).
Proof.
  split.
  - apply (proj1 (send_result Subscriber.refusing (mkMessage (Returns [1; 2]))
                    (Subscriber.fresh (lit "10.0.0.2") 5005) eq_refl));
      reflexivity.
  - apply (proj1 (proj2 (send_result Subscriber.breaking (mkMessage (Returns [1; 2]))
                           (Subscriber.fresh (lit "10.0.0.2") 5005) eq_refl))).
    right. reflexivity.
Defined.


(** When the channel is connected, or becomes so, nothing has been logged on
    the way. *)
Lemma ensure_connected_true net st st1 :
  Subscriber.ensure_connected net st = (Ok true, st1) ->
  Subscriber.msg st1 = Subscriber.msg st /\
  Subscriber.most_recent_exception_message st1
  = Subscriber.most_recent_exception_message st.
Proof.
  destruct (ensure_connected_cases net st) as (E1 & E2 & E3).
  destruct (Subscriber.connected st) eqn:Hc.
  { rewrite (E1 eq_refl). now intros [= <-]. }
  destruct (pystr_eqb (Subscriber.unity_ip st) []) eqn:Hip.
  { apply list_eqb_eq in Hip.
    assert (H : exists st0, Subscriber.create_new_connection net st = (Ok false, st0)).
    { unfold Subscriber.create_new_connection. sub_red. rewrite Hip.
      cbn [pystr_eqb list_eqb].
      destruct (Subscriber.unity_ip_error_message_printed st); eexists; reflexivity. }
    destruct H as (st0 & H). rewrite (E3 eq_refl _ H). discriminate. }
  assert (Hne : Subscriber.unity_ip st <> []).
  { intro H. unfold pystr_eqb in Hip. rewrite H in Hip. discriminate. }
  destruct (Subscriber.net_socket net) as [x|] eqn:Hs.
  { assert (H : Subscriber.create_new_connection net st
                = (Ok false, Subscriber.logged x st)).
    { unfold Subscriber.create_new_connection. sub_red. rewrite Hip, Hs.
      now rewrite log_exception_eq. }
    rewrite (E3 eq_refl _ H). discriminate. }
  pose proof (create_new_connection_eq net st Hne Hs) as H. cbv zeta in H.
  destruct (Subscriber.net_connect net) as [x|].
  - rewrite (E3 eq_refl _ H). discriminate.
  - rewrite (E2 eq_refl _ H). now intros [= <-].
Qed.

(** C7, as amended.  A write that fails closes the socket of the channel and
    clears [connected]; a connect that fails leaves the channel unconnected
    and does not close the socket it has just made.  Either is tried once in
    the call, and its text is logged when it differs from the text logged
    last on the channel, and only then.  A call on an unconnected channel
    whose peer address is known starts with a new socket and a connect.
    The write may be the one of a call that has just connected: the socket
    made in the call is then closed in the same call.  And on every channel,
    whatever makes the write raise once the channel counts as connected, the
    call clears [connected], closes the socket if there is one, logs as
    above and returns [self.msg]. *)
Theorem outbound_failure net data st e :
  Subscriber.is_shutdown net = false ->
  (forall s b,
     Subscriber.connected st = true -> Subscriber.socket st = Some s ->
     serialize_message (Subscriber.topic st) data = Returns b ->
     Subscriber.net_send net = Some e ->
     let st' := Subscriber.logged e (Subscriber.failed_write s b st) in
     Subscriber.send net data st = (Ok (Some (Subscriber.msg st)), st') /\
     Subscriber.connected st' = false /\
     Subscriber.most_recent_exception_message st' = Subscriber.exception_message e /\
     Subscriber.trace st'
     = Subscriber.trace st
       ++ [Subscriber.SockSend s b false; Subscriber.SockClose s]
       ++ Subscriber.log_lines e st) /\
  (Subscriber.connected st = false -> Subscriber.unity_ip st <> [] ->
   Subscriber.net_socket net = None -> Subscriber.net_connect net = Some e ->
   let s := Subscriber.next_socket st in
   let st' := Subscriber.logged e (Subscriber.attempt_connect false st) in
   Subscriber.send net data st = (Ok None, st') /\
   Subscriber.connected st' = false /\
   Subscriber.socket st' = Some s /\
   Subscriber.most_recent_exception_message st' = Subscriber.exception_message e /\
   Subscriber.trace st'
   = Subscriber.trace st
     ++ [Subscriber.SockCreate s;
         Subscriber.SockConnect s (Subscriber.unity_ip st) (Subscriber.unity_port st) false]
     ++ Subscriber.log_lines e st) /\
  (Subscriber.connected st = false -> Subscriber.unity_ip st <> [] ->
   Subscriber.net_socket net = None ->
   let s := Subscriber.next_socket st in
   exists ok evs,
     Subscriber.trace (snd (Subscriber.send net data st))
     = Subscriber.trace st
       ++ Subscriber.SockCreate s
          :: Subscriber.SockConnect s (Subscriber.unity_ip st) (Subscriber.unity_port st) ok
          :: evs) /\
  (Subscriber.most_recent_exception_message st = Subscriber.exception_message e ->
   Subscriber.log_lines e st = []) /\
  (Subscriber.most_recent_exception_message st <> Subscriber.exception_message e ->
   Subscriber.log_lines e st = [Subscriber.LogInfo (Subscriber.exception_message e)]) /\
  (forall b,
     Subscriber.connected st = false -> Subscriber.unity_ip st <> [] ->
     Subscriber.net_socket net = None -> Subscriber.net_connect net = None ->
     serialize_message (Subscriber.topic st) data = Returns b ->
     Subscriber.net_send net = Some e ->
     let s := Subscriber.next_socket st in
     let st' := Subscriber.logged e
                  (Subscriber.failed_write s b
                     (Subscriber.set_connected true
                        (Subscriber.attempt_connect true st))) in
     Subscriber.send net data st = (Ok (Some (Subscriber.msg st)), st') /\
     Subscriber.connected st' = false /\
     Subscriber.socket st' = Some s /\
     Subscriber.most_recent_exception_message st' = Subscriber.exception_message e /\
     Subscriber.trace st'
     = Subscriber.trace st
       ++ [Subscriber.SockCreate s;
           Subscriber.SockConnect s (Subscriber.unity_ip st) (Subscriber.unity_port st) true;
           Subscriber.SockSend s b false; Subscriber.SockClose s]
       ++ Subscriber.log_lines e st) /\
  (forall st1 st2,
     Subscriber.ensure_connected net st = (Ok true, st1) ->
     Subscriber.write_body net data st1 = (Exc e, st2) ->
     let st' := snd (Subscriber.send net data st) in
     fst (Subscriber.send net data st) = Ok (Some (Subscriber.msg st)) /\
     Subscriber.connected st' = false /\
     Subscriber.socket st' = Subscriber.socket st1 /\
     Subscriber.most_recent_exception_message st' = Subscriber.exception_message e /\
     Subscriber.trace st'
     = Subscriber.trace st2
       ++ match Subscriber.socket st1 with
          | Some s => [Subscriber.SockClose s]
          | None => []
          end
       ++ Subscriber.log_lines e st).
Proof.
  intro Hsh.
  destruct (ensure_connected_cases net st) as (E1 & E2 & E3).
  split; [|split; [|split; [|split; [|split; [|split]]]]].
  - intros s b Hconn Hs Hser Hsend st'.
    split; [|repeat split].
    + unfold Subscriber.send. rewrite Hsh, (bind_ok _ _ _ _ _ (E1 Hconn)). cbn [negb].
      rewrite (bind_ok _ _ _ _ _
                 (proj2 (write_message_raises net data st s e Hs) b Hser Hsend)).
      sub_red. subst st'. fold (Subscriber.failed_write s b st).
      now destruct (logged_fields e (Subscriber.failed_write s b st)) as (-> & _).
    + subst st'. now destruct (logged_fields e (Subscriber.failed_write s b st)) as (_ & _ & _ & -> & _).
    + subst st'. now destruct (logged_fields e (Subscriber.failed_write s b st)) as (_ & _ & _ & _ & ->).
    + subst st'. rewrite logged_log_lines. cbn. now rewrite <- !app_assoc.
  - intros Hconn Hip Hsock Hco s st'.
    pose proof (create_new_connection_eq net st Hip Hsock) as Hc.
    cbv zeta in Hc. rewrite Hco in Hc. fold (Subscriber.attempt_connect false st) in Hc.
    split; [|repeat split].
    + unfold Subscriber.send. rewrite Hsh, (bind_ok _ _ _ _ _ (E3 Hconn _ Hc)).
      reflexivity.
    + subst st'. destruct (logged_fields e (Subscriber.attempt_connect false st))
        as (_ & _ & _ & -> & _). exact Hconn.
    + subst st'. now destruct (logged_fields e (Subscriber.attempt_connect false st))
        as (_ & _ & -> & _).
    + subst st'. now destruct (logged_fields e (Subscriber.attempt_connect false st))
        as (_ & _ & _ & _ & ->).
    + subst st'. rewrite logged_log_lines. cbn. now rewrite <- !app_assoc.
  - intros Hconn Hip Hsock s.
    pose proof (create_new_connection_eq net st Hip Hsock) as Hc.
    cbv zeta in Hc. unfold Subscriber.send. rewrite Hsh.
    destruct (Subscriber.net_connect net) as [e'|].
    + fold (Subscriber.attempt_connect false st) in Hc.
      rewrite (bind_ok _ _ _ _ _ (E3 Hconn _ Hc)). cbn [negb ret snd].
      exists false, (Subscriber.log_lines e' st).
      rewrite logged_log_lines. cbn. now rewrite <- !app_assoc.
    + fold (Subscriber.attempt_connect true st) in Hc.
      rewrite (bind_ok _ _ _ _ _ (E2 Hconn _ Hc)). cbn [negb].
      destruct (write_message_total net data
                  (Subscriber.set_connected true (Subscriber.attempt_connect true st)))
        as (st2 & Hw & _ & _ & _ & evs & Hev).
      exists true, evs. rewrite (bind_ok _ _ _ _ _ Hw).
      cbn [snd Subscriber.get ret bind]. rewrite Hev. cbn.
      now rewrite <- !app_assoc.
  - intro H. unfold Subscriber.log_lines, pystr_eqb. rewrite H.
    now rewrite list_eqb_refl.
  - intro H. unfold Subscriber.log_lines, pystr_eqb.
    rewrite list_eqb_neq by congruence. reflexivity.
  - intros b Hconn Hip Hsock Hco Hser Hsend s st'.
    pose proof (create_new_connection_eq net st Hip Hsock) as Hc.
    cbv zeta in Hc. rewrite Hco in Hc. fold (Subscriber.attempt_connect true st) in Hc.
    pose proof (E2 Hconn _ Hc) as Hen.
    set (st1 := Subscriber.set_connected true (Subscriber.attempt_connect true st)) in *.
    assert (Hs1 : Subscriber.socket st1 = Some s) by reflexivity.
    split; [|repeat split].
    + unfold Subscriber.send. rewrite Hsh, (bind_ok _ _ _ _ _ Hen). cbn [negb].
      rewrite (bind_ok _ _ _ _ _
                 (proj2 (write_message_raises net data st1 s e Hs1) b Hser Hsend)).
      sub_red. subst st'. fold (Subscriber.failed_write s b st1).
      now destruct (logged_fields e (Subscriber.failed_write s b st1)) as (-> & _).
    + subst st'. now destruct (logged_fields e (Subscriber.failed_write s b st1)) as (_ & _ & _ & -> & _).
    + subst st'. now destruct (logged_fields e (Subscriber.failed_write s b st1)) as (_ & _ & -> & _).
    + subst st'. now destruct (logged_fields e (Subscriber.failed_write s b st1)) as (_ & _ & _ & _ & ->).
    + subst st'. rewrite logged_log_lines. cbn. now rewrite <- !app_assoc.
  - intros st1 st2 Hen Hw st'.
    destruct (ensure_connected_true net st st1 Hen) as (Hm1 & Hr1).
    destruct (write_body_cases _ _ _ _ _ Hw) as (_ & Hm2 & Hs2 & _ & _).
    assert (Hr2 : Subscriber.most_recent_exception_message st2
                  = Subscriber.most_recent_exception_message st1).
    { revert Hw. unfold Subscriber.write_body, Subscriber.socket_send. sub_red.
      destruct (serialize_message (Subscriber.topic st1) data); [|now intros [= _ <-]].
      destruct (Subscriber.socket st1); [|now intros [= _ <-]].
      destruct (Subscriber.net_send net); now intros [= _ <-]. }
    set (closed := match Subscriber.socket st1 with
                   | Some s => Subscriber.emit_ev (Subscriber.SockClose s)
                                 (Subscriber.set_connected false st2)
                   | None => Subscriber.set_connected false st2
                   end).
    assert (Hwm : Subscriber.write_message net data st1
                  = (Ok tt, Subscriber.logged e closed)).
    { unfold Subscriber.write_message, try_except. rewrite Hw.
      unfold Subscriber.on_write_error, closed.
      destruct (Subscriber.socket st1) as [s|] eqn:Es.
      - rewrite (bind_ok _ _ _ _ _ (close_connection_eq net st2 s Hs2)).
        apply log_exception_eq.
      - rewrite (bind_ok _ _ _ _ _ (close_connection_none net st2 Hs2)).
        apply log_exception_eq. }
    assert (Hsend : Subscriber.send net data st
                    = (Ok (Some (Subscriber.msg (Subscriber.logged e closed))),
                       Subscriber.logged e closed)).
    { unfold Subscriber.send. rewrite Hsh, (bind_ok _ _ _ _ _ Hen). cbn [negb].
      rewrite (bind_ok _ _ _ _ _ Hwm). reflexivity. }
    subst st'. rewrite Hsend. cbn [fst snd].
    destruct (logged_fields e closed) as (Fm & _ & Fs & Fc & Fr).
    rewrite Fm, Fs, Fc, Fr, logged_log_lines.
    assert (Hl : Subscriber.log_lines e closed = Subscriber.log_lines e st).
    { unfold Subscriber.log_lines, closed.
      destruct (Subscriber.socket st1); cbn; now rewrite Hr2, Hr1. }
    rewrite Hl. unfold closed.
    destruct (Subscriber.socket st1) as [s|] eqn:Es; cbn;
      repeat split; try congruence.
    now rewrite <- app_assoc.
Qed.

Lemma outbound_failure_witness :
  let m := mkMessage (Returns [1; 2]) in
  let st0 := Subscriber.fresh (lit "10.0.0.2") 5005 in
  let st1 := snd (Subscriber.send Subscriber.working m st0) in
  let refused := Exn "ConnectionRefusedError" (lit "[Errno 111] Connection refused") in
  let broken := Exn "BrokenPipeError" (lit "[Errno 32] Broken pipe") in
  Subscriber.send Subscriber.refusing m st0
  = (Ok None, Subscriber.logged refused (Subscriber.attempt_connect false st0)) /\
  Subscriber.send Subscriber.breaking m st1
  = (Ok (Some (lit "std_msgs/String")),
     Subscriber.logged broken
       (Subscriber.failed_write 0%nat (le32 5 ++ lit "/chat" ++ le32 2 ++ [1; 2]) st1)) /\
  Subscriber.send Subscriber.breaking m st0
  = (Ok (Some (lit "std_msgs/String")),
     Subscriber.logged broken
       (Subscriber.failed_write 0%nat (le32 5 ++ lit "/chat" ++ le32 2 ++ [1; 2])
          (Subscriber.set_connected true (Subscriber.attempt_connect true st0)))) /\
  (let unserializable := mkMessage (Raises (struct_error "required argument is not an integer")) in
   let st' := snd (Subscriber.send Subscriber.working unserializable st0) in
   Subscriber.connected st' = false /\
   Subscriber.trace st'
   = [Subscriber.SockCreate 0%nat;
      Subscriber.SockConnect 0%nat (lit "10.0.0.2") 5005 true;
      Subscriber.SockClose 0%nat;
      Subscriber.LogInfo (lit "Exception required argument is not an integer")]).
Proof.
  intros m st0 st1 refused broken. split; [|split; [|split]].
  4:{ intros unserializable st'.
      pose proof (proj2 (proj2 (proj2 (proj2 (proj2 (proj2
                    (outbound_failure Subscriber.working unserializable st0
                       (struct_error "required argument is not an integer")
                       eq_refl))))))
                    (Subscriber.set_connected true (Subscriber.attempt_connect true st0))
                    (Subscriber.set_connected true (Subscriber.attempt_connect true st0))
                    eq_refl eq_refl) as (_ & Hc & _ & _ & T).
      split; [exact Hc|exact T]. }
  3:{ apply (proj1 (proj2 (proj2 (proj2 (proj2 (proj2
               (outbound_failure Subscriber.breaking m st0 broken eq_refl))))))
             (le32 5 ++ lit "/chat" ++ le32 2 ++ [1; 2])).
      - reflexivity.
      - differ.
      - reflexivity.
      - reflexivity.
      - vm_compute. reflexivity.
      - reflexivity. }
  - apply (proj1 (proj2 (outbound_failure Subscriber.refusing m st0 refused eq_refl))).
    + reflexivity.
    + differ.
    + reflexivity.
    + reflexivity.
  - apply (proj1 (outbound_failure Subscriber.breaking m st1 broken eq_refl)
             0%nat (le32 5 ++ lit "/chat" ++ le32 2 ++ [1; 2])).
    + reflexivity.
    + reflexivity.
    + vm_compute. reflexivity.
    + reflexivity.
Defined.

(** C7, the claim as stated fails: when the connect is refused, the socket
    that was made for it is still the socket of the channel and no close has
    been called on it. *)
Lemma connect_failure_closes_nothing :
  let st' := snd (Subscriber.send Subscriber.refusing (mkMessage (Returns [1; 2]))
                    (Subscriber.fresh (lit "10.0.0.2") 5005)) in
  Subscriber.socket st' = Some 0%nat /\
  existsb Subscriber.is_sock_close (Subscriber.trace st') = false /\
  Subscriber.trace st'
  = [Subscriber.SockCreate 0%nat;
     Subscriber.SockConnect 0%nat (lit "10.0.0.2") 5005 false;
     Subscriber.LogInfo (lit "Exception [Errno 111] Connection refused")].
Proof. vm_compute. repeat split. Qed.

(** ** [run] ends *)

Lemma close_budget_emit e st :
  is_close e = false -> close_budget (emit_ev e st) = close_budget st.
Proof.
  intro H. unfold close_budget. cbn [trace emit_ev client_running].
  rewrite close_count_app. unfold close_count at 2. cbn [filter]. rewrite H.
  cbn. lia.
Qed.

Lemma close_budget_closed st :
  client_running st = true -> close_budget (closed_client st) = close_budget st.
Proof.
  intro H. unfold close_budget. cbn [trace closed_client client_running].
  rewrite close_count_app, H. cbn. lia.
Qed.

Ltac steady_trivial :=
  intros ? ? ? [= <- <-]; split; [discriminate|split; [lia|split; [lia|]]];
  exists []; now rewrite app_nil_r.

Lemma steady_ret {A} (a : A) : steady (ret a).
Proof. steady_trivial. Qed.

Lemma steady_raise {A} e : steady (@raise _ A e).
Proof. steady_trivial. Qed.

Lemma steady_lift {A} (o : outcome A) : steady (lift o).
Proof. unfold lift. destruct o; steady_trivial. Qed.

Lemma steady_emit_ev e st :
  is_close e = false ->
  (pending_bytes (emit_ev e st) <= pending_bytes st)%nat /\
  (close_budget (emit_ev e st) <= close_budget st)%nat /\
  exists evs, trace (emit_ev e st) = trace st ++ evs.
Proof.
  intro H. rewrite (close_budget_emit _ _ H). unfold pending_bytes. cbn.
  split; [lia|]. split; [lia|]. eauto.
Qed.

Lemma steady_emit e : is_close e = false -> steady (emit e).
Proof.
  intros H st r st' [= <- <-]. split; [discriminate|].
  now apply steady_emit_ev.
Qed.

Lemma steady_print t : steady (print t).
Proof. now apply steady_emit. Qed.

Lemma steady_shutdown_client : steady shutdown_client.
Proof.
  intros st r st'. unfold shutdown_client.
  destruct (client_running st) eqn:E; intros [= <- <-];
    (split; [discriminate|]).
  - rewrite (close_budget_closed _ E). unfold pending_bytes. cbn.
    split; [lia|]. split; [lia|]. eauto.
  - split; [lia|]. split; [lia|]. exists []. now rewrite app_nil_r.
Qed.

Lemma steady_conn_send b : steady (conn_send b).
Proof.
  intros st r st'. unfold conn_send.
  destruct (conn_closed st); [|destruct (conn_send_failure st)];
    intros [= <- <-]; (split; [discriminate|]); now apply steady_emit_ev.
Qed.

Lemma recv_pending n st r st' :
  recv n st = (r, st') ->
  r <> OutOfFuel /\
  close_budget st' = close_budget st /\
  (pending_bytes st' <= pending_bytes st)%nat /\
  (exists evs, trace st' = trace st ++ evs) /\
  forall got, r = Ok got ->
    pending_bytes st = (length got + pending_bytes st')%nat.
Proof.
  rewrite recv_eq.
  destruct (conn_closed st); [|destruct (n <? 0)]; cbv zeta;
    intros [= <- <-]; (split; [discriminate|]);
    (split; [now rewrite close_budget_emit by reflexivity|]).
  1,2: split; [unfold pending_bytes; cbn; lia |split; [cbn; eauto|discriminate]].
  assert (E : pending_bytes st
              = (length (fst (take_chunk (Z.to_nat n) (conn_pending st)))
                 + length (concat (snd (take_chunk (Z.to_nat n) (conn_pending st)))))%nat).
  { unfold pending_bytes.
    rewrite (take_chunk_concat (Z.to_nat n) (conn_pending st)) at 1.
    apply length_app. }
  split; [|split].
  - unfold pending_bytes in *. cbn [conn_pending emit_ev set_pending]. lia.
  - cbn. eauto.
  - intros got [= <-]. exact E.
Qed.

Lemma steady_recv n : steady (recv n).
Proof.
  intros st r st' H. destruct (recv_pending _ _ _ _ H) as (H1 & H2 & H3 & H4 & _).
  split; [exact H1|]. split; [exact H3|]. split; [lia|exact H4].
Qed.

Lemma steady_bind {A B} (m : M ClientThread A) (k : A -> M ClientThread B) :
  steady m -> (forall a, steady (k a)) -> steady (bind m k).
Proof.
  intros Hm Hk st r st'. unfold bind.
  destruct (m st) as [[a|e|] st1] eqn:E;
    destruct (Hm _ _ _ E) as (N & L & C & ev1 & T1).
  - intro H. destruct (Hk a _ _ _ H) as (N' & L' & C' & ev2 & T2).
    split; [exact N'|]. split; [lia|]. split; [lia|].
    exists (ev1 ++ ev2). now rewrite T2, T1, app_assoc.
  - intros [= <- <-]. split; [discriminate|]. split; [lia|]. split; [lia|eauto].
  - contradiction.
Qed.

Lemma steady_try_except {A} (m : M ClientThread A) h :
  steady m -> (forall e, steady (h e)) -> steady (try_except m h).
Proof.
  intros Hm Hh st r st'. unfold try_except.
  destruct (m st) as [[a|e|] st1] eqn:E;
    destruct (Hm _ _ _ E) as (N & L & C & ev1 & T1).
  - intros [= <- <-]. split; [discriminate|]. split; [lia|]. split; [lia|eauto].
  - intro H. destruct (Hh e _ _ _ H) as (N' & L' & C' & ev2 & T2).
    split; [exact N'|]. split; [lia|]. split; [lia|].
    exists (ev1 ++ ev2). now rewrite T2, T1, app_assoc.
  - contradiction.
Qed.

Create HintDb steady.

#[local] Hint Resolve steady_ret steady_raise steady_lift steady_print
  steady_shutdown_client steady_conn_send steady_recv : steady.

Ltac steady_auto :=
  repeat first
    [ apply steady_bind; [|intro]
    | apply steady_try_except; [|intro]
    | solve [auto with steady]
    | solve [apply steady_emit; reflexivity]
    | match goal with
      | |- steady (match ?x with _ => _ end) => destruct x
      | |- steady (if ?x then _ else _) => destruct x
      end ].

(** Four turns are enough for the preamble: every turn that goes on has
    received a byte. *)
Lemma steady_preamble_loop fuel : forall remaining data,
  (Z.to_nat remaining <= fuel)%nat ->
  steady (preamble_loop fuel remaining data).
Proof.
  induction fuel as [|fuel IH]; intros remaining data Hf; cbn [preamble_loop].
  - destruct (Z.gtb_spec remaining 0); [lia|]. steady_auto.
  - destruct (Z.gtb_spec remaining 0); [|steady_auto].
    apply steady_bind; [steady_auto|]. intros [|b raw]; [steady_auto|].
    apply IH. unfold len. simpl length. lia.
Qed.

Lemma steady_validate_preamble : steady validate_preamble.
Proof.
  unfold validate_preamble. apply steady_try_except; [|intro; steady_auto].
  apply steady_bind; [|intro; steady_auto].
  apply steady_preamble_loop. cbn. lia.
Qed.

Lemma steady_read_int32 : steady read_int32.
Proof. unfold read_int32. steady_auto. Qed.

Lemma steady_read_string : steady read_string.
Proof.
  unfold read_string. apply steady_try_except; [|intro; steady_auto].
  apply steady_bind; [apply steady_read_int32|]. intro. steady_auto.
Qed.

(** The payload loop has a turn for every byte that is waiting and one
    more. *)
Lemma payload_loop_steady fuel : forall size data st r st',
  (pending_bytes st < fuel)%nat ->
  payload_loop fuel size data st = (r, st') ->
  r <> OutOfFuel /\
  (pending_bytes st' <= pending_bytes st)%nat /\
  (close_budget st' <= close_budget st)%nat /\
  exists evs, trace st' = trace st ++ evs.
Proof.
  induction fuel as [|fuel IH]; intros size data st r st' Hf; [lia|].
  cbn [payload_loop]. destruct (len data <? size).
  2:{ apply steady_ret. }
  unfold bind at 1.
  destruct (recv _ st) as [[got|e|] st1] eqn:Er;
    destruct (recv_pending _ _ _ _ Er) as (N & C & L & (ev1 & T1) & P).
  - specialize (P got eq_refl). destruct got as [|g0 got'].
    + intro H. destruct (steady_bind _ _ (steady_print _) (fun _ => steady_ret data)
                           _ _ _ H) as (N' & L' & C' & ev2 & T2).
      split; [exact N'|]. split; [lia|]. split; [lia|].
      exists (ev1 ++ ev2). now rewrite T2, T1, app_assoc.
    + intro H. simpl length in P.
      assert (Hlt : (pending_bytes st1 < fuel)%nat) by lia.
      destruct (IH _ _ _ _ _ Hlt H) as (N' & L' & C' & ev2 & T2).
      split; [exact N'|]. split; [lia|]. split; [lia|].
      exists (ev1 ++ ev2). now rewrite T2, T1, app_assoc.
  - intros [= <- <-]. split; [discriminate|]. split; [lia|]. split; [lia|eauto].
  - contradiction.
Qed.

Lemma steady_read_payload size : steady (read_payload size).
Proof.
  destruct size as [n|]; unfold read_payload; [|steady_auto].
  intros st r st' H. apply (payload_loop_steady _ _ _ _ _ _ (Nat.lt_succ_diag_r _) H).
Qed.

Lemma steady_dispatch srv destination data : steady (dispatch srv destination data).
Proof.
  unfold dispatch, dispatch_syscommand, dispatch_handshake, dispatch_unknown,
    dispatch_endpoint.
  destruct (is_destination destination (lit "__syscommand")); [steady_auto|].
  destruct (is_destination destination (lit "__handshake")).
  { apply steady_bind; [|intro; steady_auto]. steady_trivial. }
  destruct (lookup_destination srv destination) as [[d ep]|]; steady_auto.
Qed.

Lemma steady_frame_body srv :
  steady (bind read_string (fun destination =>
          bind read_int32 (fun full_message_size =>
          bind (read_payload full_message_size) (fun data =>
          match data with
          | [] => no_data full_message_size
          | _ => dispatch srv destination data
          end)))).
Proof.
  unfold no_data.
  apply steady_bind; [apply steady_read_string|]. intro.
  apply steady_bind; [apply steady_read_int32|]. intro.
  apply steady_bind; [apply steady_read_payload|]. intros [|b data].
  - steady_auto.
  - apply steady_dispatch.
Qed.

Lemma steady_run_iteration srv : steady (run_iteration srv).
Proof.
  unfold run_iteration, invalid_preamble.
  apply steady_bind; [apply steady_validate_preamble|]. intros [|]; cbn [negb].
  - apply steady_frame_body.
  - steady_auto.
Qed.

Lemma preamble_loop_consumes fuel : forall remaining data st d st',
  preamble_loop fuel remaining data st = (Ok d, st') ->
  (length d + pending_bytes st' = length data + pending_bytes st)%nat.
Proof.
  induction fuel as [|fuel IH]; intros remaining data st d st'; cbn [preamble_loop].
  - destruct (remaining >? 0); [discriminate|]. now intros [= <- <-].
  - destruct (remaining >? 0); [|now intros [= <- <-]].
    intro H. apply bind_ok_inv in H as (raw & st1 & Hr & H).
    destruct (recv_pending _ _ _ _ Hr) as (_ & _ & _ & _ & P). specialize (P raw eq_refl).
    destruct raw as [|b raw]; [discriminate|].
    apply IH in H. rewrite length_app in H. lia.
Qed.

(** An accepted preamble has taken four bytes from the stream. *)
Lemma validate_preamble_consumes st st1 :
  validate_preamble st = (Ok true, st1) ->
  (pending_bytes st1 + 4 = pending_bytes st)%nat.
Proof.
  unfold validate_preamble, try_except. unfold bind at 1.
  destruct (preamble_loop _ _ _ st) as [[d|e|] st0] eqn:El.
  - destruct (bytes_eqb d _Preamble) eqn:Eb; cbn [negb]; intros [= <-].
    apply preamble_loop_consumes in El. apply list_eqb_eq in Eb. subst d.
    cbn in El. lia.
  - unfold bind, print, emit, ret. discriminate.
  - discriminate.
Qed.

(** A turn of the loop that is followed by another has read a preamble. *)
Lemma run_iteration_continue srv st st' :
  run_iteration srv st = (Ok Continue, st') ->
  (pending_bytes st' < pending_bytes st)%nat.
Proof.
  unfold run_iteration. intro H.
  apply bind_ok_inv in H as (ok & st1 & Hv & H).
  destruct ok; cbn [negb] in H.
  - apply validate_preamble_consumes in Hv.
    apply (steady_frame_body srv) in H. lia.
  - unfold invalid_preamble, bind, print, emit, ret, shutdown_client in H.
    cbn [client_running emit_ev] in H.
    destruct (client_running st1); discriminate.
Qed.

Lemma run_loop_steady srv fuel : forall st r st',
  (pending_bytes st < fuel)%nat ->
  run_loop srv fuel st = (r, st') ->
  r <> OutOfFuel /\ (close_budget st' <= close_budget st)%nat.
Proof.
  induction fuel as [|fuel IH]; intros st r st' Hf; [lia|].
  cbn [run_loop]. destruct (client_running st).
  2:{ intros [= <- <-]. split; [discriminate|lia]. }
  unfold bind.
  destruct (run_iteration srv st) as [[fl|e|] st1] eqn:Ei;
    destruct (steady_run_iteration srv _ _ _ Ei) as (N & L & C & _).
  - destruct fl.
    + intro H. apply run_iteration_continue in Ei.
      assert (Hlt : (pending_bytes st1 < fuel)%nat) by lia.
      destruct (IH _ _ _ Hlt H) as (N' & C'). split; [exact N'|lia].
    + intros [= <- <-]. split; [discriminate|lia].
  - intros [= <- <-]. split; [discriminate|lia].
  - contradiction.
Qed.

(** Over a whole run, and any calls of [shutdown_client] that follow it, the
    connection is closed at most once more. *)
Lemma run_close_budget srv st :
  (close_budget (snd (run srv st)) <= close_budget st)%nat.
Proof.
  destruct (run srv st) as [r st'] eqn:E. unfold run in E.
  now destruct (run_loop_steady srv _ _ _ _ (Nat.lt_succ_diag_r _) E).
Qed.

Lemma shutdown_times_budget n : forall st,
  (close_budget (shutdown_times n st) <= close_budget st)%nat.
Proof.
  induction n as [|n IH]; intro st; cbn [shutdown_times]; [lia|].
  destruct (shutdown_client st) as [r st1] eqn:E.
  destruct (steady_shutdown_client _ _ _ E) as (_ & _ & C & _).
  cbn [snd]. specialize (IH st1). lia.
Qed.

(** ** [shutdown_client] is idempotent *)

(** C10. [shutdown_client] is idempotent.  The first call on a running
    handler sets [client_running] to [False] and closes the socket; a call on
    a handler that is not running returns at once and changes nothing.  So
    however many calls follow each other, [conn.close] is invoked once; and
    over a whole [run] and the calls of [shutdown_client] that follow it, the
    connection is closed at most once. *)
Theorem shutdown_client_idempotent st n :
  fst (shutdown_client st) = Ok tt /\
  snd (shutdown_client (snd (shutdown_client st))) = snd (shutdown_client st) /\
  (client_running st = true ->
     snd (shutdown_client st) = closed_client st /\
     client_running (closed_client st) = false /\
     conn_closed (closed_client st) = true /\
     trace (closed_client st) = trace st ++ [EvClose] /\
     shutdown_times (S n) st = closed_client st /\
     close_count (trace (shutdown_times (S n) st)) = S (close_count (trace st))) /\
  (client_running st = false ->
     snd (shutdown_client st) = st /\ shutdown_times n st = st) /\
  (forall srv,
     (close_count (trace (shutdown_times n (snd (run srv st))))
      <= close_count (trace st) + 1)%nat).
Proof.
  assert (Hlife : forall srv,
             (close_count (trace (shutdown_times n (snd (run srv st))))
              <= close_count (trace st) + 1)%nat).
  { intro srv.
    pose proof (shutdown_times_budget n (snd (run srv st))) as H1.
    pose proof (run_close_budget srv st) as H2.
    unfold close_budget in *.
    destruct (client_running st);
      destruct (client_running (snd (run srv st)));
      destruct (client_running (shutdown_times n (snd (run srv st)))); lia. }
  destruct (client_running st) eqn:Hr.
  - rewrite (shutdown_running _ Hr). cbn [fst snd].
    assert (Hs : shutdown_times (S n) st = closed_client st).
    { cbn [shutdown_times]. rewrite (shutdown_running _ Hr).
      now apply shutdown_times_stopped. }
    split; [reflexivity|]. split; [now rewrite shutdown_stopped|].
    split; [|split; [discriminate|exact Hlife]]. intros _. rewrite Hs.
    repeat split. cbn [closed_client trace]. rewrite close_count_app. cbn. lia.
  - rewrite (shutdown_stopped _ Hr). cbn [fst snd].
    rewrite (shutdown_stopped _ Hr). cbn [fst snd].
    split; [reflexivity|]. split; [reflexivity|]. split; [discriminate|].
    split; [|exact Hlife].
    intros _. split; [reflexivity|]. now apply shutdown_times_stopped.
Qed.

Lemma shutdown_client_idempotent_witness :
  shutdown_times 3 (Examples.client []) = closed_client (Examples.client []) /\
  close_count (trace (shutdown_times 3 (Examples.client []))) = 1%nat.
Proof.
  destruct (shutdown_client_idempotent (Examples.client []) 2)
    as (_ & _ & H & _).
  destruct (H eq_refl) as (_ & _ & _ & _ & H1 & H2).
  split; [exact H1 | exact H2].
Defined.

(** ** Frames that arrive whole *)

(** [serialize_message] returns when the destination can be encoded and
    both lengths fit their prefixes. *)
Lemma serialize_message_returns destination m e payload :
  utf8_encode destination = Returns e -> len e < 4294967296 ->
  msg_serialize m = Returns payload -> len payload < 4294967296 ->
  serialize_message destination m
  = Returns ((le32 (len e) ++ e) ++ le32 (len payload) ++ payload).
Proof.
  intros He Hle Hm Hlp. unfold serialize_message, obind, pack_u32.
  rewrite He. cbv zeta.
  assert (0 <= len e /\ 0 <= len payload) as [H1 H2] by (unfold len; lia).
  destruct (Z.leb_spec 0 (len e)); [|lia].
  destruct (Z.ltb_spec (len e) 4294967296); [|lia]. cbn [andb].
  rewrite Hm.
  destruct (Z.leb_spec 0 (len payload)); [|lia].
  destruct (Z.ltb_spec (len payload) 4294967296); [|lia]. reflexivity.
Qed.

(** Every string of Unicode scalar values can be encoded. *)
Lemma utf8_encode_scalar s :
  Forall (fun c => 0 <= c < 1114112 /\ is_surrogate c = false) s ->
  exists e, utf8_encode s = Returns e.
Proof.
  unfold utf8_encode. induction 1 as [|c s [Hc Hs] _ IH]; cbn [utf8_encode_opt].
  - now exists [].
  - destruct (utf8_encode_opt s) as [bs|]; [|destruct IH; discriminate].
    unfold utf8_encode_cp. rewrite Hs.
    destruct (Z.ltb_spec c 0); [lia|].
    destruct (c <? 128); [eauto|]. destruct (c <? 2048); [eauto|].
    destruct (c <? 65536); [eauto|].
    destruct (Z.ltb_spec c 1114112); [eauto|lia].
Qed.

(** An inbound frame that arrives in one piece is read as its destination,
    the length of its payload and its payload. *)
Lemma inbound_frame_read destination m payload enc rest st :
  msg_serialize m = Returns payload ->
  serialize_message destination m = Returns enc ->
  conn_closed st = false -> conn_pending st = (_Preamble ++ enc) :: rest ->
  Forall (fun c : bytes => c <> []) rest ->
  exists st', frame_read st (Some destination) (Some (len payload)) payload st'.
Proof.
  intros Hm Hs Hc Hp Hrest.
  assert (Henc : enc <> []).
  { destruct (serialize_message_inv _ _ _ Hs) as (e & p & pl & q & _ & Hpe & _ & _ & ->).
    apply pack_length in Hpe. destruct p; [discriminate|discriminate]. }
  pose proof (recv_head 4 st _Preamble enc rest Hc Hp eq_refl eq_refl) as Hr.
  set (st1 := emit_ev (EvRecv 4 _Preamble) (set_pending (push_chunk enc rest) st)) in *.
  assert (Hloop : preamble_loop 4 4 [] st = (Ok _Preamble, st1)).
  { cbn [preamble_loop]. change (4 >? 0) with true. cbv iota.
    rewrite (bind_ok _ _ _ _ _ Hr). reflexivity. }
  assert (Hv : validate_preamble st = (Ok true, st1)).
  { unfold validate_preamble, try_except.
    change (preamble_loop (length _Preamble) (len _Preamble) [])
      with (preamble_loop 4 4 []).
    rewrite (bind_ok _ _ _ _ _ Hloop). reflexivity. }
  assert (Hp1 : conn_pending st1 = enc :: rest).
  { cbn. destruct enc; [contradiction|reflexivity]. }
  destruct (serialize_message_inv _ _ _ Hs)
    as (e & p & pl & q & He & Hpe & Hm' & Hq & Hparts).
  rewrite Hm in Hm'. injection Hm' as <-. rewrite Hparts in Hp1.
  destruct (read_fields_parts destination e p payload q rest st1 He Hpe Hq Hc Hp1 Hrest)
    as (st' & Hf & _).
  exists st', st1. split; assumption.
Qed.

(** ** A payload that ends early *)

(** When nothing at all has been read for the payload, the frame is dropped
    and the connection closed: lines 180 to 183. *)
Lemma empty_payload_abandoned srv st destination size st' :
  client_running st = true ->
  frame_read st destination size [] st' ->
  run srv st
  = (Ok tt, closed_client
              (emit_ev (EvPrint (lit "No data for a message size of "
                                 ++ fmt_opt_str (option_map str_of_int size)
                                 ++ lit ", breaking!")) st')).
Proof.
  intros Hr Hf.
  destruct (frame_read_state _ _ _ _ _ Hf) as (_ & Hr' & _). rewrite Hr in Hr'.
  apply (run_returns _ _ _ Hr). rewrite (run_iteration_frame srv _ _ _ _ _ Hf).
  unfold no_data, bind, print, emit, ret.
  rewrite shutdown_running by exact Hr'. reflexivity.
Qed.

Lemma try_emit_first {A} e (m : M ClientThread A) h st :
  try_except (bind (emit e) (fun _ => m)) h st = try_except m h (emit_ev e st).
Proof. reflexivity. Qed.

(** When some bytes have been read and fewer than announced, the endpoint is
    called with them all the same: the first thing the handler does after the
    reads is the call of [send] on what it has. *)
Lemma short_payload_dispatched srv st d size data st' ep :
  frame_read st (Some d) (Some size) data st' -> data <> [] -> len data < size ->
  d <> lit "__syscommand" -> d <> lit "__handshake" ->
  dict_get (source_destination_dict srv) d = Some ep ->
  exists r st'' evs,
    run_iteration srv st = (r, st'') /\
    trace st'' = trace st' ++ EvEndpointSend d data :: evs.
Proof.
  intros Hf Hd _ H1 H2 Hep.
  rewrite (run_iteration_frame srv _ _ _ _ _ Hf).
  destruct data as [|b0 data0]; [contradiction|].
  rewrite (dispatch_registered _ _ _ _ _ H1 H2 Hep).
  set (data := b0 :: data0).
  destruct (dispatch_endpoint d ep data st') as [r st''] eqn:E.
  exists r, st''.
  unfold dispatch_endpoint in E. rewrite try_emit_first in E.
  match type of E with
  | try_except ?m ?h _ = _ => assert (S : steady (try_except m h)) by steady_auto
  end.
  destruct (S _ _ _ E) as (_ & _ & _ & evs & T).
  exists evs. rewrite T. cbn. now rewrite <- app_assoc.
Qed.

(** ** The pieces do not matter to the preamble and to the payload *)

(** Two connections that hold the same bytes, cut differently, accept or
    reject the preamble alike. *)
Lemma preamble_pieces_irrelevant st1 st2 :
  conn_closed st1 = false -> conn_closed st2 = false ->
  nonempty_chunks st1 -> nonempty_chunks st2 ->
  stream st1 = stream st2 -> (4 <= length (stream st1))%nat ->
  fst (validate_preamble st1) = fst (validate_preamble st2).
Proof.
  intros C1 C2 N1 N2 E L.
  destruct (validate_preamble_stream st1 C1 N1 L) as (s1 & H1 & _).
  rewrite E in L.
  destruct (validate_preamble_stream st2 C2 N2 L) as (s2 & H2 & _).
  now rewrite H1, H2, E.
Qed.

(** Two connections that hold the same bytes, cut differently, yield the same
    payload, provided the announced bytes are there. *)
Lemma payload_pieces_irrelevant st1 st2 n :
  conn_closed st1 = false -> conn_closed st2 = false ->
  nonempty_chunks st1 -> nonempty_chunks st2 ->
  stream st1 = stream st2 -> n <= len (stream st1) ->
  fst (read_payload (Some n) st1) = fst (read_payload (Some n) st2) /\
  fst (read_payload (Some n) st1) = Ok (firstn (Z.to_nat n) (stream st1)).
Proof.
  intros C1 C2 N1 N2 E L. unfold read_payload.
  destruct (payload_loop_stream (S (pending_bytes st1)) n [] st1 C1 N1)
    as (s1 & H1 & _).
  { unfold pending_bytes, stream. lia. }
  { unfold len at 1. simpl. lia. }
  destruct (payload_loop_stream (S (pending_bytes st2)) n [] st2 C2 N2)
    as (s2 & H2 & _).
  { unfold pending_bytes, stream. lia. }
  { rewrite <- E. unfold len at 1. simpl. lia. }
  rewrite H1, H2, E. cbn [fst app].
  replace (n - len (@nil byte)) with n by (unfold len; simpl; lia).
  split; reflexivity.
Qed.

(** * Further properties *)

(** ** The preamble, in pieces and cut short *)

(** X1. On an open connection that holds at least four bytes,
    [validate_preamble] returns whether the next four bytes are the
    preamble, however the transport cuts them: it gathers them over as many
    reads as it takes, consumes exactly these four bytes and does nothing
    but read. *)
Theorem validate_preamble_any_pieces st :
  conn_closed st = false -> nonempty_chunks st ->
  (4 <= length (stream st))%nat ->
  exists st' evs,
    validate_preamble st
      = (Ok (bytes_eqb (firstn 4 (stream st)) _Preamble), st') /\
    stream st = firstn 4 (stream st) ++ stream st' /\
    conn_closed st' = false /\ client_running st' = client_running st /\
    trace st' = trace st ++ evs /\ quiet evs = true /\
    received evs = firstn 4 (stream st).
Proof.
  intros Hc Hne Hl.
  destruct (validate_preamble_stream st Hc Hne Hl) as (st' & Hv & _ & R).
  destruct R as (R1 & _ & R3 & _ & R5 & evs & T & Q & Rv).
  exists st', evs. repeat split; try assumption. congruence.
Qed.

Lemma validate_preamble_any_pieces_witness :
  exists st' evs,
    validate_preamble (with_piece [254] [[237; 240]; [13; 1; 0]])
      = (Ok true, st') /\
    [254; 237; 240; 13; 1; 0] = [254; 237; 240; 13] ++ stream st' /\
    conn_closed st' = false /\ client_running st' = true /\
    trace st' = [] ++ evs /\ quiet evs = true /\
    received evs = [254; 237; 240; 13].
Proof.
  apply (validate_preamble_any_pieces (with_piece [254] [[237; 240]; [13; 1; 0]])).
  - reflexivity.
  - repeat constructor; discriminate.
  - cbn. lia.
Defined.

Lemma nonempty_stream_nil st :
  nonempty_chunks st -> stream st = [] -> conn_pending st = [].
Proof.
  unfold nonempty_chunks, stream. destruct (conn_pending st) as [|c cs]; [reflexivity|].
  intros H E. inversion H as [|? ? Hc _]; subst. destruct c; [contradiction|discriminate].
Qed.

(** When the stream ends before the bytes asked for, the preamble loop takes
    what there is and raises on the read that returns nothing. *)
Lemma preamble_loop_short fuel : forall remaining data st,
  conn_closed st = false -> nonempty_chunks st ->
  (Z.to_nat remaining <= fuel)%nat ->
  (length (stream st) < Z.to_nat remaining)%nat ->
  exists st' evs,
    preamble_loop fuel remaining data st = (Exc connection_closed_exn, st') /\
    conn_pending st' = [] /\
    conn_closed st' = false /\ client_running st' = client_running st /\
    trace st' = trace st ++ evs /\ quiet evs = true /\
    received evs = stream st.
Proof.
  induction fuel as [|fuel IH]; intros remaining data st Hc Hne Hf Hl; [lia|].
  cbn [preamble_loop]. destruct (Z.gtb_spec remaining 0) as [Hpos|]; [|lia].
  destruct (stream st) as [|x xs] eqn:Es.
  - pose proof (nonempty_stream_nil st Hne Es) as Hp.
    unfold bind. rewrite recv_eq, Hc, Hp.
    destruct (Z.ltb_spec remaining 0); [lia|]. cbv zeta.
    destruct (Z.to_nat remaining) as [|k] eqn:Ek; [lia|]. cbn [take_chunk fst snd].
    eexists. exists [EvRecv remaining []]. split; [reflexivity|]. now cbn.
  - assert (Hs : stream st <> []) by (rewrite Es; discriminate).
    destruct (recv_stream remaining st Hc Hne ltac:(lia) Hs)
      as (got & st1 & Hr & Hg & Hlen & Hne1 & R).
    rewrite (bind_ok _ _ _ _ _ Hr).
    destruct got as [|g0 got']; [contradiction|].
    set (got := g0 :: got') in *.
    destruct R as (R1 & _ & R3 & _ & R5 & ev1 & T1 & Q1 & Rv1).
    rewrite Es in R5.
    assert (Hg1 : (0 < length got)%nat) by (subst got; simpl; lia).
    assert (Hlen1 : length (x :: xs) = (length got + length (stream st1))%nat)
      by (rewrite R5; apply length_app).
    destruct (IH (remaining - len got) (data ++ got) st1) as (st' & ev2 & H & Hp & Hc' & Hr' & T2 & Q2 & Rv2).
    + congruence.
    + exact Hne1.
    + unfold len. lia.
    + unfold len. lia.
    + exists st', (ev1 ++ ev2). split; [exact H|].
      repeat split; try congruence.
      * now rewrite T2, T1, app_assoc.
      * now rewrite quiet_app, Q1, Q2.
      * now rewrite received_app, Rv1, Rv2, R5.
Qed.

Lemma run_short_preamble srv st :
  client_running st = true -> conn_closed st = false -> nonempty_chunks st ->
  (length (stream st) < 4)%nat ->
  exists st' evs,
    run srv st = (Ok tt, st') /\
    conn_closed st' = true /\ client_running st' = false /\
    conn_pending st' = [] /\
    trace st' = trace st ++ evs
      ++ [EvPrint (lit "Unable to read preamble from connection. TCP connection closed!");
          EvPrint (lit "Invalid preamble from connection, closing connection!");
          EvClose] /\
    quiet evs = true /\ received evs = stream st.
Proof.
  intros Hr Hc Hne Hl.
  destruct (preamble_loop_short (length _Preamble) (len _Preamble) [] st Hc Hne)
    as (st1 & evs & Hloop & Hp & Hc1 & Hr1 & T & Q & Rv); try (cbn; lia).
  assert (Hv : validate_preamble st
               = (Ok false, emit_ev (EvPrint (lit "Unable to read preamble from connection. TCP connection closed!")) st1)).
  { unfold validate_preamble, try_except. rewrite (bind_exc _ _ _ _ _ Hloop).
    reflexivity. }
  pose proof (run_iteration_invalid srv _ _ Hv) as Hi.
  unfold invalid_preamble, bind, print, emit, ret in Hi.
  rewrite shutdown_running in Hi by (cbn; congruence).
  eexists. exists evs. split; [exact (run_returns _ _ _ Hr Hi)|].
  cbn. repeat split; try assumption.
  rewrite T, <- !app_assoc. reflexivity.
Qed.

(** X2. A connection that ends before four bytes have arrived is shut down:
    [run] reads what there is, finds the preamble unreadable, closes the
    connection and returns, and nothing is dispatched. *)
Theorem short_preamble_closes srv st :
  client_running st = true -> conn_closed st = false -> nonempty_chunks st ->
  (length (stream st) < 4)%nat ->
  exists st' evs,
    run srv st = (Ok tt, st') /\
    conn_closed st' = true /\ client_running st' = false /\
    conn_pending st' = [] /\
    trace st' = trace st ++ evs
      ++ [EvPrint (lit "Unable to read preamble from connection. TCP connection closed!");
          EvPrint (lit "Invalid preamble from connection, closing connection!");
          EvClose] /\
    quiet evs = true /\ received evs = stream st.
Proof. exact (run_short_preamble srv st). Qed.

Lemma short_preamble_closes_witness :
  exists st' evs,
    run Examples.server (Examples.client [[254; 237]; [240]]) = (Ok tt, st') /\
    conn_closed st' = true /\ client_running st' = false /\
    conn_pending st' = [] /\
    trace st' = [] ++ evs
      ++ [EvPrint (lit "Unable to read preamble from connection. TCP connection closed!");
          EvPrint (lit "Invalid preamble from connection, closing connection!");
          EvClose] /\
    quiet evs = true /\ received evs = [254; 237; 240].
Proof.
  apply (short_preamble_closes Examples.server (Examples.client [[254; 237]; [240]])).
  - reflexivity.
  - reflexivity.
  - repeat constructor; discriminate.
  - cbn. lia.
Defined.

(** ** The payload loop *)

(** X3. When the stream holds the announced [n] bytes, the payload loop
    returns exactly the next [n] bytes, however the transport cuts them and
    however many reads of at most 1024 bytes that takes, and leaves what
    follows in the stream. *)
Theorem payload_any_pieces st n :
  conn_closed st = false -> nonempty_chunks st ->
  0 <= n <= len (stream st) ->
  exists st' evs,
    read_payload (Some n) st = (Ok (firstn (Z.to_nat n) (stream st)), st') /\
    stream st' = skipn (Z.to_nat n) (stream st) /\
    trace st' = trace st ++ evs /\ quiet evs = true /\
    received evs = firstn (Z.to_nat n) (stream st).
Proof.
  intros Hc Hne Hn.
  set (payload := firstn (Z.to_nat n) (stream st)).
  assert (Hlen : len payload = n).
  { unfold len, payload in *. rewrite length_firstn. lia. }
  assert (Hs : stream st = payload ++ skipn (Z.to_nat n) (stream st))
    by (symmetry; apply firstn_skipn).
  destruct (read_payload_stream st payload _ Hc Hne Hs) as (st' & Hr & Hs' & _ & R).
  rewrite Hlen in Hr.
  destruct R as (_ & _ & _ & _ & _ & evs & T & Q & Rv).
  exists st', evs. repeat split; assumption.
Qed.

Lemma payload_any_pieces_witness :
  exists st' evs,
    read_payload (Some 3) (with_piece [1] [[2]; [3; 4]])
      = (Ok [1; 2; 3], st') /\
    stream st' = [4] /\
    trace st' = [] ++ evs /\ quiet evs = true /\ received evs = [1; 2; 3].
Proof.
  apply (payload_any_pieces (with_piece [1] [[2]; [3; 4]]) 3).
  - reflexivity.
  - repeat constructor; discriminate.
  - cbn. lia.
Defined.

Lemma take_chunk_length n p : (length (fst (take_chunk n p)) <= n)%nat.
Proof.
  unfold take_chunk. destruct n as [|n]; [simpl; lia|].
  destruct p as [|c cs]; [simpl; lia|]. cbn [fst]. rewrite length_firstn. lia.
Qed.

(** A read on behalf of the payload loop. *)
Lemma recv_small n st r st' :
  0 < n <= 1024 -> recv n st = (r, st') ->
  (forall got, r = Ok got -> len got <= n) /\
  exists e, trace st' = trace st ++ [e] /\ small_read e = true.
Proof.
  intros Hn. rewrite recv_eq.
  assert (Hb : (0 <? n) && (n <=? 1024) = true).
  { apply andb_true_iff. split; [apply Z.ltb_lt|apply Z.leb_le]; lia. }
  destruct (conn_closed st); [|destruct (Z.ltb_spec n 0)]; cbv zeta;
    intros [= <- <-].
  - split; [discriminate|]. exists (EvRecvError n). now cbn.
  - lia.
  - pose proof (take_chunk_length (Z.to_nat n) (conn_pending st)) as L.
    assert (Hl : len (fst (take_chunk (Z.to_nat n) (conn_pending st))) <= n)
      by (unfold len; lia).
    split; [now intros got [= <-]|].
    eexists. split; [reflexivity|]. cbn [small_read].
    rewrite Hb. cbn. now apply Z.leb_le.
Qed.

Lemma payload_loop_bounded fuel : forall n data st r st',
  payload_loop fuel n data st = (r, st') ->
  (forall d, r = Ok d -> len d <= Z.max n (len data)) /\
  exists evs, trace st' = trace st ++ evs /\ forallb small_read evs = true.
Proof.
  induction fuel as [|fuel IH]; intros n data st r st'; cbn [payload_loop].
  - destruct (Z.ltb_spec (len data) n).
    + intros [= <- <-]. split; [discriminate|]. exists []. now rewrite app_nil_r.
    + intros [= <- <-]. split; [intros d [= <-]; lia|].
      exists []. now rewrite app_nil_r.
  - destruct (Z.ltb_spec (len data) n) as [Hlt|Hge].
    2:{ intros [= <- <-]. split; [intros d [= <-]; lia|].
        exists []. now rewrite app_nil_r. }
    set (grab := if n - len data >? 1024 then 1024 else n - len data).
    assert (Hgrab : 0 < grab <= 1024 /\ grab <= n - len data).
    { subst grab. destruct (Z.gtb_spec (n - len data) 1024); lia. }
    unfold bind at 1.
    destruct (recv grab st) as [[got|e|] st1] eqn:Er;
      destruct (recv_small grab st _ _ (proj1 Hgrab) Er)
        as (Hl & ev & T1 & S1).
    + specialize (Hl got eq_refl). destruct got as [|g0 got'].
      * unfold bind, print, emit, ret. intros [= <- <-].
        split; [intros d [= <-]; lia|].
        exists [ev; EvPrint (lit "No packets...")]. cbn [trace emit_ev].
        rewrite T1, <- app_assoc. split; [reflexivity|]. cbn. now rewrite S1.
      * intro H. destruct (IH _ _ _ _ _ H) as (Hd & ev2 & T2 & S2).
        split.
        -- intros d Ed. specialize (Hd d Ed). rewrite len_app in Hd. lia.
        -- exists (ev :: ev2). rewrite T2, T1, <- app_assoc.
           split; [reflexivity|]. cbn. now rewrite S1, S2.
    + intros [= <- <-]. split; [discriminate|].
      exists [ev]. split; [exact T1|]. cbn. now rewrite S1.
    + intros [= <- <-]. split; [discriminate|].
      exists [ev]. split; [exact T1|]. cbn. now rewrite S1.
Qed.

(** X4. The payload loop never takes more than was announced: the data it
    returns is no longer than [full_message_size], so it does not reach into
    the frame that follows, and each of its reads asks for between 1 and
    1024 bytes. *)
Theorem read_payload_bounded n st :
  (forall d, fst (read_payload (Some n) st) = Ok d -> len d <= Z.max n 0) /\
  exists evs,
    trace (snd (read_payload (Some n) st)) = trace st ++ evs /\
    forallb small_read evs = true.
Proof.
  unfold read_payload.
  destruct (payload_loop (S (pending_bytes st)) n [] st) as [r st'] eqn:E.
  destruct (payload_loop_bounded _ _ _ _ _ _ E) as (Hd & Hev).
  split; [|exact Hev]. intros d Ed. exact (Hd d Ed).
Qed.

(** ** The readers of the fields *)

Lemma try_except_ok {A} (m : M ClientThread A) h st :
  steady (try_except m h) ->
  (forall e s, exists a s', h e s = (Ok a, s')) ->
  exists a st', try_except m h st = (Ok a, st').
Proof.
  intros Hs Hh. destruct (try_except m h st) as [r st'] eqn:E.
  pose proof (proj1 (Hs _ _ _ E)) as N. unfold try_except in E.
  destruct (m st) as [[a|e|] s].
  - injection E as <- <-. eauto.
  - destruct (Hh e s) as (a & s' & H). rewrite H in E. injection E as <- <-. eauto.
  - injection E as <- <-. contradiction.
Qed.

(** X5. [validate_preamble], [read_int32] and [read_string] never raise:
    whatever the connection does, also when it is closed or ends in the
    middle of a field, each returns a value ([False] or [None] after an
    exception, which it prints). *)
Theorem readers_never_raise st :
  (exists b st', validate_preamble st = (Ok b, st')) /\
  (exists v st', read_int32 st = (Ok v, st')) /\
  (exists v st', read_string st = (Ok v, st')).
Proof.
  split; [|split].
  - apply try_except_ok; [exact steady_validate_preamble|].
    intros e s. unfold bind, print, emit, ret. eauto.
  - apply try_except_ok; [exact steady_read_int32|].
    intros e s. unfold bind, print, emit, ret. eauto.
  - apply try_except_ok; [exact steady_read_string|].
    intros e s. unfold bind, print, emit, ret. eauto.
Qed.

Lemma unpack_u32_short c : (length c < 4)%nat -> exists e, unpack_u32 c = Raises e.
Proof.
  intro H. unfold unpack_u32.
  destruct c as [|a [|b [|x [|y [|z c]]]]]; simpl in H; try lia; eauto.
Qed.

(** X6. [read_int32] on an open connection.  When the first piece starts
    with the four bytes [struct.pack('<I', n)] makes of [n], it returns [n]
    and takes exactly these four bytes.  When the first piece is shorter
    than four bytes, or nothing is left, it returns [None]; the short piece
    is consumed all the same. *)
Theorem read_int32_value st :
  conn_closed st = false ->
  (forall n p tail cs,
     pack_u32 n = Returns p -> conn_pending st = (p ++ tail) :: cs ->
     fst (read_int32 st) = Ok (Some n) /\
     conn_pending (snd (read_int32 st)) = push_chunk tail cs) /\
  (forall c cs,
     conn_pending st = c :: cs -> (length c < 4)%nat ->
     fst (read_int32 st) = Ok None /\
     conn_pending (snd (read_int32 st)) = cs) /\
  (conn_pending st = [] -> fst (read_int32 st) = Ok None).
Proof.
  intro Hc. split; [|split].
  - intros n p tail cs Hp Hpend.
    destruct (read_int32_head st n p tail cs Hc Hpend Hp) as (st' & H & _ & Hp').
    now rewrite H.
  - intros c cs Hpend Hl.
    destruct (unpack_u32_short c Hl) as [e He].
    assert (Hrecv : recv 4 st = (Ok c, emit_ev (EvRecv 4 c) (set_pending cs st))).
    { rewrite recv_eq, Hc, Hpend. change (4 <? 0) with false. cbv iota zeta.
      change (take_chunk (Z.to_nat 4) (c :: cs))
        with (firstn 4 c, push_chunk (skipn 4 c) cs).
      rewrite firstn_all2 by lia. rewrite skipn_all2 by lia. reflexivity. }
    unfold read_int32, try_except. rewrite (bind_ok _ _ _ _ _ Hrecv).
    cbv beta iota delta [bind lift]. rewrite He. now cbn.
  - intro Hpend.
    assert (Hrecv : recv 4 st = (Ok [], emit_ev (EvRecv 4 []) (set_pending [] st))).
    { rewrite recv_eq, Hc, Hpend. reflexivity. }
    unfold read_int32, try_except. rewrite (bind_ok _ _ _ _ _ Hrecv). reflexivity.
Qed.

Lemma read_int32_value_witness :
  (fst (read_int32 (with_piece [44; 1; 0; 0; 9] [])) = Ok (Some 300) /\
   conn_pending (snd (read_int32 (with_piece [44; 1; 0; 0; 9] []))) = [[9]]) /\
  (fst (read_int32 (with_piece [44; 1] [[0; 0]])) = Ok None /\
   conn_pending (snd (read_int32 (with_piece [44; 1] [[0; 0]]))) = [[0; 0]]).
Proof.
  split.
  - apply (proj1 (read_int32_value (with_piece [44; 1; 0; 0; 9] []) eq_refl)
             300 [44; 1; 0; 0] [9] []); reflexivity.
  - apply (proj1 (proj2 (read_int32_value (with_piece [44; 1] [[0; 0]]) eq_refl))
             [44; 1] [[0; 0]]); [reflexivity|cbn; lia].
Defined.

(** X7. [read_string] on bytes that are not UTF-8.  When the length prefix
    and the announced bytes arrive in the first piece and the bytes do not
    decode, [read_string] returns [None] instead of raising and has consumed
    the prefix and the bytes, so that the field that follows is read from
    its start. *)
Theorem read_string_undecodable st e p tail cs x :
  conn_closed st = false ->
  pack_u32 (len e) = Returns p -> utf8_decode e = Raises x ->
  conn_pending st = (p ++ e ++ tail) :: cs ->
  fst (read_string st) = Ok None /\
  conn_pending (snd (read_string st)) = push_chunk tail cs.
Proof.
  intros Hc Hp Hd Hpend.
  destruct (read_int32_head st (len e) p (e ++ tail) cs Hc Hpend Hp)
    as (st1 & Hr & Hc1 & Hp1).
  assert (He : e <> []) by (intros ->; discriminate).
  assert (Hp1' : conn_pending st1 = (e ++ tail) :: cs).
  { rewrite Hp1. destruct e; [contradiction|reflexivity]. }
  assert (Hl : 0 < len e) by (unfold len; destruct e; [contradiction|simpl length; lia]).
  unfold read_string, try_except. rewrite (bind_ok _ _ _ _ _ Hr).
  rewrite (bind_ok _ _ _ _ _ (recv_head _ st1 e tail cs Hc1 Hp1' eq_refl Hl)).
  cbv beta iota delta [bind lift]. rewrite Hd. now cbn.
Qed.

Lemma read_string_undecodable_witness :
  fst (read_string (with_piece [1; 0; 0; 0; 255; 7] [])) = Ok None /\
  conn_pending (snd (read_string (with_piece [1; 0; 0; 0; 255; 7] []))) = [[7]].
Proof.
  apply (read_string_undecodable (with_piece [1; 0; 0; 0; 255; 7] [])
           [255] [1; 0; 0; 0] [7] [] unicode_decode_error); reflexivity.
Defined.

(** ** What [serialize_message] returns *)

Lemma app_inj_length {A} (a c b d : list A) :
  length a = length c -> a ++ b = c ++ d -> a = c /\ b = d.
Proof.
  revert c. induction a as [|x a IH]; intros [|y c] Hl H; try discriminate.
  - now split.
  - cbn in H. injection H as -> H. cbn in Hl.
    destruct (IH c ltac:(lia) H) as (-> & ->). now split.
Qed.

(** X8. The frames of [serialize_message] delimit themselves.  When two
    frames are each followed by further bytes and the two byte strings are
    the same, the frames are the same, they carry the same destination and
    the same serialized message, and the bytes that follow are the same: a
    reader of a stream of frames can never take the end of one frame for
    another place, nor read one message for another. *)
Theorem frames_self_delimiting d1 m1 d2 m2 enc1 enc2 r1 r2 :
  serialize_message d1 m1 = Returns enc1 ->
  serialize_message d2 m2 = Returns enc2 ->
  enc1 ++ r1 = enc2 ++ r2 ->
  d1 = d2 /\ msg_serialize m1 = msg_serialize m2 /\ enc1 = enc2 /\ r1 = r2.
Proof.
  intros H1 H2 Heq.
  destruct (serialize_message_inv _ _ _ H1)
    as (e1 & p1 & l1 & q1 & He1 & Hp1 & Hm1 & Hq1 & ->).
  destruct (serialize_message_inv _ _ _ H2)
    as (e2 & p2 & l2 & q2 & He2 & Hp2 & Hm2 & Hq2 & ->).
  rewrite <- !app_assoc in Heq.
  apply app_inj_length in Heq as (Hp & Heq);
    [|now rewrite (pack_length _ _ Hp1), (pack_length _ _ Hp2)].
  subst p2. apply unpack_pack in Hp1, Hp2.
  assert (Hle : len e1 = len e2) by congruence.
  apply app_inj_length in Heq as (He & Heq); [|unfold len in Hle; lia].
  subst e2. apply utf8_decode_encode in He1, He2.
  apply app_inj_length in Heq as (Hq & Heq);
    [|now rewrite (pack_length _ _ Hq1), (pack_length _ _ Hq2)].
  subst q2. apply unpack_pack in Hq1, Hq2.
  assert (Hll : len l1 = len l2) by congruence.
  apply app_inj_length in Heq as (Hl & Heq); [|unfold len in Hll; lia].
  subst l2. repeat split; congruence.
Qed.

(** Two frames, one after the other, and the same bytes taken as a frame for
    some destination and message followed by some rest. *)
Lemma frames_self_delimiting_witness :
  let m := mkMessage (Returns [1]) in
  let first := le32 1 ++ lit "a" ++ le32 1 ++ [1] in
  let second := le32 1 ++ lit "b" ++ le32 1 ++ [2] in
  lit "a" = lit "a" /\ msg_serialize m = msg_serialize m /\
  first = first /\ second = second.
Proof.
  intros m first second.
  apply (frames_self_delimiting (lit "a") m (lit "a") m first first second second);
    reflexivity.
Defined.

(** ** The control frames and the replies *)

Lemma dispatch_syscommand_eq srv data st :
  dispatch srv (Some (lit "__syscommand")) data st = dispatch_syscommand srv data st.
Proof. reflexivity. Qed.

(** X9. A frame for [__syscommand] with a payload that is not empty is
    handed to [handle_syscommand] and to nothing else: the registry is not
    looked at and no endpoint is called, nothing is written back, and when
    the command returns the connection is closed and [run] returns.  When
    the command raises, the exception leaves [run]. *)
Theorem syscommand_single_shot srv st size data st' :
  client_running st = true ->
  frame_read st (Some (lit "__syscommand")) size data st' -> data <> [] ->
  (handle_syscommand srv data = Returns tt ->
   run srv st = (Ok tt, closed_client (emit_ev (EvSyscommand data) st'))) /\
  (forall e, handle_syscommand srv data = Raises e ->
   run srv st = (Exc e, emit_ev (EvSyscommand data) st')).
Proof.
  intros Hr Hf Hd.
  destruct (frame_read_state _ _ _ _ _ Hf) as (_ & Hr' & _). rewrite Hr in Hr'.
  pose proof (run_iteration_frame srv _ _ _ _ _ Hf) as Hi.
  destruct data as [|b0 data0]; [contradiction|].
  rewrite dispatch_syscommand_eq in Hi. unfold dispatch_syscommand in Hi.
  cbv beta iota delta [bind emit lift ret] in Hi.
  split.
  - intro H. apply (run_returns _ _ _ Hr). rewrite Hi, H. cbv beta iota.
    rewrite shutdown_running by exact Hr'. reflexivity.
  - intros e H. apply (run_raises _ _ _ _ Hr). rewrite Hi, H. reflexivity.
Qed.

Lemma syscommand_single_shot_witness :
  let st := Examples.client [Examples.frame (lit "__syscommand") [1]] in
  run Examples.server st
  = (Ok tt, closed_client (emit_ev (EvSyscommand [1]) (after_frame st))).
Proof.
  intro st.
  refine (proj1 (syscommand_single_shot Examples.server st (Some 1) [1]
                   (after_frame st) eq_refl _ _) eq_refl).
  - apply frame_read_eval; vm_compute; reflexivity.
  - differ.
Defined.

(** The turns [run] is given do not matter once they are enough. *)
Lemma run_loop_fuel srv f : forall f' st,
  (pending_bytes st < f)%nat -> (pending_bytes st < f')%nat ->
  run_loop srv f st = run_loop srv f' st.
Proof.
  induction f as [|f IH]; intros f' st Hf Hf'; [lia|].
  destruct f' as [|f']; [lia|]. cbn [run_loop].
  destruct (client_running st); [|reflexivity].
  unfold bind. destruct (run_iteration srv st) as [[[|]|e|] st1] eqn:Ei; try reflexivity.
  apply run_iteration_continue in Ei. apply IH; lia.
Qed.

(** After a turn that goes on, [run] does what a run started in the state
    reached would do. *)
Lemma run_after_continue srv st st' :
  client_running st = true ->
  run_iteration srv st = (Ok Continue, st') -> run srv st = run srv st'.
Proof.
  intros Hr Hi. unfold run.
  transitivity (run_loop srv (pending_bytes st) st').
  - cbn [run_loop]. rewrite Hr. now rewrite (bind_ok _ _ _ _ _ Hi).
  - apply run_iteration_continue in Hi. apply run_loop_fuel; lia.
Qed.

(** X11. When the peer closes its side after the bytes it has sent, which
    is what the end of [conn_pending] stands for, and the calls into the
    server and the endpoints return or raise, [run] returns or raises.  The
    loops of lines 56, 158 and 169 cannot turn for ever: a read at the end
    of the stream returns nothing, on which the inner loops stop, and every
    turn of [while self.client_running] that goes on has used up bytes of
    the stream.  The number of turns the model grants plays no part: any
    number above the bytes on their way gives the same run.  A peer that
    stays silent without closing keeps the handler waiting in [recv]; that
    connection has no state here and the theorem says nothing of it. *)
Theorem run_ends srv st :
  (exists r st', run srv st = (r, st') /\ r <> OutOfFuel) /\
  (forall st1, run_iteration srv st = (Ok Continue, st1) ->
     (pending_bytes st1 < pending_bytes st)%nat) /\
  (forall fuel, (pending_bytes st < fuel)%nat -> run_loop srv fuel st = run srv st).
Proof.
  split; [|split].
  - destruct (run srv st) as [r st'] eqn:E. exists r, st'. split; [reflexivity|].
    unfold run in E.
    now destruct (run_loop_steady srv _ _ _ _ (Nat.lt_succ_diag_r _) E).
  - intros st1 H. exact (run_iteration_continue srv st st1 H).
  - intros fuel H. unfold run. apply run_loop_fuel; [exact H|lia].
Qed.

Lemma endpoint_continue srv st d size data st' ep :
  client_running st = true ->
  frame_read st (Some d) size data st' -> data <> [] ->
  d <> lit "__syscommand" -> d <> lit "__handshake" ->
  dict_get (source_destination_dict srv) d = Some ep ->
  (ep data = Returns None ->
   run srv st = run srv (emit_ev (EvEndpointSend d data) st')) /\
  (forall r b,
     ep data = Returns (Some r) -> serialize_message d r = Returns b ->
     conn_send_failure st = None ->
     run srv st
     = run srv (emit_ev (EvConnSend b) (emit_ev (EvEndpointSend d data) st'))).
Proof.
  intros Hr Hf Hd H1 H2 Hep.
  destruct (frame_read_state _ _ _ _ _ Hf) as (Hc' & _ & Hs' & _).
  pose proof (run_iteration_frame srv _ _ _ _ _ Hf) as Hi.
  destruct data as [|b0 data0]; [contradiction|].
  rewrite (dispatch_registered _ _ _ _ _ H1 H2 Hep) in Hi.
  set (data := b0 :: data0) in *.
  split.
  - intro He. apply (run_after_continue _ _ _ Hr). rewrite Hi.
    cbv beta iota delta [dispatch_endpoint try_except bind emit lift ret].
    rewrite He. reflexivity.
  - intros r b He Hse Hok. apply (run_after_continue _ _ _ Hr). rewrite Hi.
    cbv beta iota delta [dispatch_endpoint try_except bind emit lift ret conn_send].
    rewrite He. cbv beta iota. rewrite Hse. cbv beta iota.
    cbn [conn_closed emit_ev conn_send_failure]. rewrite Hc', Hs', Hok.
    reflexivity.
Qed.

(** X10. A frame has been read for a registered endpoint and [send]
    returns.  When it returns [None] nothing is written; when it returns a
    response, the response is written back under the same destination name
    in the outbound format.  Either way the connection stays open and [run]
    goes on with the frame that follows, as a run started there would. *)
Theorem endpoint_reply_continues srv st d size data st' ep :
  client_running st = true ->
  frame_read st (Some d) size data st' -> data <> [] ->
  d <> lit "__syscommand" -> d <> lit "__handshake" ->
  dict_get (source_destination_dict srv) d = Some ep ->
  (ep data = Returns None ->
   run srv st = run srv (emit_ev (EvEndpointSend d data) st')) /\
  (forall r b,
     ep data = Returns (Some r) -> serialize_message d r = Returns b ->
     conn_send_failure st = None ->
     run srv st
     = run srv (emit_ev (EvConnSend b) (emit_ev (EvEndpointSend d data) st'))).
Proof. exact (endpoint_continue srv st d size data st' ep). Qed.

Lemma endpoint_reply_continues_witness :
  let st := Examples.client [Examples.frame (lit "b") [7]; Examples.frame (lit "a") [8]] in
  run Examples.server st
  = run Examples.server
      (emit_ev (EvConnSend (le32 1 ++ lit "b" ++ le32 1 ++ [7]))
         (emit_ev (EvEndpointSend (lit "b") [7]) (after_frame st))) /\
  filter is_dispatch (trace (snd (run Examples.server st)))
  = [EvEndpointSend (lit "b") [7]; EvEndpointSend (lit "a") [8]].
Proof.
  intro st. split.
  - refine (proj2 (endpoint_reply_continues Examples.server st (lit "b") (Some 1) [7]
                     (after_frame st) Examples.service eq_refl _ _ _ _ eq_refl)
                  (mkMessage (Returns [7])) _ eq_refl _ eq_refl).
    + apply frame_read_eval; vm_compute; reflexivity.
    + differ.
    + differ.
    + differ.
    + vm_compute. reflexivity.
  - vm_compute. reflexivity.
Defined.

(** ** How a run ends *)

Lemma orderly_refl st : orderly st st.
Proof.
  split; [reflexivity|]. split; [now intro|]. intro H. right. now split.
Qed.

Lemma orderly_trans a b c : orderly a b -> orderly b c -> orderly a c.
Proof.
  intros (B1 & R1 & S1) (B2 & R2 & S2). split; [congruence|]. split.
  - intro H. destruct (R2 H) as (Hb & Hc). destruct (R1 Hb) as (Ha & Hc').
    split; congruence.
  - intro H. destruct (S2 H) as [Hc | (Hb & Hc)]; [now left|].
    destruct (S1 Hb) as [Hc' | (Ha & Hc')]; [left|right; split]; congruence.
Qed.

Lemma orderly_emit e st : is_close e = false -> orderly st (emit_ev e st).
Proof.
  intro H. split; [now apply close_budget_emit|]. cbn. split; auto.
Qed.

Lemma orderly_closed st : client_running st = true -> orderly st (closed_client st).
Proof.
  intro H. split; [now apply close_budget_closed|]. cbn. split; [discriminate|auto].
Qed.

Lemma keeps_order_ret {A} (a : A) : keeps_order (ret a).
Proof. intros st r st' [= <- <-]. apply orderly_refl. Qed.

Lemma keeps_order_raise {A} e : keeps_order (@raise _ A e).
Proof. intros st r st' [= <- <-]. apply orderly_refl. Qed.

Lemma keeps_order_starve {A} : keeps_order (@starve _ A).
Proof. intros st r st' [= <- <-]. apply orderly_refl. Qed.

Lemma keeps_order_lift {A} (o : outcome A) : keeps_order (lift o).
Proof.
  intros st r st'. unfold lift. destruct o; intros [= <- <-]; apply orderly_refl.
Qed.

Lemma keeps_order_emit e : is_close e = false -> keeps_order (emit e).
Proof. intros H st r st' [= <- <-]. now apply orderly_emit. Qed.

Lemma keeps_order_print t : keeps_order (print t).
Proof. now apply keeps_order_emit. Qed.

Lemma keeps_order_shutdown_client : keeps_order shutdown_client.
Proof.
  intros st r st'. unfold shutdown_client.
  destruct (client_running st) eqn:E; intros [= <- <-].
  - now apply orderly_closed.
  - apply orderly_refl.
Qed.

Lemma keeps_order_conn_send b : keeps_order (conn_send b).
Proof.
  intros st r st'. unfold conn_send.
  destruct (conn_closed st); [|destruct (conn_send_failure st)];
    intros [= <- <-]; now apply orderly_emit.
Qed.

Lemma keeps_order_recv n : keeps_order (recv n).
Proof.
  intros st r st'. rewrite recv_eq.
  destruct (conn_closed st); [|destruct (n <? 0)]; cbv zeta;
    intros [= <- <-]; try (now apply orderly_emit).
  eapply orderly_trans; [|now apply orderly_emit].
  split; [reflexivity|]. cbn. split; auto.
Qed.

Lemma keeps_order_bind {A B} (m : M ClientThread A) (k : A -> M ClientThread B) :
  keeps_order m -> (forall a, keeps_order (k a)) -> keeps_order (bind m k).
Proof.
  intros Hm Hk st r st'. unfold bind.
  destruct (m st) as [[a|e|] st1] eqn:E; pose proof (Hm _ _ _ E) as O1.
  - intro H. eapply orderly_trans; [exact O1|exact (Hk a _ _ _ H)].
  - now intros [= <- <-].
  - now intros [= <- <-].
Qed.

Lemma keeps_order_try_except {A} (m : M ClientThread A) h :
  keeps_order m -> (forall e, keeps_order (h e)) -> keeps_order (try_except m h).
Proof.
  intros Hm Hh st r st'. unfold try_except.
  destruct (m st) as [[a|e|] st1] eqn:E; pose proof (Hm _ _ _ E) as O1.
  - now intros [= <- <-].
  - intro H. eapply orderly_trans; [exact O1|exact (Hh e _ _ _ H)].
  - now intros [= <- <-].
Qed.

Create HintDb order.

#[local] Hint Resolve keeps_order_ret keeps_order_raise keeps_order_starve
  keeps_order_lift keeps_order_print keeps_order_shutdown_client
  keeps_order_conn_send keeps_order_recv : order.

Ltac order_auto :=
  repeat first
    [ apply keeps_order_bind; [|intro]
    | apply keeps_order_try_except; [|intro]
    | solve [auto with order]
    | solve [apply keeps_order_emit; reflexivity]
    | match goal with
      | |- keeps_order (match ?x with _ => _ end) => destruct x
      | |- keeps_order (if ?x then _ else _) => destruct x
      end ].

Lemma keeps_order_preamble_loop fuel : forall remaining data,
  keeps_order (preamble_loop fuel remaining data).
Proof.
  induction fuel as [|fuel IH]; intros remaining data; cbn [preamble_loop].
  - order_auto.
  - destruct (remaining >? 0); [|order_auto].
    apply keeps_order_bind; [order_auto|]. intros [|b raw]; [order_auto|]. apply IH.
Qed.

Lemma keeps_order_payload_loop fuel : forall size data,
  keeps_order (payload_loop fuel size data).
Proof.
  induction fuel as [|fuel IH]; intros size data; cbn [payload_loop].
  - order_auto.
  - destruct (len data <? size); [|order_auto].
    apply keeps_order_bind; [order_auto|]. intros [|b raw]; [order_auto|]. apply IH.
Qed.

Lemma keeps_order_run_iteration srv : keeps_order (run_iteration srv).
Proof.
  unfold run_iteration, invalid_preamble, no_data, validate_preamble.
  apply keeps_order_bind.
  { apply keeps_order_try_except; [|intro; order_auto].
    apply keeps_order_bind; [apply keeps_order_preamble_loop|intro; order_auto]. }
  intros [|]; cbn [negb]; [|order_auto].
  apply keeps_order_bind; [unfold read_string, read_int32; order_auto|]. intro.
  apply keeps_order_bind; [unfold read_int32; order_auto|]. intros size.
  apply keeps_order_bind.
  { destruct size as [n|]; unfold read_payload; [|order_auto].
    intros st r st' H. exact (keeps_order_payload_loop _ _ _ _ _ _ H). }
  intros [|b data]; [order_auto|].
  unfold dispatch, dispatch_syscommand, dispatch_handshake, dispatch_unknown,
    dispatch_endpoint.
  destruct (is_destination _ (lit "__syscommand")); [order_auto|].
  destruct (is_destination _ (lit "__handshake")).
  { apply keeps_order_bind; [|intro; order_auto].
    intros st r st' [= <- <-]. apply orderly_refl. }
  destruct (lookup_destination srv _) as [[d ep]|]; order_auto.
Qed.

Lemma stops_bind {A} (m : M ClientThread A) (k : A -> M ClientThread flow) :
  (forall a, stops (k a)) -> stops (bind m k).
Proof.
  intros Hk st st' H. apply bind_ok_inv in H as (a & st1 & _ & H).
  exact (Hk a _ _ H).
Qed.

Lemma stops_continue : stops (ret Continue).
Proof. intros st st' [=]. Qed.

Lemma stops_raise e : stops (raise e).
Proof. intros st st' [=]. Qed.

Lemma stops_shutdown : stops (bind shutdown_client (fun _ => ret Return)).
Proof.
  intros st st'. unfold bind, shutdown_client, ret.
  destruct (client_running st) eqn:E; intros [= <-]; [reflexivity|exact E].
Qed.

Lemma stops_try_except m h :
  stops m -> (forall e, stops (h e)) -> stops (try_except m h).
Proof.
  intros Hm Hh st st'. unfold try_except.
  destruct (m st) as [[a|e|] st1] eqn:E.
  - intros [= -> <-]. exact (Hm _ _ E).
  - apply Hh.
  - discriminate.
Qed.

Ltac stops_auto :=
  repeat first
    [ apply stops_shutdown
    | apply stops_continue
    | apply stops_raise
    | apply stops_try_except; [|intro]
    | apply stops_bind; intro
    | match goal with
      | |- stops (match ?x with _ => _ end) => destruct x
      | |- stops (if ?x then _ else _) => destruct x
      end ].

Lemma stops_run_iteration srv : stops (run_iteration srv).
Proof.
  unfold run_iteration, invalid_preamble, no_data, dispatch, dispatch_syscommand,
    dispatch_handshake, dispatch_unknown, dispatch_endpoint.
  stops_auto.
Qed.

Lemma run_loop_returned srv fuel : forall st st',
  run_loop srv fuel st = (Ok tt, st') ->
  client_running st' = false /\ orderly st st'.
Proof.
  induction fuel as [|fuel IH]; intros st st'; cbn [run_loop].
  - destruct (client_running st) eqn:E; [discriminate|].
    intros [= <-]. split; [exact E|apply orderly_refl].
  - destruct (client_running st) eqn:E.
    2:{ intros [= <-]. split; [exact E|apply orderly_refl]. }
    unfold bind.
    destruct (run_iteration srv st) as [[[|]|e|] st1] eqn:Ei; try discriminate.
    + intro H. destruct (IH _ _ H) as (R & O). split; [exact R|].
      eapply orderly_trans; [exact (keeps_order_run_iteration srv _ _ _ Ei)|exact O].
    + intros [= <-]. split; [exact (stops_run_iteration srv _ _ Ei)|].
      exact (keeps_order_run_iteration srv _ _ _ Ei).
Qed.

(** X12. When [run], started on a running handler, returns normally, the
    handler has stopped and the connection is closed, by exactly one call of
    [conn.close]: there is no normal return that leaves the connection
    open. *)
Theorem run_returns_closed srv st :
  client_running st = true -> fst (run srv st) = Ok tt ->
  client_running (snd (run srv st)) = false /\
  conn_closed (snd (run srv st)) = true /\
  close_count (trace (snd (run srv st))) = S (close_count (trace st)).
Proof.
  intros Hr Hok. destruct (run srv st) as [r st'] eqn:E. cbn [fst snd] in *.
  subst r. unfold run in E.
  destruct (run_loop_returned _ _ _ _ E) as (R & B & _ & S).
  split; [exact R|]. split.
  - destruct (S R) as [H | (H & _)]; [exact H|congruence].
  - unfold close_budget in B. rewrite R, Hr in B. lia.
Qed.

Lemma run_returns_closed_witness :
  let st := Examples.client [Examples.frame (lit "a") [7]] in
  client_running (snd (run Examples.server st)) = false /\
  conn_closed (snd (run Examples.server st)) = true /\
  close_count (trace (snd (run Examples.server st))) = 1%nat.
Proof.
  intro st. apply (run_returns_closed Examples.server st).
  - reflexivity.
  - vm_compute. reflexivity.
Defined.

(** X13. A frame for which nothing is read as payload, because it announces
    no bytes or because the stream ends right after its header, is never
    dispatched, whatever its destination, reserved or registered or unknown:
    the handler prints the announced size, closes the connection and [run]
    returns. *)
Theorem empty_payload_never_dispatched srv st destination size st' :
  client_running st = true ->
  frame_read st destination size [] st' ->
  run srv st
  = (Ok tt, closed_client
              (emit_ev (EvPrint (lit "No data for a message size of "
                                 ++ fmt_opt_str (option_map str_of_int size)
                                 ++ lit ", breaking!")) st')).
Proof. exact (empty_payload_abandoned srv st destination size st'). Qed.

Lemma empty_payload_never_dispatched_witness :
  let st := Examples.client [Examples.frame (lit "a") []] in
  run Examples.server st
  = (Ok tt, closed_client
              (emit_ev (EvPrint (lit "No data for a message size of 0, breaking!"))
                 (after_frame st))).
Proof.
  intro st.
  apply (empty_payload_never_dispatched Examples.server st (Some (lit "a")) (Some 0)).
  - reflexivity.
  - apply frame_read_eval; vm_compute; reflexivity.
Defined.

(** ** Messages sent one after the other *)

(** The payload that lies whole at the head of what is waiting is read
    whole, in reads of at most 1024 bytes, and the pieces after it are left
    as they are. *)
Lemma payload_loop_piece fuel : forall size data d cs st,
  conn_closed st = false -> conn_pending st = push_chunk d cs ->
  len data + len d = size -> (length d < fuel)%nat ->
  exists st',
    payload_loop fuel size data st = (Ok (data ++ d), st') /\
    conn_closed st' = false /\ conn_pending st' = cs.
Proof.
  induction fuel as [|fuel IH]; intros size data d cs st Hc Hp Hsz Hf; [lia|].
  cbn [payload_loop]. destruct d as [|x d'].
  - destruct (Z.ltb_spec (len data) size) as [Hlt|_].
    { unfold len in *. cbn [length] in Hsz. lia. }
    exists st. rewrite app_nil_r. now repeat split.
  - set (d := x :: d') in *.
    assert (Hd : 0 < len d) by (unfold len, d; cbn [length]; lia).
    destruct (Z.ltb_spec (len data) size) as [_|Hge]; [|lia].
    set (grab := if size - len data >? 1024 then 1024 else size - len data).
    assert (Hg : 0 < grab /\ grab <= len d).
    { unfold grab. destruct (Z.gtb_spec (size - len data) 1024); lia. }
    assert (Hsplit : d = firstn (Z.to_nat grab) d ++ skipn (Z.to_nat grab) d)
      by (symmetry; apply firstn_skipn).
    assert (Hlen : len (firstn (Z.to_nat grab) d) = grab).
    { unfold len in *. rewrite length_firstn. lia. }
    assert (Hhead : conn_pending st
                    = (firstn (Z.to_nat grab) d ++ skipn (Z.to_nat grab) d) :: cs)
      by (rewrite <- Hsplit; exact Hp).
    pose proof (recv_head grab st _ _ cs Hc Hhead Hlen (proj1 Hg)) as Hr.
    rewrite (bind_ok _ _ _ _ _ Hr).
    destruct (firstn (Z.to_nat grab) d) as [|g0 got'] eqn:Eg.
    { unfold len in Hlen. cbn [length] in Hlen. lia. }
    rewrite <- Eg in *.
    destruct (IH size (data ++ firstn (Z.to_nat grab) d) (skipn (Z.to_nat grab) d) cs
                 (emit_ev (EvRecv grab (firstn (Z.to_nat grab) d))
                    (set_pending (push_chunk (skipn (Z.to_nat grab) d) cs) st)))
      as (st' & H & Hc' & Hp').
    + exact Hc.
    + reflexivity.
    + rewrite len_app, Hlen. unfold len in *. rewrite length_skipn. lia.
    + rewrite length_skipn. unfold len in *. lia.
    + exists st'. rewrite Eg in H at 1. rewrite Eg at 1.
      rewrite <- app_assoc, <- Hsplit in H. now repeat split.
Qed.

(** The fields of a frame that lies whole in the first piece are read from
    it, and the next read starts at the next piece. *)
Lemma read_fields_piece destination e p payload q rest st :
  utf8_encode destination = Returns e -> pack_u32 (len e) = Returns p ->
  pack_u32 (len payload) = Returns q ->
  conn_closed st = false ->
  conn_pending st = ((p ++ e) ++ q ++ payload) :: rest ->
  exists st',
    read_fields st = (Ok (Some destination, Some (len payload), payload), st') /\
    conn_closed st' = false /\ conn_pending st' = rest.
Proof.
  intros He Hpe Hq Hc Hp.
  assert (Hq4 : length q = 4%nat) by exact (pack_length _ _ Hq).
  assert (Hqne : q ++ payload <> []) by (destruct q; [discriminate|discriminate]).
  rewrite <- app_assoc in Hp.
  destruct (read_string_head st destination e p (q ++ payload) rest Hc He Hpe Hqne Hp)
    as (st1 & Hr1 & Hc1 & Hp1).
  destruct (read_int32_head st1 (len payload) q payload rest Hc1 Hp1 Hq)
    as (st2 & Hr2 & Hc2 & Hp2).
  destruct (payload_loop_piece (S (pending_bytes st2)) (len payload) [] payload rest st2
              Hc2 Hp2)
    as (st3 & Hr3 & Hc3 & Hp3).
  { reflexivity. }
  { unfold pending_bytes. rewrite Hp2, push_chunk_concat, length_app. lia. }
  exists st3. split; [|now split].
  unfold read_fields.
  rewrite (bind_ok _ _ _ _ _ Hr1), (bind_ok _ _ _ _ _ Hr2).
  assert (Hr3' : read_payload (Some (len payload)) st2 = (Ok payload, st3))
    by exact Hr3.
  rewrite (bind_ok _ _ _ _ _ Hr3'). reflexivity.
Qed.

Lemma frame_piece_read m piece rest st :
  frame_piece m = Some piece ->
  conn_closed st = false -> conn_pending st = piece :: rest ->
  exists st',
    frame_read st (Some (fst m)) (Some (len (snd m))) (snd m) st' /\
    conn_pending st' = rest.
Proof.
  unfold frame_piece.
  destruct (serialize_message (fst m) (mkMessage (Returns (snd m)))) as [enc|]
    eqn:Hs; [|discriminate].
  intros [= <-] Hc Hp.
  destruct (serialize_message_inv _ _ _ Hs)
    as (e & p & pl & q & He & Hpe & Hm' & Hq & Hparts).
  cbn [msg_serialize] in Hm'. injection Hm' as <-.
  assert (Henc : enc <> []).
  { rewrite Hparts. apply pack_length in Hpe. destruct p; [discriminate|discriminate]. }
  pose proof (recv_head 4 st _Preamble enc rest Hc Hp eq_refl eq_refl) as Hr.
  set (st1 := emit_ev (EvRecv 4 _Preamble) (set_pending (push_chunk enc rest) st)) in *.
  assert (Hloop : preamble_loop 4 4 [] st = (Ok _Preamble, st1)).
  { cbn [preamble_loop]. change (4 >? 0) with true. cbv iota.
    rewrite (bind_ok _ _ _ _ _ Hr). reflexivity. }
  assert (Hv : validate_preamble st = (Ok true, st1)).
  { unfold validate_preamble, try_except.
    change (preamble_loop (length _Preamble) (len _Preamble) [])
      with (preamble_loop 4 4 []).
    rewrite (bind_ok _ _ _ _ _ Hloop). reflexivity. }
  assert (Hp1 : conn_pending st1 = enc :: rest).
  { cbn. destruct enc; [contradiction|reflexivity]. }
  rewrite Hparts in Hp1.
  destruct (read_fields_piece (fst m) e p (snd m) q rest st1 He Hpe Hq Hc Hp1)
    as (st' & Hf & _ & Hp').
  exists st'. split; [|exact Hp']. exists st1. now split.
Qed.

Lemma quiet_silent evs :
  quiet evs = true ->
  filter is_dispatch evs = [] /\ filter is_conn_send evs = [].
Proof.
  induction evs as [|e evs IH]; [now split|].
  cbn [quiet forallb]. intro H. apply andb_prop in H as (He & Hq).
  destruct (IH Hq) as (I1 & I2). destruct e; try discriminate; now split.
Qed.

Lemma pystr_eqb_false a b : pystr_eqb a b = false -> a <> b.
Proof.
  intros H ->. unfold pystr_eqb in H. rewrite list_eqb_refl in H. discriminate.
Qed.

Lemma run_frames srv : forall ms st,
  client_running st = true -> conn_closed st = false ->
  conn_send_failure st = None ->
  map frame_piece ms = map Some (conn_pending st) ->
  forallb (deliverable srv) ms = true ->
  exists st',
    run srv st = (Ok tt, st') /\
    conn_closed st' = true /\
    filter is_dispatch (trace st')
    = filter is_dispatch (trace st) ++ endpoint_sends ms /\
    filter is_conn_send (trace st')
    = filter is_conn_send (trace st) ++ replies srv ms.
Proof.
  induction ms as [|m ms IH]; intros st Hr Hc Hok Hp Hd.
  - destruct (conn_pending st) as [|c cs] eqn:Ep; [|discriminate].
    destruct (run_short_preamble srv st Hr Hc) as (st' & evs & H & Hc' & _ & _ & T & Q & _).
    { unfold nonempty_chunks. rewrite Ep. constructor. }
    { unfold stream. rewrite Ep. cbn. lia. }
    exists st'. split; [exact H|]. split; [exact Hc'|].
    destruct (quiet_silent _ Q) as (Q1 & Q2).
    rewrite T, !filter_app, Q1, Q2. cbn. now rewrite !app_nil_r.
  - destruct (conn_pending st) as [|piece rest] eqn:Ep; [discriminate|].
    cbn [map] in Hp. injection Hp as Hpiece Hrest.
    cbn [forallb] in Hd. apply andb_prop in Hd as (Hm & Hd).
    unfold deliverable in Hm.
    apply andb_prop in Hm as (Hm & Hep). apply andb_prop in Hm as (Hm & Hdata).
    apply andb_prop in Hm as (H1 & H2).
    apply negb_true_iff, pystr_eqb_false in H1.
    apply negb_true_iff, pystr_eqb_false in H2.
    destruct (frame_piece_read m piece rest st Hpiece Hc Ep) as (st1 & Hf & Hp1).
    destruct (frame_read_state _ _ _ _ _ Hf) as (Hc1 & Hr1 & Hs1 & _).
    destruct (frame_read_reads _ _ _ _ _ Hf)
      as (got & _ & _ & _ & _ & _ & evs & T & Q & _).
    destruct (quiet_silent _ Q) as (Q1 & Q2).
    assert (Hne : snd m <> []) by (destruct (snd m); [discriminate|discriminate]).
    destruct (dict_get (source_destination_dict srv) (fst m)) as [ep|] eqn:Eg;
      [|discriminate].
    destruct (endpoint_continue srv st (fst m) (Some (len (snd m))) (snd m) st1 ep
                Hr Hf Hne H1 H2 Eg) as (Knone & Ksome).
    unfold reply in Hep. rewrite Eg in Hep.
    destruct (ep (snd m)) as [[r|]|e] eqn:Ee; [| |discriminate].
    + destruct (serialize_message (fst m) r) as [b|e] eqn:Es; [|discriminate].
      rewrite (Ksome r b eq_refl Es Hok).
      set (st2 := emit_ev (EvConnSend b) (emit_ev (EvEndpointSend (fst m) (snd m)) st1)).
      assert (A1 : client_running st2 = true) by (cbn; congruence).
      assert (A2 : conn_closed st2 = false) by (cbn; congruence).
      assert (A3 : conn_send_failure st2 = None) by (cbn; congruence).
      assert (A4 : map frame_piece ms = map Some (conn_pending st2))
        by (cbn; rewrite Hp1; exact Hrest).
      destruct (IH st2 A1 A2 A3 A4 Hd) as (st' & H & Hc' & D & S). subst st2.
      exists st'. split; [exact H|]. split; [exact Hc'|].
      rewrite D, S. cbn [trace emit_ev]. rewrite T, !filter_app, Q1, Q2.
      cbn [filter is_dispatch is_conn_send endpoint_sends replies map flat_map].
      unfold reply. rewrite Eg, Ee, Es. rewrite !app_nil_r, <- !app_assoc. now split.
    + rewrite (Knone eq_refl).
      set (st2 := emit_ev (EvEndpointSend (fst m) (snd m)) st1).
      assert (A1 : client_running st2 = true) by (cbn; congruence).
      assert (A2 : conn_closed st2 = false) by (cbn; congruence).
      assert (A3 : conn_send_failure st2 = None) by (cbn; congruence).
      assert (A4 : map frame_piece ms = map Some (conn_pending st2))
        by (cbn; rewrite Hp1; exact Hrest).
      destruct (IH st2 A1 A2 A3 A4 Hd) as (st' & H & Hc' & D & S). subst st2.
      exists st'. split; [exact H|]. split; [exact Hc'|].
      rewrite D, S. cbn [trace emit_ev]. rewrite T, !filter_app, Q1, Q2.
      cbn [filter is_dispatch is_conn_send endpoint_sends replies map flat_map].
      unfold reply. rewrite Eg, Ee. rewrite !app_nil_r, <- !app_assoc. now split.
Qed.

(** X14. Messages that a peer writes one after the other, each in a write of
    its own, to registered destinations whose endpoints take them, are all
    handed to their endpoints, whole and in the order sent; the responses of
    the services among them are written back in the same order; and when the
    peer stops sending, [run] closes the connection and returns. *)
Theorem frames_delivered_in_order srv ms st :
  client_running st = true -> conn_closed st = false ->
  conn_send_failure st = None ->
  map frame_piece ms = map Some (conn_pending st) ->
  forallb (deliverable srv) ms = true ->
  fst (run srv st) = Ok tt /\
  conn_closed (snd (run srv st)) = true /\
  filter is_dispatch (trace (snd (run srv st)))
  = filter is_dispatch (trace st) ++ endpoint_sends ms /\
  filter is_conn_send (trace (snd (run srv st)))
  = filter is_conn_send (trace st) ++ replies srv ms.
Proof.
  intros Hr Hc Hok Hp Hd.
  destruct (run_frames srv ms st Hr Hc Hok Hp Hd) as (st' & H & R).
  rewrite H. split; [reflexivity|exact R].
Qed.

Lemma frames_delivered_in_order_witness :
  let ms := [(lit "a", [1]); (lit "b", [2; 3]); (lit "a", [4])] in
  let st := Examples.client [Examples.frame (lit "a") [1];
                             Examples.frame (lit "b") [2; 3];
                             Examples.frame (lit "a") [4]] in
  fst (run Examples.server st) = Ok tt /\
  conn_closed (snd (run Examples.server st)) = true /\
  filter is_dispatch (trace (snd (run Examples.server st)))
  = [EvEndpointSend (lit "a") [1]; EvEndpointSend (lit "b") [2; 3];
     EvEndpointSend (lit "a") [4]] /\
  filter is_conn_send (trace (snd (run Examples.server st)))
  = [EvConnSend (le32 1 ++ lit "b" ++ le32 2 ++ [2; 3])].
Proof.
  intros ms st.
  apply (frames_delivered_in_order Examples.server ms st); vm_compute; reflexivity.
Defined.

(** ** The outbound channel, call after call *)

Lemma create_new_connection_no_address net st :
  Subscriber.unity_ip st = [] ->
  Subscriber.create_new_connection net st = (Ok false, without_address st).
Proof.
  intro Hip. unfold Subscriber.create_new_connection, without_address, no_address_line.
  sub_red. rewrite Hip. cbn [pystr_eqb list_eqb].
  now destruct (Subscriber.unity_ip_error_message_printed st).
Qed.

Lemma send_no_address net data st :
  Subscriber.is_shutdown net = false -> Subscriber.connected st = false ->
  Subscriber.unity_ip st = [] ->
  Subscriber.send net data st = (Ok None, without_address st).
Proof.
  intros Hsh Hc Hip. unfold Subscriber.send. rewrite Hsh.
  destruct (ensure_connected_cases net st) as (_ & _ & E3).
  now rewrite (bind_ok _ _ _ _ _
                 (E3 Hc _ (create_new_connection_no_address net st Hip))).
Qed.

(** X15. While the address of the peer is not known, [send] on an
    unconnected channel returns [None] without making a socket or writing
    anything; the line that says so is printed by the first such call and by
    no later one, whatever is sent. *)
Theorem send_without_address net data st :
  Subscriber.is_shutdown net = false -> Subscriber.connected st = false ->
  Subscriber.unity_ip st = [] ->
  let st' := snd (Subscriber.send net data st) in
  fst (Subscriber.send net data st) = Ok None /\
  Subscriber.socket st' = Subscriber.socket st /\
  Subscriber.next_socket st' = Subscriber.next_socket st /\
  Subscriber.connected st' = false /\
  Subscriber.trace st'
  = Subscriber.trace st
    ++ (if Subscriber.unity_ip_error_message_printed st then []
        else [no_address_line st]) /\
  (forall net' data', Subscriber.is_shutdown net' = false ->
     Subscriber.send net' data' st' = (Ok None, st')).
Proof.
  intros Hsh Hc Hip st'. subst st'. rewrite (send_no_address net data st Hsh Hc Hip).
  cbn [fst snd]. unfold without_address.
  destruct (Subscriber.unity_ip_error_message_printed st) eqn:Ep; cbv iota.
  - rewrite app_nil_r. repeat split; try assumption.
    intros net' data' Hsh'. rewrite (send_no_address net' data' st Hsh' Hc Hip).
    unfold without_address. now rewrite Ep.
  - repeat split; try assumption.
    intros net' data' Hsh'.
    exact (send_no_address net' data'
             (Subscriber.emit_ev (no_address_line st) (Subscriber.set_printed st))
             Hsh' Hc Hip).
Qed.

Lemma send_without_address_witness :
  let st := Subscriber.fresh [] 5005 in
  let st' := snd (Subscriber.send Subscriber.working (mkMessage (Returns [1])) st) in
  Subscriber.trace st'
  = [Subscriber.PrintLine (lit "Can't send a message on topic /chat, no defined unity IP!")] /\
  Subscriber.send Subscriber.refusing (mkMessage (Returns [2])) st' = (Ok None, st').
Proof.
  intros st st'.
  pose proof (send_without_address Subscriber.working (mkMessage (Returns [1])) st
                eq_refl eq_refl eq_refl) as (_ & _ & _ & _ & T & Again).
  split; [exact T|]. exact (Again Subscriber.refusing (mkMessage (Returns [2])) eq_refl).
Defined.

Lemma clear_inv net :
  clear net = true ->
  Subscriber.is_shutdown net = false /\ Subscriber.net_socket net = None /\
  Subscriber.net_connect net = None /\ Subscriber.net_send net = None.
Proof.
  unfold clear. destruct (Subscriber.is_shutdown net); [discriminate|].
  destruct (Subscriber.net_socket net); [discriminate|].
  destruct (Subscriber.net_connect net); [discriminate|].
  destruct (Subscriber.net_send net); [discriminate|]. now intros _.
Qed.

(** A write on a connected channel that succeeds is all the call does. *)
Lemma send_connected_ok net data st s b :
  Subscriber.is_shutdown net = false -> Subscriber.net_send net = None ->
  Subscriber.connected st = true -> Subscriber.socket st = Some s ->
  serialize_message (Subscriber.topic st) data = Returns b ->
  Subscriber.send net data st
  = (Ok (Some (Subscriber.msg st)), Subscriber.emit_ev (Subscriber.SockSend s b true) st).
Proof.
  intros Hsh Hn Hc Hs Hser. unfold Subscriber.send. rewrite Hsh.
  destruct (ensure_connected_cases net st) as (E1 & _).
  rewrite (bind_ok _ _ _ _ _ (E1 Hc)). cbn [negb].
  rewrite (bind_ok _ _ _ _ _ (write_message_sends net data st s b Hs Hser Hn)).
  reflexivity.
Qed.

(** The first call on an unconnected channel makes the connection and writes
    on it. *)
Lemma send_connects_ok net data st b :
  clear net = true ->
  Subscriber.connected st = false -> Subscriber.unity_ip st <> [] ->
  serialize_message (Subscriber.topic st) data = Returns b ->
  Subscriber.send net data st
  = (Ok (Some (Subscriber.msg st)),
     Subscriber.emit_ev (Subscriber.SockSend (Subscriber.next_socket st) b true)
       (Subscriber.set_connected true (Subscriber.attempt_connect true st))).
Proof.
  intros Hcl Hc Hip Hser. destruct (clear_inv net Hcl) as (Hsh & Hso & Hco & Hn).
  pose proof (create_new_connection_eq net st Hip Hso) as Hcr.
  cbv zeta in Hcr. rewrite Hco in Hcr. fold (Subscriber.attempt_connect true st) in Hcr.
  destruct (ensure_connected_cases net st) as (_ & E2 & _).
  unfold Subscriber.send. rewrite Hsh, (bind_ok _ _ _ _ _ (E2 Hc _ Hcr)). cbn [negb].
  rewrite (bind_ok _ _ _ _ _
             (write_message_sends net data
                (Subscriber.set_connected true (Subscriber.attempt_connect true st))
                (Subscriber.next_socket st) b eq_refl Hser Hn)).
  reflexivity.
Qed.

Lemma send_all_connected : forall calls bs st s,
  forallb (fun c => clear (fst c)) calls = true ->
  map (fun c => serialize_message (Subscriber.topic st) (snd c)) calls
  = map Returns bs ->
  Subscriber.connected st = true -> Subscriber.socket st = Some s ->
  exists st',
    send_all calls st = (Ok (map (fun _ => Some (Subscriber.msg st)) calls), st') /\
    Subscriber.connected st' = true /\ Subscriber.socket st' = Some s /\
    Subscriber.next_socket st' = Subscriber.next_socket st /\
    Subscriber.trace st' = Subscriber.trace st ++ writes s bs.
Proof.
  induction calls as [|[net data] calls IH]; intros bs st s Hcl Hser Hc Hs.
  - destruct bs; [|discriminate]. exists st. cbn. rewrite app_nil_r. now repeat split.
  - destruct bs as [|b bs]; [discriminate|]. cbn [map fst snd] in Hser.
    injection Hser as Hb Hbs.
    cbn [forallb fst] in Hcl. apply andb_prop in Hcl as (Hn & Hcl).
    destruct (clear_inv net Hn) as (Hsh & _ & _ & Hsend).
    pose proof (send_connected_ok net data st s b Hsh Hsend Hc Hs Hb) as H1.
    destruct (IH bs (Subscriber.emit_ev (Subscriber.SockSend s b true) st) s Hcl Hbs Hc Hs)
      as (st' & H & Hc' & Hs' & Hn' & T).
    exists st'. cbn [send_all]. rewrite (bind_ok _ _ _ _ _ H1), (bind_ok _ _ _ _ _ H).
    split; [reflexivity|]. repeat split; try assumption.
    rewrite T. cbn. now rewrite <- app_assoc.
Qed.

(** X16. Messages sent one after the other while nothing fails share one
    connection: the first call on an unconnected channel makes one socket
    and connects it to the address of the peer, every call writes the frame
    of its message on that socket, in the order of the calls, and returns
    [self.msg]; no other socket is made and none is closed. *)
Theorem sends_share_one_connection calls bs st :
  Subscriber.connected st = false -> Subscriber.unity_ip st <> [] ->
  calls <> [] ->
  forallb (fun c => clear (fst c)) calls = true ->
  map (fun c => serialize_message (Subscriber.topic st) (snd c)) calls
  = map Returns bs ->
  let s := Subscriber.next_socket st in
  fst (send_all calls st) = Ok (map (fun _ => Some (Subscriber.msg st)) calls) /\
  Subscriber.connected (snd (send_all calls st)) = true /\
  Subscriber.socket (snd (send_all calls st)) = Some s /\
  Subscriber.next_socket (snd (send_all calls st)) = S s /\
  Subscriber.trace (snd (send_all calls st))
  = Subscriber.trace st
    ++ [Subscriber.SockCreate s;
        Subscriber.SockConnect s (Subscriber.unity_ip st) (Subscriber.unity_port st) true]
    ++ writes s bs.
Proof.
  intros Hc Hip Hne Hcl Hser s.
  destruct calls as [|[net data] calls]; [contradiction|].
  destruct bs as [|b bs]; [discriminate|]. cbn [map fst snd] in Hser.
  injection Hser as Hb Hbs.
  cbn [forallb fst] in Hcl. apply andb_prop in Hcl as (Hn & Hcl).
  pose proof (send_connects_ok net data st b Hn Hc Hip Hb) as H1.
  destruct (send_all_connected calls bs
              (Subscriber.emit_ev (Subscriber.SockSend s b true)
                 (Subscriber.set_connected true (Subscriber.attempt_connect true st)))
              s Hcl Hbs eq_refl eq_refl)
    as (st' & H & Hc' & Hs' & Hn' & T).
  cbn [send_all]. rewrite (bind_ok _ _ _ _ _ H1), (bind_ok _ _ _ _ _ H).
  cbn [fst snd bind ret]. split; [reflexivity|]. repeat split; try assumption.
  rewrite T. cbn. now rewrite <- !app_assoc.
Qed.

Lemma sends_share_one_connection_witness :
  let st := Subscriber.fresh (lit "10.0.0.2") 5005 in
  let calls := [(Subscriber.working, mkMessage (Returns [1]));
                (Subscriber.working, mkMessage (Returns [2; 3]))] in
  Subscriber.trace (snd (send_all calls st))
  = [Subscriber.SockCreate 0%nat;
     Subscriber.SockConnect 0%nat (lit "10.0.0.2") 5005 true;
     Subscriber.SockSend 0%nat (le32 5 ++ lit "/chat" ++ le32 1 ++ [1]) true;
     Subscriber.SockSend 0%nat (le32 5 ++ lit "/chat" ++ le32 2 ++ [2; 3]) true].
Proof.
  intros st calls.
  assert (Hne : calls <> []) by discriminate.
  assert (Hip : Subscriber.unity_ip st <> []) by discriminate.
  exact (proj2 (proj2 (proj2 (proj2
           (sends_share_one_connection calls
              [le32 5 ++ lit "/chat" ++ le32 1 ++ [1];
               le32 5 ++ lit "/chat" ++ le32 2 ++ [2; 3]] st
              eq_refl Hip Hne eq_refl eq_refl))))).
Defined.

(** [send] returns, and what it returns is [None] or [self.msg]. *)
Lemma send_returns net data st :
  exists r st',
    Subscriber.send net data st = (Ok r, st') /\
    (r = None \/ r = Some (Subscriber.msg st)) /\
    Subscriber.msg st' = Subscriber.msg st.
Proof.
  unfold Subscriber.send. destruct (Subscriber.is_shutdown net).
  { exists None, st. split; [reflexivity|]. split; [now left|reflexivity]. }
  destruct (ensure_connected_cases net st) as (E1 & E2 & E3).
  assert (Hen : exists b st1,
             Subscriber.ensure_connected net st = (Ok b, st1) /\
             Subscriber.msg st1 = Subscriber.msg st).
  { destruct (Subscriber.connected st) eqn:Hc.
    - exists true, st. split; [now apply E1|reflexivity].
    - destruct (create_new_connection_total net st)
        as ([|] & st1 & Hcr & Hm & _ & _).
      + exists true, (Subscriber.set_connected true st1). split; [now apply E2|exact Hm].
      + exists false, st1. split; [now apply E3|exact Hm]. }
  destruct Hen as (b & st1 & Hen & Hm1). rewrite (bind_ok _ _ _ _ _ Hen).
  destruct b; cbn [negb].
  - destruct (write_message_total net data st1) as (st2 & Hw & Hm2 & _).
    rewrite (bind_ok _ _ _ _ _ Hw). exists (Some (Subscriber.msg st2)), st2.
    split; [reflexivity|]. split; [right|]; congruence.
  - exists None, st1. split; [reflexivity|]. split; [now left|exact Hm1].
Qed.

(** X17. Whatever the surroundings do at each call and whatever is sent,
    the callback of a topic never raises: every call returns [None] or
    [self.msg].  And a channel on which [connected] implies that there is a
    socket stays so, call after call. *)
Theorem send_all_returns calls : forall st,
  exists rs st',
    send_all calls st = (Ok rs, st') /\
    length rs = length calls /\
    Forall (fun r => r = None \/ r = Some (Subscriber.msg st)) rs /\
    Subscriber.msg st' = Subscriber.msg st /\
    (Subscriber.connected_has_socket st -> Subscriber.connected_has_socket st').
Proof.
  induction calls as [|[net data] calls IH]; intro st.
  - exists [], st. cbn. repeat split; auto.
  - destruct (send_returns net data st) as (r & st1 & H1 & Hr & Hm1).
    destruct (IH st1) as (rs & st' & H & Hl & Hrs & Hm & Inv).
    exists (r :: rs), st'. cbn [send_all].
    rewrite (bind_ok _ _ _ _ _ H1), (bind_ok _ _ _ _ _ H).
    split; [reflexivity|]. split; [cbn; now rewrite Hl|]. split; [|split].
    + constructor; [exact Hr|]. now rewrite <- Hm1.
    + congruence.
    + intro I. apply Inv.
      pose proof (send_connected_has_socket net data st I) as I1.
      now rewrite H1 in I1.
Qed.

Lemma send_all_cons net data calls st :
  send_all ((net, data) :: calls) st
  = (r <- Subscriber.send net data ;;
     rs <- send_all calls ;;
     ret (r :: rs)) st.
Proof. reflexivity. Qed.

Lemma send_all_one net data st r st' :
  Subscriber.send net data st = (Ok r, st') ->
  send_all [(net, data)] st = (Ok [r], st').
Proof.
  intro H. rewrite send_all_cons, (bind_ok _ _ _ _ _ H). reflexivity.
Qed.

Lemma logged_address e st :
  Subscriber.unity_ip (Subscriber.logged e st) = Subscriber.unity_ip st /\
  Subscriber.unity_port (Subscriber.logged e st) = Subscriber.unity_port st /\
  Subscriber.next_socket (Subscriber.logged e st) = Subscriber.next_socket st.
Proof.
  unfold Subscriber.logged. now destruct (pystr_eqb _ _).
Qed.

(** A write that fails on a connected channel: the call closes the socket,
    logs and returns [self.msg]. *)
Lemma send_write_fails net data st s b e :
  Subscriber.is_shutdown net = false -> Subscriber.net_send net = Some e ->
  Subscriber.connected st = true -> Subscriber.socket st = Some s ->
  serialize_message (Subscriber.topic st) data = Returns b ->
  Subscriber.send net data st
  = (Ok (Some (Subscriber.msg st)), Subscriber.logged e (Subscriber.failed_write s b st)).
Proof.
  intros Hsh Hn Hc Hs Hser. unfold Subscriber.send. rewrite Hsh.
  destruct (ensure_connected_cases net st) as (E1 & _).
  rewrite (bind_ok _ _ _ _ _ (E1 Hc)). cbn [negb].
  rewrite (bind_ok _ _ _ _ _
             (proj2 (write_message_raises net data st s e Hs) b Hser Hn)).
  sub_red. fold (Subscriber.failed_write s b st).
  now destruct (logged_fields e (Subscriber.failed_write s b st)) as (-> & _).
Qed.

(** X18. After a write has failed, the next call starts afresh: it makes a
    new socket, connects it to the address of the peer and writes its own
    message on it.  The message whose write failed is not written again, and
    both calls return [self.msg]. *)
Theorem send_recovers net1 net2 d1 d2 st s b1 b2 e :
  Subscriber.is_shutdown net1 = false -> Subscriber.net_send net1 = Some e ->
  clear net2 = true ->
  Subscriber.connected st = true -> Subscriber.socket st = Some s ->
  Subscriber.unity_ip st <> [] ->
  serialize_message (Subscriber.topic st) d1 = Returns b1 ->
  serialize_message (Subscriber.topic st) d2 = Returns b2 ->
  let s' := Subscriber.next_socket st in
  let st' := snd (send_all [(net1, d1); (net2, d2)] st) in
  fst (send_all [(net1, d1); (net2, d2)] st)
  = Ok [Some (Subscriber.msg st); Some (Subscriber.msg st)] /\
  Subscriber.connected st' = true /\
  Subscriber.socket st' = Some s' /\
  Subscriber.trace st'
  = Subscriber.trace st
    ++ [Subscriber.SockSend s b1 false; Subscriber.SockClose s]
    ++ Subscriber.log_lines e st
    ++ [Subscriber.SockCreate s';
        Subscriber.SockConnect s' (Subscriber.unity_ip st) (Subscriber.unity_port st) true;
        Subscriber.SockSend s' b2 true].
Proof.
  intros Hsh1 Hn1 Hcl Hc Hs Hip Hb1 Hb2 s' st'.
  pose proof (send_write_fails net1 d1 st s b1 e Hsh1 Hn1 Hc Hs Hb1) as H1.
  set (st1 := Subscriber.logged e (Subscriber.failed_write s b1 st)) in *.
  destruct (logged_fields e (Subscriber.failed_write s b1 st))
    as (Fm & Ft & _ & Fc & _).
  destruct (logged_address e (Subscriber.failed_write s b1 st)) as (Fip & Fport & Fn).
  fold st1 in Fm, Ft, Fc, Fip, Fport, Fn.
  cbn [Subscriber.failed_write Subscriber.emit_ev Subscriber.set_connected
       Subscriber.msg Subscriber.topic Subscriber.connected Subscriber.unity_ip
       Subscriber.unity_port Subscriber.next_socket] in Fm, Ft, Fc, Fip, Fport, Fn.
  assert (Hb2' : serialize_message (Subscriber.topic st1) d2 = Returns b2)
    by (now rewrite Ft).
  assert (Hip' : Subscriber.unity_ip st1 <> []) by (now rewrite Fip).
  pose proof (send_connects_ok net2 d2 st1 b2 Hcl Fc Hip' Hb2') as H2.
  subst st'. rewrite send_all_cons.
  rewrite (bind_ok _ _ _ _ _ H1), (bind_ok _ _ _ _ _ (send_all_one _ _ _ _ _ H2)).
  cbn [fst snd bind ret]. rewrite Fm.
  split; [reflexivity|]. split; [reflexivity|]. split.
  - cbn. now rewrite Fn.
  - cbn [Subscriber.trace Subscriber.emit_ev Subscriber.set_connected
         Subscriber.attempt_connect Subscriber.new_socket].
    rewrite Fn, Fip, Fport. subst st1. rewrite logged_log_lines.
    cbn. rewrite <- !app_assoc. reflexivity.
Qed.

Lemma send_recovers_witness :
  let st := snd (Subscriber.send Subscriber.working (mkMessage (Returns [1]))
                   (Subscriber.fresh (lit "10.0.0.2") 5005)) in
  let st' := snd (send_all [(Subscriber.breaking, mkMessage (Returns [2]));
                            (Subscriber.working, mkMessage (Returns [3]))] st) in
  Subscriber.connected st' = true /\ Subscriber.socket st' = Some 1%nat.
Proof.
  intros st st'.
  assert (Hip : Subscriber.unity_ip st <> []) by discriminate.
  pose proof (send_recovers Subscriber.breaking Subscriber.working
                (mkMessage (Returns [2])) (mkMessage (Returns [3])) st 0%nat
                (le32 5 ++ lit "/chat" ++ le32 1 ++ [2])
                (le32 5 ++ lit "/chat" ++ le32 1 ++ [3])
                (Exn "BrokenPipeError" (lit "[Errno 32] Broken pipe"))
                eq_refl eq_refl eq_refl eq_refl eq_refl Hip eq_refl eq_refl)
    as (_ & Hc & Hs & _).
  split; [exact Hc|exact Hs].
Defined.
